(** * devcontainer bootstrap scripts: [initialize.py] and [post_start.py]

    A shallow embedding of the two scripts under [.devcontainer/commands]
    and the properties the specification states about them.

    Scope of the model.
    - A YAML document is the tree [yaml.safe_load] builds for it: [None],
      booleans, integers, strings, lists and dicts whose keys are scalars
      (the documents of the specification have string keys; the code can
      meet the others). Floats, timestamps and binary scalars are left out
      (for every operation used here they behave like integers).
    - A document written with YAML anchors and aliases is not a tree:
      PyYAML loads an anchored node and its aliases as one object, and the
      merge changes the loaded objects in place. Module [Shared] has the
      merge on a store of objects, for every document; on the documents
      without aliases it computes what the merge on trees of module
      [Initialize] computes.
    - A file that is read with [yaml.safe_load] is known by what the
      loader makes of it; [yaml.dump] followed by [yaml.safe_load] is the
      identity on such trees. A text that cannot be decoded is left out.
    - Strings are the UTF-8 encodings of Python's [str]; iterating over a
      [str] gives its code points.
    - The operating system calls succeed: a file that exists can be read,
      a write does not fail. What the host probes return ([psutil],
      [shutil.which], [subprocess], [os.environ]) is an input; module
      [Probes] has the probes that can end with an exception. *)

From Stdlib Require Import ZArith Lia DecimalString.
From stdpp Require Import base option list strings gmap sorting.

#[local] Set Warnings "-register-all".
Local Open Scope Z_scope.

(** ** Python values, exceptions and the built-in operations the scripts use *)

Module Py.

Inductive scalar : Type :=
| SNone
| SBool (b : bool)
| SInt (z : Z)
| SStr (s : string).

Inductive value : Type :=
| VScalar (c : scalar)
| VList (xs : list value)
| VDict (kvs : list (scalar * value)).

#[global] Instance scalar_eq_dec : EqDecision scalar.
Proof. solve_decision. Defined.

(** A [dict] keeps its items in insertion order. *)
Definition dict : Type := list (scalar * value).

Abbreviation VNone := (VScalar SNone).
Abbreviation VStr s := (VScalar (SStr s)).
Abbreviation VInt z := (VScalar (SInt z)).
Abbreviation VBool b := (VScalar (SBool b)).

Inductive exn : Type :=
| TypeError
| AttributeError
| KeyError
| FileNotFoundError
| YAMLError.

Inductive outcome (A : Type) : Type :=
| Return (a : A)
| Raise (e : exn).
Arguments Return {A} a.
Arguments Raise {A} e.

(** A computation that prints: the lines it wrote to the standard output,
    in order, and how it ended. *)
Definition io (A : Type) : Type := list string * outcome A.

Definition ret {A} (a : A) : io A := ([], Return a).
Definition raise {A} (e : exn) : io A := ([], Raise e).
Definition print (line : string) : io unit := ([line], Return tt).
Definition bind {A B} (m : io A) (f : A → io B) : io B :=
  match m with
  | (out, Return a) => let (out', r) := f a in (out ++ out', r)
  | (out, Raise e) => (out, Raise e)
  end.
Definition lift {A} (r : outcome A) : io A := ([], r).

#[global] Instance outcome_ret : MRet outcome := @Return.
#[global] Instance outcome_bind : MBind outcome := λ A B f m,
  match m with Return a => f a | Raise e => Raise e end.

#[global] Instance io_ret : MRet io := @ret.
#[global] Instance io_bind : MBind io := λ A B f m, bind m f.

Definition is_str_key (k : string) (c : scalar) : bool :=
  match c with SStr s => String.eqb k s | _ => false end.
#[global] Arguments is_str_key : simpl never.

(** [d.get(k)] for a string [k]: no other kind of key is equal to a [str]. *)
Fixpoint dict_get (k : string) (d : dict) : option value :=
  match d with
  | [] => None
  | (c, v) :: d' => if is_str_key k c then Some v else dict_get k d'
  end.

(** [k in d] *)
Definition dict_has (k : string) (d : dict) : bool :=
  match dict_get k d with Some _ => true | None => false end.

(** [d[k] = v]: an existing key keeps its position. *)
Fixpoint dict_set (k : string) (v : value) (d : dict) : dict :=
  match d with
  | [] => [(SStr k, v)]
  | (c, w) :: d' =>
      if is_str_key k c then (c, v) :: d' else (c, w) :: dict_set k v d'
  end.

(** [k in s] for two strings: [k] occurs in [s] as a substring. *)
Fixpoint substring_of (k s : string) : bool :=
  String.prefix k s ||
  match s with
  | EmptyString => false
  | String _ s' => substring_of k s'
  end.

Definition is_str (k : string) (v : value) : bool :=
  match v with VScalar c => is_str_key k c | _ => false end.

(** [k in v] for a string [k] and any value [v]. *)
Definition contains (k : string) (v : value) : outcome bool :=
  match v with
  | VDict d => Return (dict_has k d)
  | VList xs => Return (existsb (is_str k) xs)
  | VScalar (SStr s) => Return (substring_of k s)
  | VScalar _ => Raise TypeError
  end.

(** [v.get(k)] *)
Definition get (v : value) (k : string) : outcome (option value) :=
  match v with
  | VDict d => Return (dict_get k d)
  | _ => Raise AttributeError
  end.

(** [v[k]] for a string [k] *)
Definition getitem (v : value) (k : string) : outcome value :=
  match v with
  | VDict d =>
      match dict_get k d with Some w => Return w | None => Raise KeyError end
  | _ => Raise TypeError
  end.

(** [v.keys()] *)
Definition keys (v : value) : outcome (list scalar) :=
  match v with
  | VDict d => Return (map fst d)
  | _ => Raise AttributeError
  end.

(** [v.setdefault(k, dflt)]: the value bound to [k] afterwards, and [v]
    afterwards. *)
Definition setdefault (v : value) (k : string) (dflt : value)
  : outcome (value * value) :=
  match v with
  | VDict d =>
      match dict_get k d with
      | Some w => Return (w, v)
      | None => Return (dflt, VDict (d ++ [(SStr k, dflt)]))
      end
  | _ => Raise AttributeError
  end.

(** Whether a byte continues a UTF-8 sequence: [10xxxxxx]. *)
Definition continuation (a : Ascii.ascii) : bool :=
  let n := Ascii.N_of_ascii a in ((128 <=? n) && (n <? 192))%N.

(** Whether a text goes on inside a UTF-8 sequence. *)
Definition continues (s : string) : bool :=
  match s with
  | String b _ => continuation b
  | EmptyString => false
  end.

(** The code points of a text, each as a text of its own: a byte that
    starts a UTF-8 sequence, with the continuation bytes that follow. *)
Fixpoint code_points (s : string) : list string :=
  match s with
  | EmptyString => []
  | String a s' =>
      match code_points s' with
      | g :: gs =>
          if continues s' then String a g :: gs
          else String a EmptyString :: g :: gs
      | [] => [String a EmptyString]
      end
  end.

(** The items of [iter(s)] for a [str]: its characters. *)
Definition chars (s : string) : list value :=
  map (λ c, VScalar (SStr c)) (code_points s).

(** The items [list.extend(v)] takes from [v]. *)
Definition iterate (v : value) : outcome (list value) :=
  match v with
  | VList xs => Return xs
  | VDict d => Return (map (λ kv, VScalar (fst kv)) d)
  | VScalar (SStr s) => Return (chars s)
  | VScalar _ => Raise TypeError
  end.

(** [bool(v)] *)
Definition truthy (v : value) : bool :=
  match v with
  | VScalar SNone => false
  | VScalar (SBool b) => b
  | VScalar (SInt z) => negb (z =? 0)
  | VScalar (SStr s) => negb (String.eqb s "")
  | VList xs => match xs with [] => false | _ => true end
  | VDict d => match d with [] => false | _ => true end
  end.

Definition str_of_Z (z : Z) : string := NilZero.string_of_int (Z.to_int z).

(** [sorted(ks)] followed by [", ".join(...)] on the members of a set:
    both need every member to be a [str]. *)
Definition strs_of (ks : list scalar) : list string :=
  omap (λ c, match c with SStr s => Some s | _ => None end) ks.

Definition as_strs (ks : list scalar) : outcome (list string) :=
  if forallb (λ c, match c with SStr _ => true | _ => false end) ks
  then Return (strs_of ks)
  else Raise TypeError.

Definition sorted (l : list string) : list string := merge_sort String.le l.

Definition join (sep : string) (l : list string) : string :=
  String.concat sep l.

Definition NL : string := String (Ascii.ascii_of_nat 10) "".

Definition upper_ascii (a : Ascii.ascii) : Ascii.ascii :=
  let n := Ascii.N_of_ascii a in
  if ((97 <=? n) && (n <=? 122))%N then Ascii.ascii_of_N (n - 32) else a.

(** [s.upper()] on ASCII text *)
Fixpoint upper (s : string) : string :=
  match s with
  | EmptyString => EmptyString
  | String a s' => String (upper_ascii a) (upper s')
  end.

(** [str(v)], as an f-string formats [v]. The text Python prints for a
    list or a dict is not modelled: it is the parameter [repr]. *)
Section Str.
Variable repr : value → string.

Definition str (v : value) : string :=
  match v with
  | VScalar SNone => "None"
  | VScalar (SBool true) => "True"
  | VScalar (SBool false) => "False"
  | VScalar (SInt z) => str_of_Z z
  | VScalar (SStr s) => s
  | _ => repr v
  end.

End Str.

End Py.

(** ** [initialize.py] *)

Module Initialize.
Import Py.

Definition ESC : string := String (Ascii.ascii_of_nat 27) "".
Definition GREEN : string := ESC +:+ "[0;32m".
Definition CYAN : string := ESC +:+ "[0;36m".
Definition YELLOW : string := ESC +:+ "[0;33m".
Definition RED : string := ESC +:+ "[0;31m".
Definition RESET : string := ESC +:+ "[0m".

Definition log_line (msg : string) (success : bool) : string :=
  let prefix := if success then GREEN +:+ "[OK] " else CYAN +:+ "[..] " in
  prefix +:+ msg +:+ RESET.
Definition log (msg : string) (success : bool) : io unit :=
  print (log_line msg success).

Definition warn_line (msg : string) : string :=
  YELLOW +:+ "WARNING: " +:+ msg +:+ RESET.
Definition warn (msg : string) : io unit := print (warn_line msg).

Definition error_line (msg : string) : string :=
  RED +:+ "ERROR: " +:+ msg +:+ RESET.
Definition error (msg : string) : io unit := print (error_line msg).

(** *** The host *)

(** A [pathlib] path, as its components; an absolute path starts with the
    empty component. *)
Definition path : Type := list string.
Definition div (p : path) (c : string) : path := p ++ [c].
Declare Scope path_scope.
Infix "/" := div : path_scope.
Delimit Scope path_scope with path.
Bind Scope path_scope with path.
Definition name (p : path) : string := List.last p "".
Definition path_str (p : path) : string := join "/" p.

(** What the probes of the host return. *)
Record host : Type := {
  environ : gmap string string;       (* os.environ *)
  windows : bool;                     (* platform.system() == "Windows" *)
  getuid : Z;
  getgid : Z;
  home : path;                        (* Path.home() *)
  git_toplevel : option path;         (* git rev-parse --show-toplevel *)
  var_free : option Z;                (* psutil.disk_usage("/var").free *)
  mem_total : Z;                      (* psutil.virtual_memory().total *)
  mem_available : Z;                  (* psutil.virtual_memory().available *)
  which_docker : bool;                (* shutil.which("docker") is not None *)
  docker_version_stdout : option string;  (* of docker --version, stripped *)
  docker_info_ok : bool;              (* docker info succeeds *)
  yama_ptrace_scope : option Z        (* /proc/sys/kernel/yama/ptrace_scope *)
}.

Definition get_uid_gid (h : host) : Z * Z :=
  if windows h then (1000, 1000) else (getuid h, getgid h).

Record SystemInfo : Type := {
  ptrace_scope : option Z;
  disk_available_gb : option Z;
  memory_total_gb : Z;
  memory_available_gb : Z;
  docker_available : bool;
  docker_running : bool;
  docker_version : option string;
  git_repo_root : option path
}.

Definition get_git_root (h : host) : option path := git_toplevel h.

Definition get_system_info (h : host) : SystemInfo :=
  let disk_gb := (λ free, free `div` 1024 ^ 3) <$> var_free h in
  let docker_available := which_docker h in
  let docker_version :=
    if docker_available then docker_version_stdout h else None in
  let docker_running :=
    docker_available &&
    match docker_version_stdout h with
    | Some _ => docker_info_ok h
    | None => false
    end in
  {| ptrace_scope := yama_ptrace_scope h;
     disk_available_gb := disk_gb;
     memory_total_gb := mem_total h `div` 1024 ^ 3;
     memory_available_gb := mem_available h `div` 1024 ^ 3;
     docker_available := docker_available;
     docker_running := docker_running;
     docker_version := docker_version;
     git_repo_root := get_git_root h |}.

Definition levels (scope : Z) : string :=
  if scope =? 0 then "unrestricted"
  else if scope =? 1 then "restricted"
  else if scope =? 2 then "admin-only"
  else if scope =? 3 then "disabled"
  else "unknown".

Definition validate_host (h : host) : io bool :=
  log "Validating host system..." false;;
  let info := get_system_info h in
  let failed := false in
  (* Ptrace *)
  failed ←
    match ptrace_scope info with
    | Some scope =>
        let desc := levels scope in
        let line := "ptrace_scope: " +:+ str_of_Z scope +:+ " (" +:+ desc +:+ ")" in
        if scope =? 0 then log line true;; mret failed
        else if scope =? 3 then error line;; mret true
        else warn line;; mret failed
    | None => mret failed
    end;
  (* Docker *)
  failed ←
    (if negb (docker_available info) then
       error "Docker not found";; mret true
     else if negb (docker_running info) then
       error "Docker daemon not running";; mret true
     else
       let v := match docker_version info with
                | Some v => if String.eqb v "" then "available" else v
                | None => "available"
                end in
       log ("Docker: " +:+ v) true;; mret failed);
  (* Resources *)
  match disk_available_gb info with
  | Some gb =>
      if gb <? 10 then warn ("Disk: " +:+ str_of_Z gb +:+ "GB available (low)")
      else log ("Disk: " +:+ str_of_Z gb +:+ "GB available") true
  | None => mret tt
  end;;
  (if memory_available_gb info <? 2 then
     warn ("Memory: " +:+ str_of_Z (memory_available_gb info) +:+ "GB available (low)")
   else
     log ("Memory: " +:+ str_of_Z (memory_available_gb info) +:+ "/"
          +:+ str_of_Z (memory_total_gb info) +:+ "GB") true);;
  (* Git *)
  match git_repo_root info with
  | Some root => log ("Git: " +:+ path_str root) true
  | None => warn "Git repository not found"
  end;;
  mret (negb failed).

(** *** The validators *)

Definition validate_compose (data : dict) (filename : string) : io bool :=
  missing ←
    (if negb (dict_has "services" data) then mret true
     else
       found ← lift (contains "devcontainer"
                       (default (VDict []) (dict_get "services" data)));
       mret (negb found));
  if (missing : bool) then
    error (filename +:+ ": Missing services.devcontainer");; mret false
  else mret true.

Definition compose_allowed : list string :=
  ["environment"; "volumes"; "devices"; "ports"; "cap_add"; "extra_hosts"].

(** [set(ks) - allowed], in some order: the members of [ks] that are not
    one of the strings [allowed], each once. *)
Definition set_difference (ks : list scalar) (allowed : list string)
  : list scalar :=
  List.filter (λ c, negb (existsb (λ a, is_str_key a c) allowed))
              (remove_dups ks).

Definition validate_compose_custom (data : dict) (filename : string)
  : io bool :=
  ok ← validate_compose data filename;
  if negb ok then mret false
  else
    services ← lift (getitem (VDict data) "services");
    devcontainer ← lift (getitem services "devcontainer");
    ks ← lift (keys devcontainer);
    let unknown := set_difference ks compose_allowed in
    match unknown with
    | [] => mret tt
    | _ =>
        names ← lift (as_strs unknown);
        warn (filename +:+ ": Unknown keys: " +:+ join ", " (sorted names))
    end;;
    mret true.

Definition isinstance_str (v : value) : bool :=
  match v with VScalar (SStr _) => true | _ => false end.

Definition isinstance_list (v : option value) : bool :=
  match v with Some (VList _) => true | _ => false end.

Definition field_ok (data : dict) (field : string) : bool :=
  match dict_get field data with
  | Some v => isinstance_str v
  | None => false
  end.

Definition validate_packages (data : dict) (filename : string) : io bool :=
  if negb (field_ok data "image_name") then
    error (filename +:+ ": Missing or invalid 'image_name'");; mret false
  else if negb (field_ok data "image_tag") then
    error (filename +:+ ": Missing or invalid 'image_tag'");; mret false
  else
    bad ←
      (if negb (dict_has "base" data) then mret true
       else
         packages ← lift (get (default (VDict []) (dict_get "base" data))
                              "packages");
         mret (negb (isinstance_list packages)));
    if (bad : bool) then
      error (filename +:+ ": Missing or invalid 'base.packages'");; mret false
    else mret true.

Definition packages_allowed : list string := ["base"; "devenv"].

Definition validate_packages_custom (data : dict) (filename : string)
  : io bool :=
  let unknown := set_difference (map fst data) packages_allowed in
  match unknown with
  | [] => mret tt
  | _ =>
      names ← lift (as_strs unknown);
      warn (filename +:+ ": Unknown sections: " +:+ join ", " (sorted names))
  end;;
  mret true.

(** *** The file system *)

Inductive load_result : Type :=
| ParseError (msg : string)    (* yaml.YAMLError, with its text *)
| Loaded (v : value).

(** A file is known by its text, or by what [yaml.safe_load] makes of it. *)
Inductive file : Type :=
| Text (content : string)
| Yaml (doc : load_result).

Record fs : Type := {
  dirs : gset path;
  files : gmap path file
}.

(** A command: it runs on a file system, prints, and ends with a result or
    an exception; the file system it leaves is the one at that point. *)
Definition cmd (A : Type) : Type := fs → fs * io A.

#[global] Instance cmd_ret : MRet cmd := λ A a s, (s, ret a).
#[global] Instance cmd_bind : MBind cmd := λ A B f m s,
  match m s with
  | (s1, (out, Return a)) =>
      match f a s1 with (s2, (out', r)) => (s2, (out ++ out', r)) end
  | (s1, (out, Raise e)) => (s1, (out, Raise e))
  end.

Definition say {A} (m : io A) : cmd A := λ s, (s, m).
Definition path_exists (p : path) : cmd bool :=
  λ s, (s, ret (bool_decide (is_Some (files s !! p)))).
Definition is_dir (p : path) : cmd bool :=
  λ s, (s, ret (bool_decide (p ∈ dirs s))).
Definition write (p : path) (f : file) : cmd unit :=
  λ s, ({| dirs := dirs s; files := <[p := f]> (files s) |}, ret tt).
Definition unlink_missing_ok (p : path) : cmd unit :=
  λ s, ({| dirs := dirs s; files := delete p (files s) |}, ret tt).
Definition touch_exist_ok (p : path) : cmd unit :=
  λ s, match files s !! p with
       | Some _ => (s, ret tt)
       | None => write p (Text "") s
       end.

Section Scripts.

(** The YAML parser on a text, and the text Python prints for a container:
    neither is modelled, both are parameters. *)
Variable parse : string → load_result.
Variable repr : value → string.

(** What [yaml.safe_load] makes of the file at [p], if there is one. *)
Definition load (s : fs) (p : path) : option load_result :=
  match files s !! p with
  | Some (Yaml doc) => Some doc
  | Some (Text content) => Some (parse content)
  | None => None
  end.

(** [with path.open() as f: yaml.safe_load(f)], for a path that exists or
    not. *)
Definition read_yaml (p : path) : cmd (option load_result) :=
  λ s, (s, ret (load s p)).

Definition safe_load (p : path) : cmd value :=
  doc ← read_yaml p;
  match doc with
  | Some (Loaded v) => mret v
  | Some (ParseError _) => say (raise YAMLError)
  | None => say (raise FileNotFoundError)
  end.

(** In the source the [try] that catches [yaml.YAMLError] also encloses
    the call of the validator. Here only the load is guarded: the
    validators of the script raise no [yaml.YAMLError]
    ([LoadSpec.validators_raise_no_yaml_error]). *)
Definition validate_yaml (p : path) (validator : dict → string → io bool)
  : cmd bool :=
  say (log ("Validating " +:+ name p +:+ "...") false);;
  doc ← read_yaml p;
  match doc with
  | None => say (error ("File not found: " +:+ path_str p));; mret false
  | Some (ParseError e) =>
      say (error (name p +:+ ": YAML error: " +:+ e));; mret false
  | Some (Loaded (VDict data)) =>
      ok ← say (validator data (name p));
      if (ok : bool) then say (log (name p +:+ ": Valid") true);; mret true
      else mret false
  | Some (Loaded _) =>
      say (error (name p +:+ ": Invalid YAML (expected dict)"));; mret false
  end.

(** *** The scaffolds *)

Definition compose_custom_content : string :=
"# Custom docker-compose overrides
# Examples: environment, volumes, devices, ports, extra_hosts

services:
  devcontainer:
    environment: []
    volumes: []
    devices: []
".

Definition create_compose_custom (p : path) : cmd unit :=
  say (log ("Creating " +:+ name p +:+ "...") false);;
  write p (Text compose_custom_content);;
  say (log ("Created " +:+ name p) true).

Definition packages_custom_content : string :=
"# Custom package overrides (merged with packages.default.yml)

base:
  packages: []

devenv:
  packages: []
".

Definition create_packages_custom (p : path) : cmd unit :=
  say (log ("Creating " +:+ name p +:+ "...") false);;
  write p (Text packages_custom_content);;
  say (log ("Created " +:+ name p) true).

(** *** The merge *)

(** [v[k] = w] on a dict [v] *)
Definition store (v : value) (k : string) (w : value) : value :=
  match v with VDict d => VDict (dict_set k w d) | _ => v end.

(** For a section and a field of it:
<<
    if field in custom[section]:
        merged.setdefault(section, {}).setdefault(field, [])
        merged[section][field].extend(custom[section][field])
>>
    [merged] is updated in place; what is returned is [merged] afterwards. *)
Definition merge_field (merged custom : value) (section field : string)
  : outcome value :=
  csec ← getitem custom section;
  present ← contains field csec;
  if (present : bool) then
    '(sec, merged) ← setdefault merged section (VDict []);
    '(_, sec) ← setdefault sec field (VList []);
    let merged := store merged section sec in
    msec ← getitem merged section;
    target ← getitem msec field;
    xs ← match target with
         | VList xs => Return xs
         | _ => Raise AttributeError
         end;
    csec ← getitem custom section;
    src ← getitem csec field;
    ys ← iterate src;
    mret (store merged section (store msec field (VList (xs ++ ys))))
  else mret merged.

(** [if section in custom:] and the two fields under it *)
Definition merge_section (merged custom : value) (section : string)
  : outcome value :=
  present ← contains section custom;
  if (present : bool) then
    merged ← merge_field merged custom section "packages";
    merge_field merged custom section "python_tools"
  else mret merged.

(** What [merge_packages] does between reading and writing: [custom] is
    what was loaded from the custom file, [None] when there is no such
    file. *)
Definition merge_documents (default : value) (custom : option value)
  : outcome value :=
  let merged := default in
  match custom with
  | Some custom =>
      let custom := if truthy custom then custom else VDict [] in
      merged ← merge_section merged custom "base";
      merge_section merged custom "devenv"
  | None => mret merged
  end.

Definition merge_packages (default_path custom_path output_path : path)
  : cmd unit :=
  say (log "Merging package configurations..." false);;
  merged ← safe_load default_path;
  present ← path_exists custom_path;
  custom ← (if (present : bool) then
              custom ← safe_load custom_path; mret (Some custom)
            else mret None);
  merged ← say (lift (merge_documents merged custom));
  write output_path (Yaml (Loaded merged));;
  say (log ("Created " +:+ name output_path) true).

(** *** The environment file *)

Definition proxy_vars : list string :=
  ["http_proxy"; "https_proxy"; "all_proxy"; "no_proxy"].

(** [if val := os.environ.get(v): lines.append(f"{v}={val}")] *)
Definition proxy_line (h : host) (v : string) : list string :=
  match environ h !! v with
  | Some val => if String.eqb val "" then [] else [v +:+ "=" +:+ val]
  | None => []
  end.

Definition proxy_lines (h : host) : list string :=
  List.flat_map
    (λ var, List.flat_map (proxy_line h) [var; upper var]) proxy_vars.

Definition username (h : host) : string :=
  default (default "developer" (environ h !! "USERNAME"))
          (environ h !! "USER").

(** The [try] block of [generate_env]: any exception in it gives the two
    fallback values. *)
Definition image_config (packages : option load_result) : value * value :=
  let fallback := (VStr "ubuntu", VStr "24.04") in
  match packages with
  | Some (Loaded pkg) =>
      match get pkg "image_name", get pkg "image_tag" with
      | Return image_name, Return image_tag =>
          (default (VStr "ubuntu") image_name,
           default (VStr "24.04") image_tag)
      | _, _ => fallback
      end
  | _ => fallback
  end.

Definition suffix_part (suffix : string) : string :=
  if String.eqb suffix "" then "" else "-" +:+ suffix.

(** The list [lines] when [generate_env] writes it. *)
Definition generate_env_lines (h : host) (packages : option load_result)
    (suffix : string) : list string :=
  let lines := proxy_lines h in
  let lines := match lines with [] => lines | _ => lines ++ [""] end in
  let username := username h in
  let '(uid, gid) := get_uid_gid h in
  let lines := lines ++
    [ "SHELL=" +:+ default "/bin/bash" (environ h !! "SHELL");
      "USER=" +:+ username;
      "USER_UID=" +:+ str_of_Z uid;
      "USER_GID=" +:+ str_of_Z gid ] in
  let '(image_name, image_tag) := image_config packages in
  let lines := lines ++
    [ "";
      "IMAGE_NAME=" +:+ str repr image_name;
      "IMAGE_TAG=" +:+ str repr image_tag;
      "";
      "BUILD_TARGET=devenv" ] in
  let suffix_part := suffix_part suffix in
  let lines := lines ++
    [ "";
      "SERVICE_PREPARE=" +:+ username +:+ "-devcontainer-prepare" +:+ suffix_part;
      "SERVICE_MAIN=" +:+ username +:+ "-devcontainer" +:+ suffix_part;
      "";
      "VOLUME_LOCAL_SHARE=" +:+ username +:+ "-devcontainer-local-share" +:+ suffix_part;
      "VOLUME_CONFIG=" +:+ username +:+ "-devcontainer-config" +:+ suffix_part;
      "VOLUME_CACHE=" +:+ username +:+ "-devcontainer-cache" +:+ suffix_part;
      "VOLUME_VSCODE_EXT=" +:+ username +:+ "-vscode-extensions" +:+ suffix_part;
      "VOLUME_VSCODE_EXT_INSIDERS=" +:+ username +:+ "-vscode-extensions-insiders" +:+ suffix_part;
      "";
      "HOME=" +:+ path_str (home h) ] in
  match get_git_root h with
  | Some git_root => lines ++ ["GIT_REPO_ROOT=" +:+ path_str git_root]
  | None => lines
  end.

Definition generate_env (h : host) (env_path packages_path : path)
    (suffix : string) : cmd unit :=
  say (log "Generating .env..." false);;
  packages ← read_yaml packages_path;
  let lines := generate_env_lines h packages suffix in
  let '(uid, gid) := get_uid_gid h in
  write env_path (Text (join NL lines +:+ NL));;
  say (log ("Generated .env (UID=" +:+ str_of_Z uid +:+ ", GID="
            +:+ str_of_Z gid +:+ ")") true).

(** *** [main], after the command line is parsed *)

Definition main (h : host) (devcontainer_dir : path) (suffix : string)
  : cmd Z :=
  let docker_dir := (devcontainer_dir / "docker")%path in
  found ← is_dir docker_dir;
  if negb found then
    say (error ("Directory not found: " +:+ path_str docker_dir));; mret 1
  else
  say (validate_host h);;
  (* Validate compose *)
  say (log "Validating Docker configuration..." false);;
  ok ← validate_yaml (docker_dir / "docker-compose.default.yml") validate_compose;
  if negb ok then mret 1 else
  let compose_custom := (docker_dir / "docker-compose.custom.yml")%path in
  present ← path_exists compose_custom;
  ok ← (if (present : bool) then
          validate_yaml compose_custom validate_compose_custom
        else create_compose_custom compose_custom;; mret true);
  if negb ok then mret 1 else
  (* Validate packages *)
  say (log "Validating package configuration..." false);;
  let packages_default := (docker_dir / "packages.default.yml")%path in
  ok ← validate_yaml packages_default validate_packages;
  if negb ok then mret 1 else
  let packages_custom := (docker_dir / "packages.custom.yml")%path in
  present ← path_exists packages_custom;
  ok ← (if (present : bool) then
          validate_yaml packages_custom validate_packages_custom
        else create_packages_custom packages_custom;; mret true);
  if negb ok then mret 1 else
  (* Merge packages into packages.yml (used by Dockerfile) *)
  let packages_merged := (docker_dir / "packages.yml")%path in
  merge_packages packages_default packages_custom packages_merged;;
  (* Ensure host files exist for mounting *)
  touch_exist_ok (home h / ".netrc");;
  touch_exist_ok (home h / ".gitconfig");;
  (* Generate .env *)
  say (log "Initializing environment..." false);;
  let env_path := (docker_dir / ".env")%path in
  unlink_missing_ok env_path;;
  generate_env h env_path packages_merged suffix;;
  say (log "Environment initialized!" true);;
  mret 0.

End Scripts.

(** *** The specification's vocabulary *)


(** Spec 3, ConfigDocument: a mapping from string keys. *)
Definition str_keys (data : dict) : bool :=
  forallb (λ kv, match fst kv with SStr _ => true | _ => false end) data.

(** Spec 3, MergeSpec: the fixed table of (section, field) pairs. *)
Definition merge_spec : list (string * string) :=
  [("base", "packages"); ("base", "python_tools");
   ("devenv", "packages"); ("devenv", "python_tools")].

(** The items of a mapping; no items for any other value. *)
Definition items (v : value) : dict :=
  match v with VDict d => d | _ => [] end.

(** The items of a section of a document; none when the document has no
    such section, or has another kind of value there. *)
Definition section_items (doc : value) (section : string) : dict :=
  match dict_get section (items doc) with
  | Some v => items v
  | None => []
  end.

(** The value at [section.field] of a document. *)
Definition at_path (doc : value) (section field : string) : option value :=
  dict_get field (section_items doc section).

(** The items of a mapping whose key is none of the strings [ks]. *)
Definition outside (ks : list string) (d : dict) : dict :=
  List.filter (λ kv, negb (existsb (λ k, is_str_key k (fst kv)) ks)) d.

(** Spec 4.4: sections and fields outside the table are left exactly as in
    the default. Top-level items other than [base] and [devenv], and the
    items of every section other than [packages] and [python_tools], are
    the same in both documents, in the same order. *)
Definition same_outside_merge_spec (default merged : value) : Prop :=
  (∀ k, k ≠ "base" → k ≠ "devenv" →
        dict_get k (items merged) = dict_get k (items default)) ∧
  outside ["base"; "devenv"] (items merged)
  = outside ["base"; "devenv"] (items default) ∧
  (∀ s, outside ["packages"; "python_tools"] (section_items merged s)
        = outside ["packages"; "python_tools"] (section_items default s)).

(** The shape of a packages document: a mapping in which [base] and
    [devenv], where present, are mappings whose [packages] and
    [python_tools], where present, are sequences. *)
Definition section_shaped (s : option value) : bool :=
  match s with
  | None => true
  | Some (VDict fields) =>
      forallb (λ f, match dict_get f fields with
                    | None | Some (VList _) => true
                    | Some _ => false
                    end) ["packages"; "python_tools"]
  | Some _ => false
  end.

Definition packages_shaped (doc : value) : bool :=
  match doc with
  | VDict d => forallb (λ s, section_shaped (dict_get s d)) ["base"; "devenv"]
  | _ => false
  end.


(** The lines that [merge_packages] and [generate_env] print first: a run
    that printed neither did not reach the merge or the emission stage. *)
Definition merge_banner : string :=
  log_line "Merging package configurations..." false.
Definition env_banner : string := log_line "Generating .env..." false.
Definition no_banner (line : string) : Prop :=
  line ≠ merge_banner ∧ line ≠ env_banner.

(** The exit status of [sys.exit(main())]: an uncaught exception ends the
    interpreter with status 1. *)
Definition exit_status (r : outcome Z) : Z :=
  match r with Return code => code | Raise _ => 1 end.

End Initialize.

(** ** [post_start.py] *)

Module PostStart.
Import Py.

Definition GREEN : string := Initialize.GREEN.
Definition CYAN : string := Initialize.CYAN.
Definition RESET : string := Initialize.RESET.

Definition log (msg : string) (success : bool) : io unit :=
  let prefix := if success then GREEN +:+ "✓ " else CYAN +:+ "→ " in
  print (prefix +:+ msg +:+ RESET).

(** The text [enable_vscode_profile] appends. *)
Definition source_line : string :=
  NL +:+ "[ -f ~/.vscode_profile ] && . ~/.vscode_profile" +:+ NL.

(** [enable_vscode_profile], on the content of [~/.bashrc] ([None]: there
    is no such file): the content afterwards, and what is printed. *)
Definition enable_vscode_profile (bashrc : option string)
  : option string * io unit :=
  let content := default "" bashrc in
  if substring_of ".vscode_profile" content then
    (bashrc,
     log "Enabling .vscode_profile in .bashrc..." false;;
     log ".vscode_profile already enabled" true)
  else
    (Some (content +:+ source_line),
     log "Enabling .vscode_profile in .bashrc..." false;;
     log "Enabled .vscode_profile" true).

End PostStart.


(** ** Sample documents, hosts and file systems *)

Module Examples.
Import Py Initialize.


(** [services: 5] *)
Definition compose_scalar_services : dict := [(SStr "services", VInt 5)].

(** [services: {devcontainer: }], the value left empty *)
Definition compose_null_devcontainer : dict :=
  [(SStr "services", VDict [(SStr "devcontainer", VNone)])].

(** [services: {devcontainer: {}}] *)
Definition compose_ok : dict :=
  [(SStr "services", VDict [(SStr "devcontainer", VDict [])])].

(** [image_name: ubuntu], [image_tag: "24.04"], [base: 5] *)
Definition packages_scalar_base : dict :=
  [(SStr "image_name", VStr "ubuntu"); (SStr "image_tag", VStr "24.04");
   (SStr "base", VInt 5)].

(** The same, with [base: [packages]] *)
Definition packages_sequence_base : dict :=
  [(SStr "image_name", VStr "ubuntu"); (SStr "image_tag", VStr "24.04");
   (SStr "base", VList [VStr "packages"])].

(** [foo: 1] and [7: x] at the top level *)
Definition packages_custom_int_key : dict :=
  [(SStr "foo", VInt 1); (SInt 7, VStr "x")].

(** [base: {packages: []}], [devenv: {packages: []}], [foo: 1] *)
Definition packages_custom_foo : dict :=
  [(SStr "base", VDict [(SStr "packages", VList [])]);
   (SStr "devenv", VDict [(SStr "packages", VList [])]);
   (SStr "foo", VInt 1)].

Definition packages_of (packages : list value) : value :=
  VDict [(SStr "image_name", VStr "ubuntu"); (SStr "image_tag", VStr "24.04");
         (SStr "base", VDict [(SStr "packages", VList packages)])].

(** [image_name: ubuntu], [base: {packages: [a]}]: no [image_tag] *)
Definition packages_no_tag : dict :=
  [(SStr "image_name", VStr "ubuntu");
   (SStr "base", VDict [(SStr "packages", VList [VStr "a"])])].

(** [base: {packages: [c]}] *)
Definition custom_c : value :=
  VDict [(SStr "base", VDict [(SStr "packages", VList [VStr "c"])])].

(** A custom document that also sets [image_name] and a section of its
    own. *)
Definition custom_overriding : value :=
  VDict [(SStr "image_name", VStr "debian");
         (SStr "base", VDict [(SStr "packages", VList [VStr "c"]);
                              (SStr "note", VStr "mine")]);
         (SStr "extra", VList [])].

(** A Linux host of user [alice], with the given Docker probes. *)
Definition alice (which : bool) (version : option string) (info : bool)
  : host :=
  {| environ := {[ "USER" := "alice" ]};
     windows := false;
     getuid := 1000;
     getgid := 1000;
     home := [""; "home"; "alice"];
     git_toplevel := None;
     var_free := Some (50 * 1024 ^ 3);
     mem_total := 16 * 1024 ^ 3;
     mem_available := 8 * 1024 ^ 3;
     which_docker := which;
     docker_version_stdout := version;
     docker_info_ok := info;
     yama_ptrace_scope := Some 1 |}.

(** Docker is not installed. *)
Definition alice_no_docker : host := alice false None false.

(** Docker is installed, its daemon is not running. *)
Definition alice_docker_stopped : host :=
  alice true (Some "Docker version 27.3.1, build ce12230") false.

(** Stand-ins for the two parameters of the scripts, for runs in which
    no file is parsed from its text and no container is printed. *)
Definition no_parse : string → load_result := λ _, ParseError "not parsed".
Definition no_repr : value → string := λ _, "".

Definition devcontainer_dir : path := ["ws"; ".devcontainer"].
Definition docker_dir : path := (devcontainer_dir / "docker")%path.

Definition packages_default_path : path :=
  (docker_dir / "packages.default.yml")%path.
Definition packages_custom_path : path :=
  (docker_dir / "packages.custom.yml")%path.
Definition packages_merged_path : path := (docker_dir / "packages.yml")%path.
Definition env_path : path := (docker_dir / ".env")%path.

(** A [docker] directory with the two default files only. *)
Definition default_files (packages_default : value) : fs :=
  {| dirs := {[ docker_dir ]};
     files :=
       {[ (docker_dir / "docker-compose.default.yml")%path
            := Yaml (Loaded (VDict compose_ok));
          packages_default_path := Yaml (Loaded packages_default) ]} |}.

(** A [docker] directory with the four configuration files. *)
Definition docker_files (packages_default : value) : fs :=
  {| dirs := {[ docker_dir ]};
     files :=
       {[ (docker_dir / "docker-compose.default.yml")%path
            := Yaml (Loaded (VDict compose_ok));
          (docker_dir / "docker-compose.custom.yml")%path
            := Yaml (Loaded (VDict compose_ok));
          packages_default_path := Yaml (Loaded packages_default);
          packages_custom_path := Yaml (Loaded custom_c) ]} |}.

End Examples.

(** ** [post_start.py], on the files of the home directory *)

(** The script runs inside the container. Its state is the directories
    and the text files that the script itself reads and writes, and the
    places where it launched [pre-commit install]: what that command then
    does to the checkout is not modelled, each launch is recorded. As for
    [initialize.py], the calls of the operating system succeed: the home
    directory exists and none of the files written is a directory. *)

Module ShellSetup.
Import Py.
Import (notations) Initialize.

Definition path : Type := Initialize.path.
Bind Scope path_scope with path.
Definition YELLOW : string := Initialize.YELLOW.

Definition log : string → bool → io unit := PostStart.log.

Definition warn (msg : string) : io unit :=
  print (YELLOW +:+ "WARNING: " +:+ msg +:+ PostStart.RESET).

(** What the probes of the container return. *)
Record container : Type := {
  home : path;                   (* Path.home() *)
  git_toplevel : option path;    (* git rev-parse --show-toplevel *)
  pre_commit_install : bool      (* pre-commit install exits with status 0 *)
}.

Record disk : Type := {
  dirs : gset path;
  texts : gmap path string;
  installs : list path   (* where pre-commit install was launched, oldest first *)
}.

(** A command on the disk, that prints. *)
Definition sh (A : Type) : Type := disk → disk * io A.

#[global] Instance sh_ret : MRet sh := λ A a s, (s, ret a).
#[global] Instance sh_bind : MBind sh := λ A B f m s,
  match m s with
  | (s1, (out, Return a)) =>
      match f a s1 with (s2, (out', r)) => (s2, (out ++ out', r)) end
  | (s1, (out, Raise e)) => (s1, (out, Raise e))
  end.

Definition say {A} (m : io A) : sh A := λ s, (s, m).

(** [p.exists()]: a file or a directory *)
Definition path_exists (p : path) : sh bool :=
  λ s, (s, ret (bool_decide (is_Some (texts s !! p)) || bool_decide (p ∈ dirs s))).

(** [p.write_text(t)] *)
Definition write_text (p : path) (t : string) : sh unit :=
  λ s, ({| dirs := dirs s; texts := <[p := t]> (texts s);
           installs := installs s |}, ret tt).

(** The path itself and the paths above it, from the top. *)
Definition ancestors (p : path) : list path :=
  map (λ n, take n p) (seq 1 (length p)).

(** [p.mkdir(parents=True, exist_ok=True)] *)
Definition mkdir_parents (p : path) : sh unit :=
  λ s, ({| dirs := dirs s ∪ list_to_set (ancestors p); texts := texts s;
           installs := installs s |}, ret tt).

Definition get_git_root (c : container) : option path := git_toplevel c.

Definition DQ : string := String (Ascii.ascii_of_nat 34) EmptyString.

(** The text of the given lines, each ended by a newline. *)
Definition unlines (lines : list string) : string :=
  String.concat EmptyString (map (λ l, l +:+ NL) lines).

(** The text [configure_inputrc] writes. *)
Definition inputrc_content : string :=
  unlines
    [
     "set completion-ignore-case on";
     "set show-all-if-ambiguous on";
     "set colored-stats on";
     "set colored-completion-prefix on";
     "set visible-stats on";
     DQ +:+ "\e[A" +:+ DQ +:+ ": history-search-backward";
     DQ +:+ "\e[B" +:+ DQ +:+ ": history-search-forward";
     DQ +:+ "\e[1;5C" +:+ DQ +:+ ": forward-word";
     DQ +:+ "\e[1;5D" +:+ DQ +:+ ": backward-word" ].

(** The text [create_vscode_profile] writes. *)
Definition vscode_profile_content : string :=
  unlines
    [
     "# Bash completion";
     "if ! shopt -oq posix; then";
     "  [ -f /usr/share/bash-completion/bash_completion ] && "
       +:+ ". /usr/share/bash-completion/bash_completion";
     "fi";
     "";
     "# Git prompt";
     "export GIT_PS1_SHOWDIRTYSTATE=1";
     "export GIT_PS1_SHOWSTASHSTATE=1";
     "export GIT_PS1_SHOWUNTRACKEDFILES=1";
     "export GIT_PS1_SHOWUPSTREAM=" +:+ DQ +:+ "auto" +:+ DQ;
     "";
     "_c_reset='\[\033[0m\]'";
     "_c_user='\[\033[01;32m\]'";
     "_c_path='\[\033[01;36m\]'";
     "_c_git='\[\033[01;33m\]'";
     "";
     "if type -t __git_ps1 &>/dev/null; then";
     "    PS1=" +:+ DQ
       +:+ "${_c_user}\u${_c_reset}@\h:${_c_path}\w${_c_reset}"
       +:+ "${_c_git}\$(__git_ps1 ' (%s)')${_c_reset}\n\$ " +:+ DQ;
     "else";
     "    PS1=" +:+ DQ
       +:+ "${_c_user}\u${_c_reset}@\h:${_c_path}\w${_c_reset}\n\$ " +:+ DQ;
     "fi";
     "";
     "# History";
     "export HISTFILE=" +:+ DQ +:+ "$HOME/.local/share/bash/history" +:+ DQ;
     "export HISTSIZE=10000";
     "export HISTFILESIZE=20000";
     "export HISTCONTROL=ignoredups:erasedups";
     "shopt -s histappend";
     "PROMPT_COMMAND=" +:+ DQ
       +:+ "history -a; history -c; history -r${PROMPT_COMMAND:+; "
       +:+ "$PROMPT_COMMAND}" +:+ DQ;
     "";
     "# Shell options";
     "shopt -s checkwinsize cdspell dirspell nocaseglob "
       +:+ "globstar 2>/dev/null";
     "";
     "# Aliases";
     "alias ll='ls -lh' la='ls -lAh' ..='cd ..' ...='cd ../..'";
     "alias grep='grep --color=auto'";
     "alias bz='bazelisk'";
     "";
     "# Environment";
     "export EDITOR=" +:+ DQ +:+ "code --wait" +:+ DQ;
     "export PYTHONDONTWRITEBYTECODE=1 PYTHONUNBUFFERED=1";
     "";
     "# Bazel completion";
     "command -v bazelisk &>/dev/null && eval " +:+ DQ
       +:+ "$(bazelisk completion bash)" +:+ DQ ].

Definition configure_inputrc (c : container) : sh unit :=
  say (log "Configuring .inputrc..." false);;
  write_text (home c / ".inputrc") inputrc_content;;
  say (log "Configured .inputrc" true).

Definition create_vscode_profile (c : container) : sh unit :=
  say (log "Creating .vscode_profile..." false);;
  write_text (home c / ".vscode_profile") vscode_profile_content;;
  say (log "Created .vscode_profile" true).

(** [PostStart.enable_vscode_profile], on the file [~/.bashrc]. *)
Definition enable_vscode_profile (c : container) : sh unit :=
  λ s,
    let bashrc := (home c / ".bashrc")%path in
    let '(content, out) := PostStart.enable_vscode_profile (texts s !! bashrc) in
    ({| dirs := dirs s;
        texts := match content with
                 | Some t => <[bashrc := t]> (texts s)
                 | None => texts s
                 end;
        installs := installs s |}, out).

(** [subprocess.run(["pre-commit", "install"], cwd=root, check=True)]:
    whether it ended without raising. *)
Definition run_pre_commit_install (c : container) (root : path) : sh bool :=
  λ s, ({| dirs := dirs s; texts := texts s;
           installs := installs s ++ [root] |}, ret (pre_commit_install c)).

Definition setup_precommit (c : container) : sh unit :=
  say (log "Setting up pre-commit hooks..." false);;
  match get_git_root c with
  | None => say (warn "Not in a git repository, skipping pre-commit")
  | Some git_root =>
      found ← path_exists (git_root / ".pre-commit-config.yaml");
      if negb found then
        say (warn "No .pre-commit-config.yaml found, skipping")
      else
        ok ← run_pre_commit_install c git_root;
        if (ok : bool) then say (log "Installed pre-commit hooks" true)
        else say (warn "Failed to install pre-commit hooks")
  end.

(** [".local/share/bash"] is three components of the path. *)
Definition main (c : container) : sh Z :=
  say (log "Configuring shell environment..." false);;
  mkdir_parents (home c / ".local" / "share" / "bash")%path;;
  configure_inputrc c;;
  create_vscode_profile c;;
  enable_vscode_profile c;;
  setup_precommit c;;
  say (log "Shell environment configured!" true);;
  mret 0.

End ShellSetup.

(** ** More sample documents and disks *)

Module Samples.
Import Py Initialize Examples.

(** [services: {devcontainer: {volumes: [], zeta: 1, alpha: 2}}] *)
Definition compose_custom_unknown : dict :=
  [(SStr "services",
    VDict [(SStr "devcontainer",
            VDict [(SStr "volumes", VList []); (SStr "zeta", VInt 1);
                   (SStr "alpha", VInt 2)])])].

(** [base: {python_tools: [ruff]}] *)
Definition custom_tools : value :=
  VDict [(SStr "base", VDict [(SStr "python_tools", VList [VStr "ruff"])])].

(** [extra: {packages: [x]}]: no section of the merge *)
Definition custom_elsewhere : value :=
  VDict [(SStr "extra", VDict [(SStr "packages", VList [VStr "x"])])].


(** The [docker] directory of [docker_files], with a [packages.yml] and a
    [.env] left by an earlier run. *)
Definition docker_files_stale (packages_default : value) : fs :=
  {| dirs := dirs (docker_files packages_default);
     files :=
       <[packages_merged_path := Yaml (Loaded (VStr "stale"))]>
         (<[env_path := Text "OLD=1"]>
            (files (docker_files packages_default))) |}.

(** The [docker] directory of [docker_files], with another custom
    packages document. *)
Definition docker_files_with (packages_default packages_custom : value)
  : fs :=
  {| dirs := dirs (docker_files packages_default);
     files :=
       <[packages_custom_path := Yaml (Loaded packages_custom)]>
         (files (docker_files packages_default)) |}.

End Samples.

(** ** Properties of runs *)

Module Properties.
Import Py Initialize.

(** What the merge leaves at [section.field] of [new], from [old] and the
    custom document: the old value where the custom document has none,
    and otherwise the old sequence, empty if there was none, followed by
    the items of the custom value. *)
Definition appended_at (old custom new : value) (section field : string)
  : Prop :=
  match at_path custom section field with
  | None => at_path new section field = at_path old section field
  | Some src =>
      ∃ xs ys,
        (at_path old section field = Some (VList xs)
         ∨ at_path old section field = None ∧ xs = []) ∧
        iterate src = Return ys ∧
        at_path new section field = Some (VList (xs ++ ys))
  end.

(** The files once [main] has seen to the file at [p]: as they are if
    there is one, and with the scaffold [content] at [p] if not. *)
Definition scaffolded (p : path) (content : string) (s : fs) : fs :=
  if bool_decide (is_Some (files s !! p)) then s
  else {| dirs := dirs s; files := <[p := Text content]> (files s) |}.

(** The files after [p.touch(exist_ok=True)]. *)
Definition touched (p : path) (m : gmap path file) : gmap path file :=
  match m !! p with Some _ => m | None => <[p := Text ""]> m end.

(** Two file systems are alike on the directories [ds] and the paths
    [ps]: each of the directories is in both or in neither, and each of
    the paths holds the same in both. *)
Definition alike (ds ps : list path) (s t : fs) : Prop :=
  (∀ d, d ∈ ds → (d ∈ dirs s ↔ d ∈ dirs t)) ∧
  (∀ p, p ∈ ps → files s !! p = files t !! p).

(** A command reads only [ds] and [pre]: on two file systems alike on
    them it prints the same and ends the same, and when it returns [a] it
    leaves two file systems alike on [ds] and [post a]. *)
Definition reads_only {A} (ds pre : list path) (post : A → list path)
    (m : cmd A) : Prop :=
  ∀ s t, alike ds pre s t →
    (m s).2 = (m t).2 ∧
    ∀ out a, (m s).2 = (out, Return a) → alike ds (post a) (m s).1 (m t).1.

End Properties.


(** ** The merge on the objects the loader built

    [yaml.safe_load] gives objects: a list or a dict is an object of its
    own, an anchored node and its aliases are one object, and
    [merge_packages] changes the objects of the default document in place
    ([setdefault], [extend]). Here are the objects, in a store, and the
    merge on them. *)

Module Shared.
Import Py.

(** What a variable, an item of a list or a value of a dict holds: a
    scalar, which nothing can change, or a reference to a list or a
    dict. *)
Inductive slot : Type :=
| Imm (c : scalar)
| Ref (r : nat).

Inductive object : Type :=
| List (items : list slot)
| Dict (items : list (scalar * slot)).

(** The objects there are; a reference is a position in the store, and a
    new object comes last. A reference that is held always has its
    object: [object_at] has a value for any other for the type's sake. *)
Definition heap : Type := list object.

Definition object_at (h : heap) (r : nat) : object :=
  default (List []) (h !! r).

(** A computation on the store, which ends with a result or an
    exception. *)
Definition run (A : Type) : Type := heap → heap * outcome A.

#[global] Instance run_ret : MRet run := λ A a h, (h, Return a).
#[global] Instance run_bind : MBind run := λ A B f m h,
  match m h with
  | (h1, Return a) => f a h1
  | (h1, Raise e) => (h1, Raise e)
  end.

Definition fail {A} (e : exn) : run A := λ h, (h, Raise e).
Definition new (o : object) : run slot :=
  λ h, (h ++ [o], Return (Ref (length h))).
Definition read (r : nat) : run object := λ h, (h, Return (object_at h r)).
Definition write (r : nat) (o : object) : run unit :=
  λ h, (<[r := o]> h, Return tt).

(** The value a dict has at the string [k] *)
Fixpoint assoc (k : string) (items : list (scalar * slot)) : option slot :=
  match items with
  | [] => None
  | (c, s) :: items' => if is_str_key k c then Some s else assoc k items'
  end.

Definition is_imm_str (k : string) (s : slot) : bool :=
  match s with Imm c => is_str_key k c | Ref _ => false end.

(** [k in v] *)
Definition contains (k : string) (v : slot) : run bool :=
  match v with
  | Imm (SStr s) => mret (substring_of k s)
  | Imm _ => fail TypeError
  | Ref r =>
      o ← read r;
      match o with
      | Dict items => mret (bool_decide (is_Some (assoc k items)))
      | List items => mret (existsb (is_imm_str k) items)
      end
  end.

(** [v[k]] for a string [k] *)
Definition getitem (v : slot) (k : string) : run slot :=
  match v with
  | Imm _ => fail TypeError
  | Ref r =>
      o ← read r;
      match o with
      | Dict items =>
          match assoc k items with
          | Some w => mret w
          | None => fail KeyError
          end
      | List _ => fail TypeError
      end
  end.

(** [v.setdefault(k, {})] and [v.setdefault(k, [])]: the method is looked
    up, the empty container [empty] is made, and it is bound to [k] if
    [k] has no value. *)
Definition setdefault (v : slot) (k : string) (empty : object) : run slot :=
  match v with
  | Imm _ => fail AttributeError
  | Ref r =>
      o ← read r;
      match o with
      | Dict items =>
          dflt ← new empty;
          match assoc k items with
          | Some w => mret w
          | None => write r (Dict (items ++ [(SStr k, dflt)]));; mret dflt
          end
      | List _ => fail AttributeError
      end
  end.

(** [v.extend], looked up: only a list has it. *)
Definition bound_extend (v : slot) : run nat :=
  match v with
  | Imm _ => fail AttributeError
  | Ref r =>
      o ← read r;
      match o with
      | List _ => mret r
      | Dict _ => fail AttributeError
      end
  end.

(** The items [list.extend(v)] takes from [v]: the items of a list, the
    keys of a dict, the characters of a [str]. *)
Definition iterate (v : slot) : run (list slot) :=
  match v with
  | Imm (SStr s) => mret (map (λ c, Imm (SStr c)) (code_points s))
  | Imm _ => fail TypeError
  | Ref r =>
      o ← read r;
      match o with
      | List items => mret items
      | Dict items => mret (map (λ kv, Imm kv.1) items)
      end
  end.

(** [l.extend(v)] for the list [l] at [r]: [l] itself is changed. *)
Definition extend (r : nat) (v : slot) : run unit :=
  ys ← iterate v;
  o ← read r;
  match o with
  | List items => write r (List (items ++ ys))
  | Dict _ => fail AttributeError
  end.

(** [bool(v)] *)
Definition truthy (v : slot) : run bool :=
  match v with
  | Imm c => mret (Py.truthy (VScalar c))
  | Ref r =>
      o ← read r;
      mret (match o with List [] | Dict [] => false | _ => true end)
  end.

(** For a section and a field of it:
<<
    if field in custom[section]:
        merged.setdefault(section, {}).setdefault(field, [])
        merged[section][field].extend(custom[section][field])
>> *)
Definition merge_field (merged custom : slot) (section field : string)
  : run unit :=
  csec ← getitem custom section;
  present ← contains field csec;
  if (present : bool) then
    sec ← setdefault merged section (Dict []);
    _ ← setdefault sec field (List []);
    msec ← getitem merged section;
    target ← getitem msec field;
    l ← bound_extend target;
    csec ← getitem custom section;
    src ← getitem csec field;
    extend l src
  else mret tt.

(** [if section in custom:] and the two fields under it *)
Definition merge_section (merged custom : slot) (section : string)
  : run unit :=
  present ← contains section custom;
  if (present : bool) then
    merge_field merged custom section "packages";;
    merge_field merged custom section "python_tools"
  else mret tt.

(** What [merge_packages] does between reading and writing: [merged] is
    what was loaded from the default file, [custom] what was loaded from
    the custom file, [None] when there is no such file. What is dumped
    afterwards is [merged]. *)
Definition merge_loaded (merged : slot) (custom : option slot) : run unit :=
  match custom with
  | Some custom =>
      t ← truthy custom;
      custom ← (if (t : bool) then mret custom else new (Dict []));
      merge_section merged custom "base";;
      merge_section merged custom "devenv"
  | None => mret tt
  end.

(** The document that [v] is, as a tree, read through at most [n]
    references in a row. *)
Fixpoint view (n : nat) (h : heap) (v : slot) : option value :=
  match v with
  | Imm c => Some (VScalar c)
  | Ref r =>
      match n with
      | O => None
      | S n' =>
          match h !! r with
          | Some (List items) => VList <$> mapM (view n' h) items
          | Some (Dict items) =>
              VDict <$> mapM (λ kv, pair kv.1 <$> view n' h kv.2) items
          | None => None
          end
      end
  end.

Definition reads (h : heap) (v : slot) (doc : value) : Prop :=
  ∃ n, view n h v = Some doc.

(** An object that has grown: what it held, it holds, in the same
    places, and more may follow. *)
Definition grown (o o' : object) : Prop :=
  match o, o' with
  | List items, List items' => items `prefix_of` items'
  | Dict items, Dict items' => items `prefix_of` items'
  | _, _ => False
  end.

(** A store in which every object is still there, grown or as it was. *)
Definition extended (h h' : heap) : Prop :=
  ∀ r o, h !! r = Some o → ∃ o', h' !! r = Some o' ∧ grown o o'.

(** A step that leaves every object there, grown or as it was. *)
Definition appends {A} (m : run A) : Prop := ∀ h, extended h (m h).1.

(** [f] on each member of [l], from the first to the last. *)
Fixpoint each {A B} (f : A → run B) (l : list A) : run (list B) :=
  match l with
  | [] => mret []
  | a :: l' => b ← f a; bs ← each f l'; mret (b :: bs)
  end.

(** The objects [yaml.safe_load] builds for a document written without
    anchors and aliases: one for each list and each dict of the tree. *)
Fixpoint construct (doc : value) : run slot :=
  match doc with
  | VScalar c => mret (Imm c)
  | VList xs => items ← each construct xs; new (List items)
  | VDict kvs =>
      items ← each (λ kv, s ← construct kv.2; mret (kv.1, s)) kvs;
      new (Dict items)
  end.

(** *** Two default documents with an alias *)

Definition name_and_tag : list (scalar * slot) :=
  [(SStr "image_name", Imm (SStr "ubuntu"));
   (SStr "image_tag", Imm (SStr "24.04"))].

(** The default document
<<
    image_name: ubuntu
    image_tag: "24.04"
    base:
      packages: &p [a]
    devenv:
      packages: *p
>>
    as loaded: the list is at 0, [base] at 1, [devenv] at 2, the document
    at 3. *)
Definition one_list_twice : heap :=
  [List [Imm (SStr "a")];
   Dict [(SStr "packages", Ref 0)];
   Dict [(SStr "packages", Ref 0)];
   Dict (name_and_tag ++ [(SStr "base", Ref 1); (SStr "devenv", Ref 2)])].

(** The default document
<<
    image_name: ubuntu
    image_tag: "24.04"
    common: &c [git]
    base:
      packages: *c
>>
    as loaded: the list is at 0, [base] at 1, the document at 2. *)
Definition common_list : heap :=
  [List [Imm (SStr "git")];
   Dict [(SStr "packages", Ref 0)];
   Dict (name_and_tag ++ [(SStr "common", Ref 0); (SStr "base", Ref 1)])].

(** [base: {packages: [c]}], [devenv: {packages: [d]}] *)
Definition custom_c_d : value :=
  VDict [(SStr "base", VDict [(SStr "packages", VList [VStr "c"])]);
         (SStr "devenv", VDict [(SStr "packages", VList [VStr "d"])])].

(** [base: {packages: [vim]}] *)
Definition custom_vim : value :=
  VDict [(SStr "base", VDict [(SStr "packages", VList [VStr "vim"])])].

(** The merge of the default document at [merged] with the custom
    document [custom], written without aliases and loaded after it. *)
Definition merged_with (merged : slot) (custom : value) : run unit :=
  c ← construct custom;
  merge_loaded merged (Some c).

End Shared.

(** ** Which objects a document is made of

    What the proofs about the store need: the documents an object can be
    read as when only some objects may be looked at, and the objects that
    a document has for itself. *)

Module Ownership.
Import Py Shared.

(** The document that [v] is, read through the objects of [zone] only. *)
Fixpoint within (zone : nat → bool) (n : nat) (h : heap) (v : slot)
  : option value :=
  match v with
  | Imm c => Some (VScalar c)
  | Ref r =>
      match n with
      | O => None
      | S n' =>
          if zone r then
            match h !! r with
            | Some (List items) => VList <$> mapM (within zone n' h) items
            | Some (Dict items) =>
                VDict <$>
                  mapM (λ kv, pair kv.1 <$> within zone n' h kv.2) items
            | None => None
            end
          else None
      end
  end.

(** [own zone h k v doc F]: in [h] the slot [v] is the document [doc],
    and [F] are the lists and dicts of it that are not read through the
    zone: none of them is in [zone], and [F] has each of them once, so
    that they are objects of their own, met once in the document. The
    objects less than [k] references away from [v] are all in [F]; from
    there on a part of the document may be read through [zone]. *)
Inductive own (zone : nat → bool) (h : heap)
  : nat → slot → value → list nat → Prop :=
| own_imm k c : own zone h k (Imm c) (VScalar c) []
| own_frozen r doc n :
    within zone n h (Ref r) = Some doc → own zone h 0 (Ref r) doc []
| own_list k r items xs Fs :
    zone r = false → h !! r = Some (List items) →
    Forall3 (own zone h (pred k)) items xs Fs →
    own zone h k (Ref r) (VList xs) (r :: concat Fs)
| own_dict k r items kvs Fs :
    zone r = false → h !! r = Some (Dict items) →
    Forall3 (λ i kv F, i.1 = kv.1 ∧ own zone h (pred k) i.2 kv.2 F)
            items kvs Fs →
    own zone h k (Ref r) (VDict kvs) (r :: concat Fs).

(** An item of a dict and the item of the document that it is. *)
Definition entry (zone : nat → bool) (h : heap) (j : nat)
  : scalar * slot → scalar * value → list nat → Prop :=
  λ i kv F, i.1 = kv.1 ∧ own zone h j i.2 kv.2 F.

(** The empty zone. *)
Definition nowhere : nat → bool := λ _, false.

(** A step [m] on the store does what the step [t] on trees does: it
    raises what [t] raises, and when [t] returns [x] it returns some [y],
    and [R] holds of the store it leaves, [x] and [y]. *)
Definition sim {X Y} (h : heap) (t : outcome X) (m : run Y)
    (R : heap → X → Y → Prop) : Prop :=
  match t with
  | Return x => ∃ h1 y, m h = (h1, Return y) ∧ R h1 x y
  | Raise e => ∃ h1, m h = (h1, Raise e)
  end.

End Ownership.

(** ** The host probes, with the exceptions they can end with

    [get_system_info] asks the host through library calls and guards some
    of them with [try]/[except]. Here each call returns or ends with an
    exception, and the guards are those of the source. *)

Module Probes.
Import Py Initialize.

(** The exceptions the guards tell apart, each with its subclasses, and
    any other exception. *)
Inductive exception : Type :=
| CalledProcessError
| FileNotFoundError
| PermissionError
| ValueError
| OtherError.

#[global] Instance exception_eq_dec : EqDecision exception.
Proof. solve_decision. Defined.

Inductive attempt (A : Type) : Type :=
| Got (a : A)
| Threw (e : exception).
Arguments Got {A} a.
Arguments Threw {A} e.

#[global] Instance attempt_ret : MRet attempt := @Got.
#[global] Instance attempt_bind : MBind attempt := λ A B f m,
  match m with Got a => f a | Threw e => Threw e end.

(** How each call ends on the host. *)
Record probes : Type := {
  disk_usage : attempt Z;         (* psutil.disk_usage("/var").free *)
  virtual_memory : attempt (Z * Z);
                                  (* psutil.virtual_memory(): total, available *)
  which : attempt bool;           (* shutil.which("docker") is not None *)
  docker_version_run : attempt string;
                                  (* docker --version, check=True: its
                                     output, stripped *)
  docker_info_run : attempt unit; (* docker info, check=True *)
  read_ptrace_scope : attempt Z;  (* int(Path(...).read_text().strip()) *)
  git_rev_parse : attempt path    (* git rev-parse --show-toplevel,
                                     check=True: its output, stripped *)
}.

(** [try: a except handled: pass], around a call whose result is kept when
    it returns. *)
Definition guarded {A} (handled : list exception) (a : attempt A)
  : attempt (option A) :=
  match a with
  | Got x => Got (Some x)
  | Threw e => if bool_decide (e ∈ handled) then Got None else Threw e
  end.

Definition get_git_root (p : probes) : attempt (option path) :=
  guarded [CalledProcessError; FileNotFoundError] (git_rev_parse p).

Definition get_system_info (p : probes) : attempt SystemInfo :=
  (* Disk *)
  free ← guarded [PermissionError; FileNotFoundError] (disk_usage p);
  let disk_gb := (λ free, free `div` 1024 ^ 3) <$> free in
  (* Memory *)
  mem ← virtual_memory p;
  (* Docker *)
  docker_available ← which p;
  docker ←
    (if (docker_available : bool) then
       (* [docker_version] is assigned before [docker info] runs *)
       match docker_version_run p with
       | Got version =>
           running ← guarded [CalledProcessError] (docker_info_run p);
           mret (bool_decide (is_Some running), Some version)
       | Threw e =>
           if bool_decide (e ∈ [CalledProcessError]) then mret (false, None)
           else Threw e
       end
     else mret (false, None));
  (* Ptrace *)
  ptrace ← guarded [FileNotFoundError; ValueError] (read_ptrace_scope p);
  git ← get_git_root p;
  mret {| ptrace_scope := ptrace;
          disk_available_gb := disk_gb;
          memory_total_gb := mem.1 `div` 1024 ^ 3;
          memory_available_gb := mem.2 `div` 1024 ^ 3;
          docker_available := docker_available;
          docker_running := docker.1;
          docker_version := docker.2;
          git_repo_root := git |}.

(** What [validate_host] prints and returns once it has [info]. *)
Definition report (info : SystemInfo) : io bool :=
  let failed := false in
  (* Ptrace *)
  failed ←
    match ptrace_scope info with
    | Some scope =>
        let desc := levels scope in
        let line := "ptrace_scope: " +:+ str_of_Z scope +:+ " (" +:+ desc +:+ ")" in
        if scope =? 0 then log line true;; mret failed
        else if scope =? 3 then error line;; mret true
        else warn line;; mret failed
    | None => mret failed
    end;
  (* Docker *)
  failed ←
    (if negb (docker_available info) then
       error "Docker not found";; mret true
     else if negb (docker_running info) then
       error "Docker daemon not running";; mret true
     else
       let v := match docker_version info with
                | Some v => if String.eqb v "" then "available" else v
                | None => "available"
                end in
       log ("Docker: " +:+ v) true;; mret failed);
  (* Resources *)
  match disk_available_gb info with
  | Some gb =>
      if gb <? 10 then warn ("Disk: " +:+ str_of_Z gb +:+ "GB available (low)")
      else log ("Disk: " +:+ str_of_Z gb +:+ "GB available") true
  | None => mret tt
  end;;
  (if memory_available_gb info <? 2 then
     warn ("Memory: " +:+ str_of_Z (memory_available_gb info) +:+ "GB available (low)")
   else
     log ("Memory: " +:+ str_of_Z (memory_available_gb info) +:+ "/"
          +:+ str_of_Z (memory_total_gb info) +:+ "GB") true);;
  (* Git *)
  match git_repo_root info with
  | Some root => log ("Git: " +:+ path_str root) true
  | None => warn "Git repository not found"
  end;;
  mret (negb failed).

Definition banner : string := log_line "Validating host system..." false.

(** What [validate_host] prints, and how it ends: the banner comes before
    the host is asked. ([report] raises nothing; its [Raise] has a value
    here for the type's sake.) *)
Definition validate_host (p : probes) : list string * attempt bool :=
  match get_system_info p with
  | Got info =>
      match report info with
      | (out, Return ok) => (banner :: out, Got ok)
      | (out, Raise _) => (banner :: out, Threw OtherError)
      end
  | Threw e => ([banner], Threw e)
  end.

(** A call that returns, or ends with an exception of [handled]. *)
Definition contained {A} (handled : list exception) (a : attempt A) : Prop :=
  match a with
  | Got _ => True
  | Threw e => e ∈ handled
  end.

(** The probes of a [host], on which no call ends with an exception that
    is not handled. *)
Definition probes_of (h : host) : probes :=
  {| disk_usage :=
       match var_free h with
       | Some free => Got free
       | None => Threw FileNotFoundError
       end;
     virtual_memory := Got (mem_total h, mem_available h);
     which := Got (which_docker h);
     docker_version_run :=
       match docker_version_stdout h with
       | Some out => Got out
       | None => Threw CalledProcessError
       end;
     docker_info_run :=
       if docker_info_ok h then Got tt else Threw CalledProcessError;
     read_ptrace_scope :=
       match yama_ptrace_scope h with
       | Some scope => Got scope
       | None => Threw FileNotFoundError
       end;
     git_rev_parse :=
       match git_toplevel h with
       | Some root => Got root
       | None => Threw CalledProcessError
       end |}.

(** A host where Docker is found on the path and cannot be executed:
    [subprocess.run] ends with [PermissionError]. *)
Definition docker_not_executable : probes :=
  {| disk_usage := Got (50 * 1024 ^ 3);
     virtual_memory := Got (16 * 1024 ^ 3, 8 * 1024 ^ 3);
     which := Got true;
     docker_version_run := Threw PermissionError;
     docker_info_run := Threw PermissionError;
     read_ptrace_scope := Got 1;
     git_rev_parse := Got ["ws"] |}.

End Probes.
(** ** Facts about the Python layer *)

Module PyFacts.
Import Py.

Ltac solve_elem :=
  repeat first [apply list_elem_of_here | apply list_elem_of_further].

Lemma is_str_key_true k c : is_str_key k c = true ↔ c = SStr k.
Proof.
  destruct c as [| b | z | s]; unfold is_str_key;
    try (split; [discriminate | congruence]).
  rewrite String.eqb_eq. split; congruence.
Qed.

Lemma is_str_key_refl k : is_str_key k (SStr k) = true.
Proof. by apply is_str_key_true. Qed.

Lemma is_str_key_ne k k' : k ≠ k' → is_str_key k (SStr k') = false.
Proof.
  intros Hne. destruct (is_str_key k (SStr k')) eqn:E; [|done].
  apply is_str_key_true in E. congruence.
Qed.

Lemma dict_has_get k d : dict_has k d = true ↔ is_Some (dict_get k d).
Proof.
  unfold dict_has. destruct (dict_get k d); split; intros H; try done.
Qed.

Lemma dict_get_set_eq k v d : dict_get k (dict_set k v d) = Some v.
Proof.
  induction d as [| [c w] d IH]; simpl.
  - by rewrite is_str_key_refl.
  - destruct (is_str_key k c) eqn:E; simpl; by rewrite E.
Qed.

Lemma dict_get_set_ne k k' v d :
  k ≠ k' → dict_get k' (dict_set k v d) = dict_get k' d.
Proof.
  intros Hne. induction d as [| [c w] d IH]; simpl.
  - by rewrite is_str_key_ne.
  - destruct (is_str_key k c) eqn:E; simpl; [|by rewrite IH].
    apply is_str_key_true in E as ->. by rewrite !is_str_key_ne.
Qed.

Lemma dict_set_set k v w d : dict_set k v (dict_set k w d) = dict_set k v d.
Proof.
  induction d as [| [c u] d IH]; simpl.
  - by rewrite is_str_key_refl.
  - destruct (is_str_key k c) eqn:E; simpl; rewrite E; [done|]. by rewrite IH.
Qed.

(** Items under other keys are not touched by an assignment. *)
Lemma filter_dict_set (P : scalar → bool) k v d :
  P (SStr k) = false →
  List.filter (λ kv, P (fst kv)) (dict_set k v d)
  = List.filter (λ kv, P (fst kv)) d.
Proof.
  intros HP. induction d as [| [c w] d IH]; simpl.
  - by rewrite HP.
  - destruct (is_str_key k c) eqn:E; simpl.
    + apply is_str_key_true in E as ->. by rewrite HP.
    + by rewrite IH.
Qed.

Lemma app_cons a s t : String a s +:+ t = String a (s +:+ t).
Proof. done. Qed.

Lemma app_empty_r s : s +:+ "" = s.
Proof. induction s as [| a s IH]; [done|]. by rewrite app_cons, IH. Qed.

Lemma prefix_app k t : String.prefix k (k +:+ t) = true.
Proof.
  induction k as [| a k IH]; simpl; [by destruct t|].
  destruct (Ascii.ascii_dec a a); [done | congruence].
Qed.

Lemma substring_of_app_r k s t :
  substring_of k t = true → substring_of k (s +:+ t) = true.
Proof.
  intros H. induction s as [| b s IH]; [done|].
  change (String b s +:+ t) with (String b (s +:+ t)).
  cbn [substring_of]. rewrite IH. apply orb_true_r.
Qed.

Lemma substring_of_self k t : substring_of k (k +:+ t) = true.
Proof.
  destruct (k +:+ t) eqn:E; cbn [substring_of]; rewrite <- E, prefix_app; done.
Qed.

(** A member of a joined list occurs in the text. *)
Lemma substring_of_join k sep l :
  k ∈ l → substring_of k (join sep l) = true.
Proof.
  induction l as [| x l IH]; [by intros ?%elem_of_nil|].
  intros [<- | Hin]%elem_of_cons; cbn [join String.concat];
    destruct l as [| y l].
  - pose proof (substring_of_self k "") as H. by rewrite app_empty_r in H.
  - apply substring_of_self.
  - by apply elem_of_nil in Hin.
  - apply substring_of_app_r, substring_of_app_r. by apply IH.
Qed.

End PyFacts.

(** ** The validators of [initialize.py] *)

Module ValidatorSpec.
Import Py PyFacts Initialize Examples.

(** *** Compose *)




(** *** Exceptions *)

(** C2 fails on the code: on these mappings the validators end with an
    exception instead of a verdict. [base] bound to a scalar or to a
    sequence has no [get]; [services] bound to an integer does not support
    [in]; [services.devcontainer] left empty has no [keys]. *)
Theorem validators_raise_on_malformed_content (filename : string) :
  validate_packages packages_scalar_base filename = ([], Raise AttributeError) ∧
  validate_packages packages_sequence_base filename
  = ([], Raise AttributeError) ∧
  validate_compose compose_scalar_services filename = ([], Raise TypeError) ∧
  validate_compose_custom compose_null_devcontainer filename
  = ([], Raise AttributeError).
Proof. repeat split; reflexivity. Qed.

(** An unknown key that is not a string cannot be sorted and joined into
    the warning. *)
Lemma validate_packages_custom_int_key (filename : string) :
  validate_packages_custom packages_custom_int_key filename
  = ([], Raise TypeError).
Proof. reflexivity. Qed.

(** *** Packages-custom *)

Lemma as_strs_all ks :
  Forall (λ c, ∃ s, c = SStr s) ks → as_strs ks = Return (strs_of ks).
Proof.
  intros H. unfold as_strs.
  assert (forallb (λ c, match c with SStr _ => true | _ => false end) ks
          = true) as ->; [|done].
  apply forallb_forall. intros c Hc%list_elem_of_In.
  rewrite Forall_forall in H. by destruct (H c Hc) as [s ->].
Qed.

Lemma str_keys_Forall data :
  str_keys data = true → Forall (λ c, ∃ s, c = SStr s) (map fst data).
Proof.
  unfold str_keys. rewrite forallb_forall, Forall_forall.
  intros H c [[c' v] [-> Hin]]%list_elem_of_fmap.
  apply list_elem_of_In, H in Hin. simpl in *. destruct c'; try done. by eexists.
Qed.

Lemma dict_has_key k data : dict_has k data = true → SStr k ∈ map fst data.
Proof.
  rewrite dict_has_get. induction data as [| [c v] data IH]; simpl.
  - by intros [? ?].
  - destruct (is_str_key k c) eqn:E.
    + apply is_str_key_true in E as ->. intros _. apply elem_of_cons. by left.
    + intros H. apply elem_of_cons. right. by apply IH.
Qed.

Lemma elem_of_set_difference c ks allowed :
  c ∈ set_difference ks allowed ↔
  c ∈ ks ∧ existsb (λ a, is_str_key a c) allowed = false.
Proof.
  unfold set_difference.
  rewrite list_elem_of_In, filter_In, <- list_elem_of_In, elem_of_remove_dups.
  by rewrite negb_true_iff.
Qed.

Lemma not_allowed k allowed :
  k ∉ allowed → existsb (λ a, is_str_key a (SStr k)) allowed = false.
Proof.
  intros Hk. apply not_true_iff_false. intros [a [Ha E]]%existsb_exists.
  apply is_str_key_true in E. apply list_elem_of_In in Ha. congruence.
Qed.

(** The packages-custom validator never returns fail. On a mapping whose
    keys are all strings, one of which is neither [base] nor [devenv], it
    returns pass and prints one warning, in which that key occurs. (With
    a key that is not a string it raises: see
    [validate_packages_custom_int_key].) *)
Lemma validate_packages_custom_warns :
  (∀ data filename,
     snd (validate_packages_custom data filename) ≠ Return false) ∧
  (∀ data filename k,
     str_keys data = true → dict_has k data = true → k ∉ packages_allowed →
     ∃ names,
       validate_packages_custom data filename
       = ([warn_line (filename +:+ ": Unknown sections: " +:+ join ", " names)],
          Return true) ∧
       k ∈ names ∧
       substring_of k (join ", " names) = true).
Proof.
  split.
  - intros data filename. unfold validate_packages_custom.
    destruct (set_difference _ _) as [| c l]; [done|].
    destruct (as_strs (c :: l)); done.
  - intros data filename k Hkeys Hk Hunknown.
    unfold validate_packages_custom.
    set (unknown := set_difference (map fst data) packages_allowed).
    assert (SStr k ∈ unknown) as Hin.
    { apply elem_of_set_difference. split; [by apply dict_has_key|].
      by apply not_allowed. }
    assert (as_strs unknown = Return (strs_of unknown)) as Hstrs.
    { apply as_strs_all, Forall_forall. intros c [Hc _]%elem_of_set_difference.
      pose proof (str_keys_Forall _ Hkeys) as HF.
      rewrite Forall_forall in HF. by apply HF. }
    assert (k ∈ sorted (strs_of unknown)) as Hsorted.
    { unfold sorted. rewrite merge_sort_Permutation.
      apply list_elem_of_omap. by exists (SStr k). }
    exists (sorted (strs_of unknown)). split; [|split].
    + destruct unknown as [| c l] eqn:E; [by apply elem_of_nil in Hin|].
      by rewrite Hstrs.
    + done.
    + by apply substring_of_join.
Qed.

Lemma validate_packages_custom_warns_witness :
  ∃ names,
    validate_packages_custom packages_custom_foo "packages.custom.yml"
    = ([warn_line ("packages.custom.yml" +:+ ": Unknown sections: "
                   +:+ join ", " names)], Return true) ∧
    "foo" ∈ names ∧
    substring_of "foo" (join ", " names) = true.
Proof.
  apply (proj2 validate_packages_custom_warns packages_custom_foo
               "packages.custom.yml" "foo").
  - reflexivity.
  - reflexivity.
  - compute_done.
Defined.

End ValidatorSpec.

(** ** The merge of [initialize.py] *)

Module MergeSpec.
Import Py PyFacts Initialize Examples.

Lemma elem_of_two {A} (x a b : A) : x ∈ [a; b] → x = a ∨ x = b.
Proof.
  intros [-> | H]%elem_of_cons; [by left|].
  apply elem_of_cons in H as [-> | H]; [by right|]. by apply elem_of_nil in H.
Qed.

Lemma dict_get_app_absent k w d :
  dict_get k d = None → dict_get k (d ++ [(SStr k, w)]) = Some w.
Proof.
  induction d as [| [c u] d IH]; simpl.
  - by rewrite is_str_key_refl.
  - destruct (is_str_key k c); [done | apply IH].
Qed.

Lemma dict_set_app_absent k v w d :
  dict_get k d = None → dict_set k v (d ++ [(SStr k, w)]) = dict_set k v d.
Proof.
  induction d as [| [c u] d IH]; simpl.
  - by rewrite is_str_key_refl.
  - destruct (is_str_key k c); [done|]. intros H. by rewrite IH.
Qed.

(** One step of the merge, when the custom document has the field: the
    section and the field are created if the default lacks them, and the
    custom items come after the default ones. *)
Lemma merge_field_eval d src cd cs sec field :
  dict_get sec cd = Some (VDict cs) →
  dict_get field cs = Some src →
  merge_field (VDict d) (VDict cd) sec field
  = match dict_get sec d with
    | Some (VScalar _) | Some (VList _) => Raise AttributeError
    | o =>
        let s0 := match o with Some (VDict s0) => s0 | _ => [] end in
        match dict_get field s0 with
        | Some (VScalar _) | Some (VDict _) => Raise AttributeError
        | o' =>
            let xs := match o' with Some (VList xs) => xs | _ => [] end in
            match iterate src with
            | Return ys =>
                Return (VDict (dict_set sec
                          (VDict (dict_set field (VList (xs ++ ys)) s0)) d))
            | Raise e => Raise e
            end
        end
    end.
Proof.
  intros Hsec Hfield.
  unfold merge_field. cbn. rewrite Hsec. cbn. unfold dict_has.
  rewrite Hfield. cbn.
  destruct (dict_get sec d) as [[c | l | s0] |] eqn:Hd; cbn; try done.
  - destruct (dict_get field s0) as [[c | xs | s1] |] eqn:Hs; cbn;
      rewrite dict_get_set_eq; cbn; rewrite ?Hs; try done.
    + destruct (iterate src); cbn; [|done]. by rewrite dict_set_set.
    + rewrite (dict_get_app_absent _ _ _ Hs). cbn.
      destruct (iterate src); cbn; [|done].
      by rewrite dict_set_set, (dict_set_app_absent _ _ _ _ Hs).
  - rewrite (dict_set_app_absent _ _ _ _ Hd), dict_get_set_eq. cbn.
    rewrite is_str_key_refl. cbn.
    destruct (iterate src); cbn; [|done]. by rewrite dict_set_set.
Qed.

Lemma merge_field_step d s0 xs src ys cd cs sec field :
  dict_get sec cd = Some (VDict cs) →
  dict_get field cs = Some src →
  iterate src = Return ys →
  (dict_get sec d = Some (VDict s0) ∨ dict_get sec d = None ∧ s0 = []) →
  (dict_get field s0 = Some (VList xs) ∨ dict_get field s0 = None ∧ xs = []) →
  merge_field (VDict d) (VDict cd) sec field
  = Return (VDict (dict_set sec
                     (VDict (dict_set field (VList (xs ++ ys)) s0)) d)).
Proof.
  intros Hsec Hfield Hiter Hd Hs.
  rewrite (merge_field_eval d src cd cs) by done.
  destruct Hd as [Hd | [Hd ->]]; rewrite Hd;
    destruct Hs as [Hs | [Hs ->]]; (try done); cbn [dict_get] in *;
    rewrite ?Hs, Hiter; done.
Qed.

(** One step of the merge, read backwards from its result. *)
Lemma merge_field_inv merged custom sec field merged' :
  merge_field merged custom sec field = Return merged' →
  match at_path custom sec field with
  | None => merged' = merged
  | Some src =>
      ∃ d s0 xs ys,
        merged = VDict d ∧
        (dict_get sec d = Some (VDict s0) ∨ dict_get sec d = None ∧ s0 = []) ∧
        (dict_get field s0 = Some (VList xs)
         ∨ dict_get field s0 = None ∧ xs = []) ∧
        iterate src = Return ys ∧
        merged' = VDict (dict_set sec
                           (VDict (dict_set field (VList (xs ++ ys)) s0)) d)
  end.
Proof.
  unfold at_path, section_items.
  destruct custom as [c | l | cd]; [done | done |]. cbn [items].
  destruct (dict_get sec cd) as [csec |] eqn:Hsec;
    [| by unfold merge_field; cbn; rewrite Hsec].
  destruct csec as [c | l | cs]; cbn [items dict_get].
  - unfold merge_field. cbn. rewrite Hsec. destruct c; cbn; try done.
    destruct (substring_of field s); [| by intros [= <-]].
    unfold mbind, outcome_bind. intros H. by repeat case_match.
  - unfold merge_field. cbn. rewrite Hsec. cbn.
    destruct (existsb (is_str field) l); [| by intros [= <-]].
    unfold mbind, outcome_bind. intros H. by repeat case_match.
  - destruct (dict_get field cs) as [src |] eqn:Hfield.
    + destruct merged as [c | l | d];
        [by unfold merge_field; cbn; rewrite Hsec; cbn; unfold dict_has;
            rewrite Hfield
        |by unfold merge_field; cbn; rewrite Hsec; cbn; unfold dict_has;
            rewrite Hfield |].
      rewrite (merge_field_eval d src cd cs) by done.
      destruct (dict_get sec d) as [[c | l | s0] |] eqn:Hd; try done; cbn zeta.
      * destruct (dict_get field s0) as [[c | xs | s1] |] eqn:Hs; try done;
          destruct (iterate src) as [ys | e]; try done; intros [= <-].
        -- exists d, s0, xs, ys. rewrite Hs. auto 10.
        -- exists d, s0, [], ys. rewrite Hs. auto 10.
      * cbn [dict_get]. destruct (iterate src) as [ys | e]; [|done].
        intros [= <-]. exists d, [], [], ys. auto 10.
    + unfold merge_field. cbn. rewrite Hsec. cbn. unfold dict_has.
      rewrite Hfield. by intros [= <-].
Qed.

(** What one step does to the sections of the merged document. *)
Lemma merge_field_sections merged custom sec field merged' :
  merge_field merged custom sec field = Return merged' →
  (∀ k, k ≠ sec → dict_get k (items merged') = dict_get k (items merged)) ∧
  (∀ P : scalar → bool, P (SStr sec) = false →
     List.filter (λ kv, P (fst kv)) (items merged')
     = List.filter (λ kv, P (fst kv)) (items merged)) ∧
  (∀ s, s ≠ sec → section_items merged' s = section_items merged s) ∧
  match at_path custom sec field with
  | None => section_items merged' sec = section_items merged sec
  | Some src =>
      ∃ xs ys,
        (at_path merged sec field = Some (VList xs)
         ∨ at_path merged sec field = None ∧ xs = []) ∧
        iterate src = Return ys ∧
        section_items merged' sec
        = dict_set field (VList (xs ++ ys)) (section_items merged sec)
  end.
Proof.
  intros H. apply merge_field_inv in H.
  destruct (at_path custom sec field) as [src |]; [| by subst].
  destruct H as (d & s0 & xs & ys & -> & Hd & Hs & Hiter & ->). cbn [items].
  assert (section_items (VDict d) sec = s0) as Hs0.
  { unfold section_items. cbn [items]. by destruct Hd as [-> | [-> ->]]. }
  split; [| split; [| split]].
  - intros k Hk. by rewrite dict_get_set_ne.
  - intros P HP. by apply filter_dict_set.
  - intros s Hne. unfold section_items. cbn [items].
    by rewrite dict_get_set_ne.
  - exists xs, ys. unfold at_path. rewrite Hs0. split; [done|]. split; [done|].
    unfold section_items. cbn [items]. by rewrite dict_get_set_eq.
Qed.

(** A step at another path leaves [section.field] as it was. *)
Lemma merge_field_elsewhere merged custom s1 f1 merged' sec field :
  merge_field merged custom s1 f1 = Return merged' →
  s1 ≠ sec ∨ f1 ≠ field →
  at_path merged' sec field = at_path merged sec field.
Proof.
  intros (_ & _ & Hother & Hhere)%merge_field_sections Hne. unfold at_path.
  destruct (decide (sec = s1)) as [-> | Hsec]; [| by rewrite Hother].
  destruct Hne as [? | Hf]; [done|].
  destruct (at_path custom s1 f1); [| by rewrite Hhere].
  destruct Hhere as (xs & ys & _ & _ & ->). by rewrite dict_get_set_ne.
Qed.

(** The step at [section.field] puts the custom sequence after the default
    one. *)
Lemma merge_field_here merged custom sec field merged' ds cs :
  merge_field merged custom sec field = Return merged' →
  at_path merged sec field = Some (VList ds) →
  at_path custom sec field = Some (VList cs) →
  at_path merged' sec field = Some (VList (ds ++ cs)).
Proof.
  intros (_ & _ & _ & Hhere)%merge_field_sections Hm Hc.
  rewrite Hc in Hhere. destruct Hhere as (xs & ys & Hxs & [= <-] & Hsec).
  unfold at_path. rewrite Hsec, dict_get_set_eq.
  destruct Hxs as [Hxs | [Hxs _]]; congruence.
Qed.

Lemma merge_section_inv merged custom s1 merged' :
  merge_section merged custom s1 = Return merged' →
  contains s1 custom = Return false ∧ merged' = merged ∨
  contains s1 custom = Return true ∧
  ∃ m1, merge_field merged custom s1 "packages" = Return m1 ∧
        merge_field m1 custom s1 "python_tools" = Return merged'.
Proof.
  unfold merge_section.
  destruct (contains s1 custom) as [[|] | e]; cbn; [| | done].
  - destruct (merge_field merged custom s1 "packages") as [m1 | e] eqn:E;
      cbn; [| done].
    intros H. right. split; [done|]. by exists m1.
  - intros [= <-]. by left.
Qed.

Lemma merge_documents_inv default custom merged :
  merge_documents default (Some custom) = Return merged →
  let custom := if truthy custom then custom else VDict [] in
  ∃ m1, merge_section default custom "base" = Return m1 ∧
        merge_section m1 custom "devenv" = Return merged.
Proof.
  unfold merge_documents. cbn zeta.
  destruct (merge_section default _ "base") as [m1 | e] eqn:E; cbn; [| done].
  intros H. by exists m1.
Qed.

Lemma at_path_truthy custom sec field v :
  at_path custom sec field = Some v →
  (if truthy custom then custom else VDict []) = custom ∧
  contains sec custom = Return true.
Proof.
  unfold at_path, section_items.
  destruct custom as [c | l | [| kv cd]]; try done. cbn [items truthy contains].
  unfold dict_has. by destruct (dict_get sec (kv :: cd)).
Qed.

(** A section of the merge leaves the paths of the other section alone and
    appends at each path of its own. *)
Lemma merge_section_at merged custom s1 merged' sec field ds cs :
  merge_section merged custom s1 = Return merged' →
  (sec, field) ∈ merge_spec →
  at_path custom sec field = Some (VList cs) →
  (s1 ≠ sec → at_path merged' sec field = at_path merged sec field) ∧
  (s1 = sec → at_path merged sec field = Some (VList ds) →
   at_path merged' sec field = Some (VList (ds ++ cs))).
Proof.
  intros H Hin Hc. pose proof (at_path_truthy _ _ _ _ Hc) as [_ Hhas].
  apply merge_section_inv in H as [[Hno ->] | [_ (m1 & H1 & H2)]].
  { split; [done|]. intros ->. congruence. }
  split.
  - intros Hne.
    rewrite (merge_field_elsewhere _ _ _ _ _ _ _ H2) by auto.
    by rewrite (merge_field_elsewhere _ _ _ _ _ _ _ H1) by auto.
  - intros -> Hm. unfold merge_spec in Hin.
    assert (field = "packages" ∨ field = "python_tools") as [-> | ->].
    { repeat (apply elem_of_cons in Hin as [[= _ ->] | Hin]; [by auto|]).
      by apply elem_of_nil in Hin. }
    + rewrite (merge_field_elsewhere _ _ _ _ _ _ _ H2) by auto.
      by apply (merge_field_here _ _ _ _ _ _ _ H1).
    + apply (merge_field_here _ _ _ _ _ _ _ H2); [| done].
      by rewrite (merge_field_elsewhere _ _ _ _ _ _ _ H1) by auto.
Qed.

Lemma merge_documents_at default custom merged sec field ds cs :
  (sec, field) ∈ merge_spec →
  merge_documents default (Some custom) = Return merged →
  at_path default sec field = Some (VList ds) →
  at_path custom sec field = Some (VList cs) →
  at_path merged sec field = Some (VList (ds ++ cs)).
Proof.
  intros Hin H Hd Hc. apply merge_documents_inv in H. cbn zeta in H.
  destruct (at_path_truthy _ _ _ _ Hc) as [E _]. rewrite E in H.
  destruct H as (m1 & H1 & H2).
  destruct (merge_section_at _ _ _ _ sec field ds cs H1 Hin Hc) as [B1 B2].
  assert (sec = "base" ∨ sec = "devenv") as [-> | ->].
  { unfold merge_spec in Hin.
    repeat (apply elem_of_cons in Hin as [[= -> _] | Hin]; [by auto|]).
    by apply elem_of_nil in Hin. }
  - destruct (merge_section_at _ _ _ _ "base" field ds cs H2 Hin Hc)
      as [K1 _].
    rewrite K1 by done. by apply B2.
  - destruct (merge_section_at _ _ _ _ "devenv" field ds cs H2 Hin Hc)
      as [_ K2].
    apply K2; [done|]. by rewrite B1.
Qed.

(** *** What the merge leaves alone *)

Lemma outside_dict_set ks k v d :
  k ∈ ks → outside ks (dict_set k v d) = outside ks d.
Proof.
  intros Hk. unfold outside.
  apply (filter_dict_set (λ c, negb (existsb (λ k, is_str_key k c) ks))).
  apply negb_false_iff, existsb_exists. exists k.
  split; [by apply list_elem_of_In | apply is_str_key_refl].
Qed.

Lemma same_outside_refl m : same_outside_merge_spec m m.
Proof. by repeat split. Qed.

Lemma same_outside_trans a b c :
  same_outside_merge_spec a b → same_outside_merge_spec b c →
  same_outside_merge_spec a c.
Proof.
  intros (A1 & A2 & A3) (B1 & B2 & B3). repeat split.
  - intros k H1 H2. by rewrite B1, A1.
  - by rewrite B2, A2.
  - intros s. by rewrite B3, A3.
Qed.

Lemma merge_field_frame merged custom sec field merged' :
  merge_field merged custom sec field = Return merged' →
  sec ∈ ["base"; "devenv"] → field ∈ ["packages"; "python_tools"] →
  same_outside_merge_spec merged merged'.
Proof.
  intros (Hget & Hfilter & Hother & Hhere)%merge_field_sections Hsec Hfield.
  repeat split.
  - intros k H1 H2. apply Hget. by destruct (elem_of_two _ _ _ Hsec) as [-> | ->].
  - unfold outside.
    apply (Hfilter (λ c, negb (existsb (λ k, is_str_key k c)
                                       ["base"; "devenv"]))).
    apply negb_false_iff, existsb_exists. exists sec.
    split; [by apply list_elem_of_In | apply is_str_key_refl].
  - intros s. destruct (decide (s = sec)) as [-> | Hne]; [| by rewrite Hother].
    destruct (at_path custom sec field); [| by rewrite Hhere].
    destruct Hhere as (xs & ys & _ & _ & ->). by apply outside_dict_set.
Qed.

Lemma merge_section_frame merged custom sec merged' :
  merge_section merged custom sec = Return merged' →
  sec ∈ ["base"; "devenv"] →
  same_outside_merge_spec merged merged'.
Proof.
  intros [[_ ->] | [_ (m1 & H1 & H2)]]%merge_section_inv Hsec.
  - apply same_outside_refl.
  - eapply same_outside_trans; eapply merge_field_frame; try done; solve_elem.
Qed.

Lemma merge_documents_frame default custom merged :
  merge_documents default custom = Return merged →
  same_outside_merge_spec default merged.
Proof.
  destruct custom as [custom |]; [| intros [= <-]; apply same_outside_refl].
  intros (m1 & H1 & H2)%merge_documents_inv.
  eapply same_outside_trans; eapply merge_section_frame; try done; solve_elem.
Qed.

(** *** The merge of well-shaped documents succeeds *)

Lemma section_shaped_inv o :
  section_shaped o = true →
  ∃ s0, (o = Some (VDict s0) ∨ o = None ∧ s0 = []) ∧
        section_shaped (Some (VDict s0)) = true.
Proof.
  destruct o as [[c | l | s0] |]; try done; intros H.
  - exists s0. auto.
  - exists []. auto.
Qed.

Lemma field_shaped_inv s0 f :
  section_shaped (Some (VDict s0)) = true →
  f ∈ ["packages"; "python_tools"] →
  ∃ xs, dict_get f s0 = Some (VList xs) ∨ dict_get f s0 = None ∧ xs = [].
Proof.
  cbn [section_shaped]. rewrite forallb_forall. intros H Hf%list_elem_of_In.
  specialize (H f Hf). destruct (dict_get f s0) as [[c | xs | d] |]; try done.
  - exists xs. auto.
  - exists []. auto.
Qed.

Lemma packages_shaped_section d s :
  packages_shaped (VDict d) = true → s ∈ ["base"; "devenv"] →
  section_shaped (dict_get s d) = true.
Proof.
  cbn [packages_shaped]. rewrite forallb_forall.
  intros H Hs%list_elem_of_In. by apply H.
Qed.

Lemma packages_shaped_set d s0 s f zs :
  packages_shaped (VDict d) = true →
  section_shaped (Some (VDict s0)) = true →
  packages_shaped
    (VDict (dict_set s (VDict (dict_set f (VList zs) s0)) d)) = true.
Proof.
  cbn [packages_shaped section_shaped]. rewrite !forallb_forall.
  intros Hd Hs0 s' Hs'.
  destruct (decide (s = s')) as [<- | Hne];
    [| by rewrite dict_get_set_ne; [apply Hd |]].
  rewrite dict_get_set_eq. apply forallb_forall. intros f' Hf'.
  destruct (decide (f = f')) as [<- | Hnf].
  - by rewrite dict_get_set_eq.
  - rewrite dict_get_set_ne by done. by apply Hs0.
Qed.

Lemma merge_field_total merged custom sec field :
  packages_shaped merged = true → packages_shaped custom = true →
  sec ∈ ["base"; "devenv"] → field ∈ ["packages"; "python_tools"] →
  contains sec custom = Return true →
  ∃ merged', merge_field merged custom sec field = Return merged' ∧
             packages_shaped merged' = true.
Proof.
  intros Hm Hc Hsec Hfield Hhas.
  destruct custom as [c | l | cd]; try done.
  destruct merged as [c | l | d]; try done.
  injection Hhas as Hhas. apply dict_has_get in Hhas as [csec Hcsec].
  pose proof (packages_shaped_section _ _ Hc Hsec) as Hcs.
  rewrite Hcsec in Hcs. destruct csec as [c | l | cs]; try done.
  destruct (field_shaped_inv _ _ Hcs Hfield) as [ys [Hys | [Hys _]]].
  - destruct (section_shaped_inv _ (packages_shaped_section _ _ Hm Hsec))
      as (s0 & Hs0 & Hshape).
    destruct (field_shaped_inv _ _ Hshape Hfield) as [xs Hxs].
    rewrite (merge_field_step d s0 xs (VList ys) ys cd cs) by done.
    eexists. split; [done|]. by apply packages_shaped_set.
  - exists (VDict d). split; [| done].
    unfold merge_field. cbn. rewrite Hcsec. cbn. unfold dict_has.
    by rewrite Hys.
Qed.

Lemma merge_section_total merged custom sec :
  packages_shaped merged = true → packages_shaped custom = true →
  sec ∈ ["base"; "devenv"] →
  ∃ merged', merge_section merged custom sec = Return merged' ∧
             packages_shaped merged' = true.
Proof.
  intros Hm Hc Hsec. unfold merge_section.
  destruct (contains sec custom) as [[|] | e] eqn:Hhas; cbn.
  - destruct (merge_field_total merged custom sec "packages")
      as (m1 & -> & Hm1); try done; [solve_elem|]. cbn.
    apply merge_field_total; try done. solve_elem.
  - by exists merged.
  - by destruct custom as [[| | |] | |].
Qed.

Lemma merge_documents_total default custom :
  packages_shaped default = true → packages_shaped custom = true →
  ∃ merged, merge_documents default (Some custom) = Return merged.
Proof.
  intros Hd Hc. unfold merge_documents.
  set (custom' := if truthy custom then custom else VDict []).
  assert (packages_shaped custom' = true) as Hc'.
  { unfold custom'. by destruct (truthy custom). }
  destruct (merge_section_total default custom' "base")
    as (m1 & -> & Hm1); try done; [solve_elem|]. cbn.
  destruct (merge_section_total m1 custom' "devenv")
    as (m2 & -> & Hm2); try done; [solve_elem|]. by exists m2.
Qed.

(** *** What the merge appends and what it keeps *)

(** On trees, that is for documents written without anchors and aliases,
    the merge appends, in order and without deduplication. The two
    examples of the specification, run on files; at every path of the
    MergeSpec table where the default and the custom document both have a
    sequence, the merged document has the default sequence followed by the
    custom one; without a custom document the merged document is the
    default; and on documents of the packages shape the merge does return
    a document. *)
Lemma merge_appends_in_order :
  (∀ parse,
     files (merge_packages parse packages_default_path packages_custom_path
              packages_merged_path
              (docker_files (packages_of [VStr "a"; VStr "b"]))).1
       !! packages_merged_path
     = Some (Yaml (Loaded (packages_of [VStr "a"; VStr "b"; VStr "c"])))) ∧
  (∀ parse,
     files (merge_packages parse packages_default_path packages_custom_path
              packages_merged_path
              (default_files (packages_of [VStr "a"]))).1
       !! packages_merged_path
     = Some (Yaml (Loaded (packages_of [VStr "a"])))) ∧
  (∀ default custom merged sec field ds cs,
     (sec, field) ∈ merge_spec →
     merge_documents default (Some custom) = Return merged →
     at_path default sec field = Some (VList ds) →
     at_path custom sec field = Some (VList cs) →
     at_path merged sec field = Some (VList (ds ++ cs))) ∧
  (∀ default, merge_documents default None = Return default) ∧
  (∀ default custom,
     packages_shaped default = true → packages_shaped custom = true →
     ∃ merged, merge_documents default (Some custom) = Return merged).
Proof.
  split; [| split; [| split; [| split]]].
  - intros parse. by vm_compute.
  - intros parse. by vm_compute.
  - intros default custom merged sec field ds cs.
    apply merge_documents_at.
  - done.
  - apply merge_documents_total.
Qed.

Lemma merge_appends_in_order_witness :
  at_path (packages_of [VStr "c"; VStr "c"]) "base" "packages"
  = Some (VList ([VStr "c"] ++ [VStr "c"])) ∧
  ∃ merged,
    merge_documents (packages_of [VStr "c"]) (Some custom_c) = Return merged.
Proof.
  destruct merge_appends_in_order as (_ & _ & Hat & _ & Htotal). split.
  - apply (Hat (packages_of [VStr "c"]) custom_c
               (packages_of [VStr "c"; VStr "c"])
               "base" "packages" [VStr "c"] [VStr "c"]).
    + unfold merge_spec. solve_elem.
    + reflexivity.
    + reflexivity.
    + reflexivity.
  - apply Htotal; reflexivity.
Defined.

(** On trees, that is for documents written without anchors and aliases,
    the merge overwrites nothing outside the MergeSpec table. Whatever
    the custom document holds, [image_name] and [image_tag] of the merged
    document are those of the default, and so is every item that is not
    one of [packages] and [python_tools] under [base] and [devenv]. *)
Lemma merge_keeps_the_rest default custom merged :
  merge_documents default custom = Return merged →
  dict_get "image_name" (items merged) = dict_get "image_name" (items default) ∧
  dict_get "image_tag" (items merged) = dict_get "image_tag" (items default) ∧
  same_outside_merge_spec default merged.
Proof.
  intros H%merge_documents_frame. pose proof H as (Hget & _ & _).
  split; [by apply Hget | split; [by apply Hget | done]].
Qed.

Lemma merge_keeps_the_rest_witness :
  let merged :=
    VDict [(SStr "image_name", VStr "ubuntu"); (SStr "image_tag", VStr "24.04");
           (SStr "base", VDict [(SStr "packages",
                                 VList [VStr "a"; VStr "c"])])] in
  dict_get "image_name" (items merged) = Some (VStr "ubuntu") ∧
  dict_get "image_tag" (items merged) = Some (VStr "24.04") ∧
  same_outside_merge_spec (packages_of [VStr "a"]) merged.
Proof.
  apply (merge_keeps_the_rest (packages_of [VStr "a"]) (Some custom_overriding)).
  reflexivity.
Defined.

End MergeSpec.

(** ** [main] of [initialize.py] *)

Module MainSpec.
Import Py PyFacts Initialize Examples.

Lemma name_div p c : name (p / c) = c.
Proof. unfold name, div. apply last_last. Qed.

Lemma div_inj p c c' : (p / c)%path = (p / c')%path → c = c'.
Proof. unfold div. intros H%app_inv_head. congruence. Qed.

Lemma io_bind_returns {A B} (m : io A) (f : A → io B) :
  (∃ out a, m = (out, Return a)) →
  (∀ a, ∃ out b, f a = (out, Return b)) →
  ∃ out b, m ≫= f = (out, Return b).
Proof.
  intros (out & a & ->) Hf. destruct (Hf a) as (out' & b & E).
  exists (out ++ out'), b. unfold mbind, io_bind, bind. by rewrite E.
Qed.

Lemma print_returns line : ∃ out a, print line = (out, Return a).
Proof. by eexists _, _. Qed.

(** The host validator always returns a verdict. *)
Lemma validate_host_returns h : ∃ out ok, validate_host h = (out, Return ok).
Proof.
  unfold validate_host.
  repeat first
    [ apply io_bind_returns; [| intros ?]
    | apply print_returns
    | by eexists _, _
    | match goal with |- context [match ?x with _ => _ end] => destruct x end ].
Qed.

(** Validating a file reads it and nothing else. *)
Lemma validate_yaml_fs parse p validator s :
  (validate_yaml parse p validator s).1 = s.
Proof.
  cbv [validate_yaml mbind cmd_bind mret cmd_ret say read_yaml ret].
  destruct (load parse s p) as [[msg | [c | l | data]] |]; cbn; try done.
  destruct (validator data (name p)) as [out [[|] | e]]; done.
Qed.

Lemma validate_yaml_fails parse p validator s data :
  load parse s p = Some (Loaded (VDict data)) →
  (validator data (name p)).2 = Return false →
  (validate_yaml parse p validator s).2.2 = Return false.
Proof.
  intros Hload Hv.
  cbv [validate_yaml mbind cmd_bind mret cmd_ret say read_yaml ret].
  rewrite Hload. cbn. destruct (validator data (name p)) as [out r].
  cbn in Hv. by subst.
Qed.

(** *** What is printed before the merge *)

Lemma no_banner_ok msg : no_banner (log_line msg true).
Proof. split; intros H; cbv in H; discriminate H. Qed.

Lemma no_banner_warn msg : no_banner (warn_line msg).
Proof. split; intros H; cbv in H; discriminate H. Qed.

Lemma no_banner_error msg : no_banner (error_line msg).
Proof. split; intros H; cbv in H; discriminate H. Qed.

Lemma no_banner_validating msg :
  no_banner (log_line ("Validating " +:+ msg) false).
Proof. split; intros H; cbv in H; discriminate H. Qed.

Lemma no_banner_creating msg :
  no_banner (log_line ("Creating " +:+ msg) false).
Proof. split; intros H; cbv in H; discriminate H. Qed.

Lemma io_bind_out {A B} (P : string → Prop) (m : io A) (f : A → io B) :
  Forall P m.1 → (∀ a, Forall P (f a).1) → Forall P (m ≫= f).1.
Proof.
  destruct m as [out [a | e]]; cbn; intros Hm Hf; [| done].
  specialize (Hf a). destruct (f a) as [out' r]. by apply Forall_app.
Qed.

Ltac quiet :=
  repeat first
    [ apply io_bind_out; [| intros ?]
    | apply Forall_nil_2
    | apply Forall_cons_2
    | apply no_banner_ok
    | apply no_banner_warn
    | apply no_banner_error
    | apply (no_banner_validating "host system...")
    | match goal with
      | |- context [match ?x with _ => _ end] => destruct x
      end ].

Lemma validate_host_quiet h : Forall no_banner (validate_host h).1.
Proof. unfold validate_host, log, warn, error, print. quiet. Qed.

Lemma validate_compose_quiet data filename :
  Forall no_banner (validate_compose data filename).1.
Proof. unfold validate_compose, error, print, lift. quiet. Qed.

Lemma validate_compose_custom_quiet data filename :
  Forall no_banner (validate_compose_custom data filename).1.
Proof.
  unfold validate_compose_custom. apply io_bind_out.
  - apply validate_compose_quiet.
  - intros ok. unfold warn, print, lift. quiet.
Qed.

Lemma validate_packages_quiet data filename :
  Forall no_banner (validate_packages data filename).1.
Proof. unfold validate_packages, error, print, lift. quiet. Qed.

Lemma validate_yaml_quiet parse p c validator s :
  (∀ data filename, Forall no_banner (validator data filename).1) →
  Forall no_banner (validate_yaml parse (p / c) validator s).2.1.
Proof.
  intros Hv.
  cbv [validate_yaml mbind cmd_bind mret cmd_ret say read_yaml ret log error
       print].
  rewrite name_div.
  destruct (load parse s (p / c)) as [[msg | [v | l | data]] |]; cbn;
    try (apply Forall_cons_2; [apply (no_banner_validating (c +:+ "...")) |];
         apply Forall_cons_2; [apply no_banner_error | apply Forall_nil_2]).
  specialize (Hv data c).
  destruct (validator data c) as [out [[|] | e]]; cbn in *;
    (apply Forall_cons_2; [apply (no_banner_validating (c +:+ "...")) |]);
    rewrite ?app_nil_r; try done.
  apply Forall_app. split; [done|].
  apply Forall_cons_2; [apply no_banner_ok | apply Forall_nil_2].
Qed.

Lemma validate_packages_without_tag data filename :
  dict_get "image_tag" data = None →
  (validate_packages data filename).2 = Return false.
Proof.
  intros H. unfold validate_packages, field_ok at 2. rewrite H.
  by destruct (field_ok data "image_name").
Qed.

Lemma load_write parse s p f q :
  p ≠ q → load parse (write p f s).1 q = load parse s q.
Proof. intros H. unfold load, write. cbn. by rewrite lookup_insert_ne. Qed.

Lemma no_banner_not_in out :
  Forall no_banner out → (merge_banner ∉ out) ∧ (env_banner ∉ out).
Proof.
  rewrite Forall_forall. intros H.
  split; intros Hin; apply H in Hin as [? ?]; done.
Qed.

Ltac solve_quiet :=
  repeat first
    [ assumption
    | apply Forall_nil_2
    | apply Forall_app; split
    | apply Forall_cons_2
    | apply no_banner_error
    | apply no_banner_ok
    | apply (no_banner_validating "Docker configuration...")
    | apply (no_banner_validating "package configuration...")
    | apply (no_banner_creating _) ].

(** C6: a packages-default document without [image_tag] halts the run.
    The packages validator returns fail on it; [main] then ends with exit
    status 1, by returning 1, unless validating a compose file raised
    before the packages were looked at; the run prints neither the first
    line of the merge nor that of the emission stage, and it leaves
    [packages.yml] and [.env] as they were. *)
Theorem missing_image_tag_halts parse repr h dir suffix s data :
  let docker_dir := (dir / "docker")%path in
  load parse s (docker_dir / "packages.default.yml")
  = Some (Loaded (VDict data)) →
  dict_get "image_tag" data = None →
  (validate_packages data "packages.default.yml").2 = Return false ∧
  ∃ s' out r,
    main parse repr h dir suffix s = (s', (out, r)) ∧
    exit_status r = 1 ∧
    (r = Return 1 ∨
     ∃ e, r = Raise e ∧
       ((validate_yaml parse (docker_dir / "docker-compose.default.yml")
           validate_compose s).2.2 = Raise e ∨
        (validate_yaml parse (docker_dir / "docker-compose.custom.yml")
           validate_compose_custom s).2.2 = Raise e)) ∧
    ((merge_banner ∉ out) ∧ (env_banner ∉ out)) ∧
    files s' !! (docker_dir / "packages.yml")%path
    = files s !! (docker_dir / "packages.yml")%path ∧
    files s' !! (docker_dir / ".env")%path
    = files s !! (docker_dir / ".env")%path.
Proof.
  intros docker_dir Hload Htag.
  split; [by apply validate_packages_without_tag|].
  assert (∀ s1, load parse s1 (docker_dir / "packages.default.yml")
                = Some (Loaded (VDict data)) →
          (validate_yaml parse (docker_dir / "packages.default.yml")
             validate_packages s1).2.2 = Return false) as Hpk.
  { intros s1 H1. eapply validate_yaml_fails; [done|].
    by apply validate_packages_without_tag. }
  unfold main. cbv zeta. fold docker_dir.
  cbv [mbind cmd_bind mret cmd_ret say is_dir path_exists ret log error print].
  destruct (bool_decide (docker_dir ∈ dirs s)); cbn [negb].
  2:{ eexists _, _, _. split; [done|]. cbn.
      repeat split; try done; [by left | |];
        apply no_banner_not_in; solve_quiet. }
  pose proof (validate_host_quiet h) as Hq0.
  destruct (validate_host_returns h) as (out & ok & E).
  rewrite E in Hq0 |- *. cbn [fst] in Hq0.
  pose proof (validate_yaml_fs parse (docker_dir / "docker-compose.default.yml")
                validate_compose s) as Hfs1.
  pose proof (validate_yaml_quiet parse docker_dir "docker-compose.default.yml"
                validate_compose s validate_compose_quiet) as Hq1.
  destruct (validate_yaml parse (docker_dir / "docker-compose.default.yml")
              validate_compose s) as [s1 [out1 [[|] | e]]];
    cbn in Hfs1, Hq1; subst s1; cbn [negb]; cbv beta iota.
  2:{ eexists _, _, _. split; [done|]. cbn.
      repeat split; try done; [by left | |];
        apply no_banner_not_in; solve_quiet. }
  2:{ eexists _, _, _. split; [done|]. cbn.
      repeat split; try done; [by eauto 10 | |];
        apply no_banner_not_in; solve_quiet. }
  destruct (bool_decide (is_Some (files s !! _))); cbv beta iota.
  - pose proof (validate_yaml_fs parse
                  (docker_dir / "docker-compose.custom.yml")
                  validate_compose_custom s) as Hfs2.
    pose proof (validate_yaml_quiet parse docker_dir
                  "docker-compose.custom.yml" validate_compose_custom s
                  validate_compose_custom_quiet) as Hq2.
    destruct (validate_yaml parse (docker_dir / "docker-compose.custom.yml")
                validate_compose_custom s) as [s2 [out2 [[|] | e]]];
      cbn in Hfs2, Hq2; subst s2; cbn [negb]; cbv beta iota.
    2:{ eexists _, _, _. split; [done|]. cbn.
        repeat split; try done; [by left | |];
          apply no_banner_not_in; solve_quiet. }
    2:{ eexists _, _, _. split; [done|]. cbn.
        repeat split; try done; [by eauto 10 | |];
          apply no_banner_not_in; solve_quiet. }
    pose proof (validate_yaml_fs parse (docker_dir / "packages.default.yml")
                  validate_packages s) as Hfs3.
    pose proof (validate_yaml_quiet parse docker_dir "packages.default.yml"
                  validate_packages s validate_packages_quiet) as Hq3.
    specialize (Hpk s Hload).
    destruct (validate_yaml parse (docker_dir / "packages.default.yml")
                validate_packages s) as [s3 [out3 r3]].
    cbn in Hfs3, Hpk, Hq3. subst s3 r3. cbn [negb].
    eexists _, _, _. split; [reflexivity|]. cbn.
    repeat split; try done; [by left | |];
      apply no_banner_not_in; solve_quiet.
  - unfold create_compose_custom.
    cbv [mbind cmd_bind mret cmd_ret say ret log print].
    cbn [write ret negb]. cbv beta iota.
    set (s1 := {| dirs := dirs s; files := _ |}).
    assert (load parse s1 (docker_dir / "packages.default.yml")
            = Some (Loaded (VDict data))) as Hload1.
    { rewrite <- Hload. apply load_write. intros H%div_inj. discriminate H. }
    pose proof (validate_yaml_fs parse (docker_dir / "packages.default.yml")
                  validate_packages s1) as Hfs3.
    pose proof (validate_yaml_quiet parse docker_dir "packages.default.yml"
                  validate_packages s1 validate_packages_quiet) as Hq3.
    specialize (Hpk s1 Hload1).
    destruct (validate_yaml parse (docker_dir / "packages.default.yml")
                validate_packages s1) as [s3 [out3 r3]].
    cbn in Hfs3, Hpk, Hq3. subst s3 r3. cbn [negb].
    eexists _, _, _. split; [reflexivity|]. cbn.
    split; [done|]. split; [by left|].
    split; [split; apply no_banner_not_in; solve_quiet |].
    split; apply lookup_insert_ne; intros H%div_inj; discriminate H.
Qed.

Lemma missing_image_tag_halts_witness :
  (validate_packages packages_no_tag "packages.default.yml").2 = Return false ∧
  ∃ s' out r,
    main no_parse no_repr alice_no_docker devcontainer_dir ""
         (default_files (VDict packages_no_tag)) = (s', (out, r)) ∧
    exit_status r = 1 ∧
    (r = Return 1 ∨
     ∃ e, r = Raise e ∧
       ((validate_yaml no_parse (docker_dir / "docker-compose.default.yml")
           validate_compose (default_files (VDict packages_no_tag))).2.2
        = Raise e ∨
        (validate_yaml no_parse (docker_dir / "docker-compose.custom.yml")
           validate_compose_custom (default_files (VDict packages_no_tag))).2.2
        = Raise e)) ∧
    ((merge_banner ∉ out) ∧ (env_banner ∉ out)) ∧
    files s' !! packages_merged_path
    = files (default_files (VDict packages_no_tag)) !! packages_merged_path ∧
    files s' !! env_path
    = files (default_files (VDict packages_no_tag)) !! env_path.
Proof.
  apply (missing_image_tag_halts no_parse no_repr alice_no_docker
           devcontainer_dir "" (default_files (VDict packages_no_tag))
           packages_no_tag).
  - vm_compute. reflexivity.
  - reflexivity.
Defined.

(** C1 fails on the code: [main] calls [validate_host] and drops its
    verdict. On a host where Docker is not installed, or is installed with
    its daemon stopped, and with a valid [docker] directory, the host
    validator reports the failure and returns [False], and [main] goes on
    to write [packages.yml] and [.env] and returns 0. *)
Theorem main_returns_0_without_docker parse repr :
  let s := docker_files (packages_of [VStr "a"; VStr "b"]) in
  let absent := main parse repr alice_no_docker devcontainer_dir "" s in
  let stopped := main parse repr alice_docker_stopped devcontainer_dir "" s in
  (docker_available (get_system_info alice_no_docker) = false ∧
   (validate_host alice_no_docker).2 = Return false ∧
   error_line "Docker not found" ∈ absent.2.1 ∧
   absent.2.2 = Return 0 ∧
   files absent.1 !! packages_merged_path
   = Some (Yaml (Loaded (packages_of [VStr "a"; VStr "b"; VStr "c"]))) ∧
   is_Some (files absent.1 !! env_path)) ∧
  (docker_running (get_system_info alice_docker_stopped) = false ∧
   (validate_host alice_docker_stopped).2 = Return false ∧
   error_line "Docker daemon not running" ∈ stopped.2.1 ∧
   stopped.2.2 = Return 0 ∧
   files stopped.1 !! packages_merged_path
   = Some (Yaml (Loaded (packages_of [VStr "a"; VStr "b"; VStr "c"]))) ∧
   is_Some (files stopped.1 !! env_path)).
Proof.
  cbv zeta. split.
  - split; [done|]. split; [by vm_compute|].
    split; [| split; [| split]].
    + vm_compute. solve_elem.
    + by vm_compute.
    + by vm_compute.
    + vm_compute. by eexists.
  - split; [done|]. split; [by vm_compute|].
    split; [| split; [| split]].
    + vm_compute. solve_elem.
    + by vm_compute.
    + by vm_compute.
    + vm_compute. by eexists.
Qed.

(** Whatever the Docker probes of the host say, [main] ends the same way
    and leaves the same files. *)
Lemma main_ignores_docker_probes parse repr h dir suffix s which version info :
  let h' := {| environ := environ h; windows := windows h;
               getuid := getuid h; getgid := getgid h; home := home h;
               git_toplevel := git_toplevel h; var_free := var_free h;
               mem_total := mem_total h; mem_available := mem_available h;
               which_docker := which; docker_version_stdout := version;
               docker_info_ok := info;
               yama_ptrace_scope := yama_ptrace_scope h |} in
  (main parse repr h' dir suffix s).1 = (main parse repr h dir suffix s).1 ∧
  (main parse repr h' dir suffix s).2.2 = (main parse repr h dir suffix s).2.2.
Proof.
  intros h'. unfold main. cbv zeta.
  change (generate_env parse repr h') with (generate_env parse repr h).
  change (home h') with (home h).
  cbv [mbind cmd_bind mret cmd_ret say is_dir ret].
  destruct (bool_decide _); cbn [negb]; cbv beta iota; [| done].
  destruct (validate_host_returns h) as (out & ok & ->).
  destruct (validate_host_returns h') as (out' & ok' & ->).
  cbv beta iota.
  match goal with
  | |- (let (_, _) := (let (_, _) := ?rest in _) in _).1 = _ ∧ _ =>
      destruct rest as [s2 [o r]]
  end.
  done.
Qed.

(** Nothing in [main] catches what a validator raises: with [base: 5] in
    [packages.default.yml] the run ends in [AttributeError]. *)
Lemma main_raises_on_scalar_base parse repr :
  (main parse repr alice_no_docker devcontainer_dir ""
        (docker_files (VDict packages_scalar_base))).2.2
  = Raise AttributeError.
Proof. by vm_compute. Qed.

(** C7 fails on the code: an unknown top-level key that is not a string.
    The packages-custom validator collects the unknown keys, then sorts
    and joins them for its warning, and both take strings. With [7: x] in
    [packages.custom.yml], alone or next to [foo: 1], the validator ends
    with [TypeError] and has printed no warning; nothing in [main] catches
    it, so the run ends with the exception and [packages.yml] is not
    written. With [foo: 1] alone the validator passes with its warning. *)
Theorem unknown_key_not_a_string_raises parse repr (filename : string) :
  validate_packages_custom packages_custom_int_key filename
  = ([], Raise TypeError) ∧
  validate_packages_custom [(SInt 7, VStr "x")] filename
  = ([], Raise TypeError) ∧
  validate_packages_custom [(SStr "foo", VInt 1)] filename
  = ([warn_line (filename +:+ ": Unknown sections: foo")], Return true) ∧
  let run :=
    main parse repr (alice true (Some "Docker version 27.3.1") true)
      devcontainer_dir ""
      (Samples.docker_files_with (packages_of [VStr "a"])
         (VDict packages_custom_int_key)) in
  run.2.2 = Raise TypeError ∧
  files run.1 !! packages_merged_path = None.
Proof.
  split; [reflexivity|]. split; [reflexivity|]. split; [reflexivity|].
  cbv zeta. split; by vm_compute.
Qed.

End MainSpec.

(** ** The environment file of [initialize.py] *)

Module EnvSpec.
Import Py PyFacts Initialize Examples.

Ltac find_in :=
  solve [ apply list_elem_of_here
        | apply list_elem_of_further; find_in
        | apply elem_of_app; left; find_in
        | apply elem_of_app; right; find_in ].

Lemma proxy_line_elem h v l :
  l ∈ proxy_line h v → ∃ val, l = v +:+ "=" +:+ val.
Proof.
  unfold proxy_line. destruct (environ h !! v) as [val |].
  - destruct (String.eqb val ""); [by intros ?%elem_of_nil|].
    intros ->%list_elem_of_singleton. by exists val.
  - by intros ?%elem_of_nil.
Qed.

Lemma proxy_lines_elem h l :
  l ∈ proxy_lines h →
  ∃ v val,
    v ∈ ["http_proxy"; "HTTP_PROXY"; "https_proxy"; "HTTPS_PROXY";
         "all_proxy"; "ALL_PROXY"; "no_proxy"; "NO_PROXY"] ∧
    l = v +:+ "=" +:+ val.
Proof.
  unfold proxy_lines. intros H%list_elem_of_In.
  apply in_flat_map in H as (var & Hvar & H).
  apply in_flat_map in H as (v & Hv & H%list_elem_of_In).
  apply proxy_line_elem in H as [val ->]. exists v, val. split; [| done].
  unfold proxy_vars in Hvar. cbn [In] in Hvar, Hv.
  destruct Hvar as [<- | [<- | [<- | [<- | []]]]];
    destruct Hv as [<- | [<- | []]]; vm_compute; solve_elem.
Qed.


(** The service lines are among the lines written. *)
Lemma service_lines repr h packages suffix :
  let lines := generate_env_lines repr h packages suffix in
  "SERVICE_PREPARE=" +:+ username h +:+ "-devcontainer-prepare"
    +:+ suffix_part suffix ∈ lines ∧
  "SERVICE_MAIN=" +:+ username h +:+ "-devcontainer"
    +:+ suffix_part suffix ∈ lines.
Proof.
  unfold generate_env_lines. destruct (get_uid_gid h) as [uid gid].
  destruct (image_config packages) as [image_name image_tag].
  destruct (get_git_root h); split; find_in.
Qed.

(** No other line starts with the key of a service line. *)
Lemma service_line_unique repr h packages suffix l :
  l ∈ generate_env_lines repr h packages suffix →
  (String.prefix "SERVICE_PREPARE=" l = true →
   l = "SERVICE_PREPARE=" +:+ username h +:+ "-devcontainer-prepare"
       +:+ suffix_part suffix) ∧
  (String.prefix "SERVICE_MAIN=" l = true →
   l = "SERVICE_MAIN=" +:+ username h +:+ "-devcontainer"
       +:+ suffix_part suffix).
Proof.
  unfold generate_env_lines.
  assert (∀ l, l ∈ match proxy_lines h with
                   | [] => proxy_lines h
                   | _ => proxy_lines h ++ [""]
                   end → l ∈ proxy_lines h ∨ l = "") as Hproxy.
  { intros l'. destruct (proxy_lines h); [by left|].
    rewrite elem_of_app, list_elem_of_singleton. tauto. }
  revert Hproxy. generalize (match proxy_lines h with
                             | [] => proxy_lines h
                             | _ => proxy_lines h ++ [""]
                             end) as head.
  intros head Hproxy.
  destruct (get_uid_gid h) as [uid gid].
  destruct (image_config packages) as [image_name image_tag].
  generalize (username h) (suffix_part suffix) (str_of_Z uid) (str_of_Z gid)
             (str repr image_name) (str repr image_tag) (path_str (home h))
             (default "/bin/bash" (environ h !! "SHELL")).
  intros u sp suid sgid name tag hm sh H.
  assert (l ∈ proxy_lines h ∨ l = "" ∨
          l ∈ [ "SHELL=" +:+ sh; "USER=" +:+ u; "USER_UID=" +:+ suid;
                "USER_GID=" +:+ sgid; "IMAGE_NAME=" +:+ name;
                "IMAGE_TAG=" +:+ tag; "BUILD_TARGET=devenv";
                "SERVICE_PREPARE=" +:+ u +:+ "-devcontainer-prepare" +:+ sp;
                "SERVICE_MAIN=" +:+ u +:+ "-devcontainer" +:+ sp;
                "VOLUME_LOCAL_SHARE=" +:+ u +:+ "-devcontainer-local-share"
                  +:+ sp;
                "VOLUME_CONFIG=" +:+ u +:+ "-devcontainer-config" +:+ sp;
                "VOLUME_CACHE=" +:+ u +:+ "-devcontainer-cache" +:+ sp;
                "VOLUME_VSCODE_EXT=" +:+ u +:+ "-vscode-extensions" +:+ sp;
                "VOLUME_VSCODE_EXT_INSIDERS=" +:+ u
                  +:+ "-vscode-extensions-insiders" +:+ sp;
                "HOME=" +:+ hm ] ∨
          ∃ root, l = "GIT_REPO_ROOT=" +:+ root) as Hcases.
  { destruct (get_git_root h) as [root |];
      repeat (apply elem_of_app in H as [H | H]);
      try (apply Hproxy in H as [H | H]; by auto);
      repeat (apply elem_of_cons in H as [-> | H]; [by auto 20 using
        list_elem_of_here, list_elem_of_further |]);
      try (by apply elem_of_nil in H).
    apply list_elem_of_singleton in H as ->. eauto 10. }
  clear H Hproxy head.
  destruct Hcases as [H | [-> | [H | [root ->]]]].
  - apply proxy_lines_elem in H as (v & val & Hv & ->).
    repeat (apply elem_of_cons in Hv as [-> | Hv];
            [split; intros Hp; vm_compute in Hp; discriminate Hp |]).
    by apply elem_of_nil in Hv.
  - split; intros Hp; vm_compute in Hp; discriminate Hp.
  - repeat (apply elem_of_cons in H as [-> | H];
            [split; intros Hp;
             first [reflexivity | vm_compute in Hp; discriminate Hp] |]).
    by apply elem_of_nil in H.
  - split; intros Hp; vm_compute in Hp; discriminate Hp.
Qed.

Lemma username_USER h user : environ h !! "USER" = Some user → username h = user.
Proof. intros H. unfold username. by rewrite H. Qed.



(** C9: the service names are determined by the user name and the suffix.
    An empty suffix adds nothing and any other suffix is added after a
    single hyphen; the two service lines are written with the user name
    and that part, and no other line carries their keys; for [USER=alice]
    they are the lines of the specification, without a suffix and with the
    suffix [dev]. *)
Theorem service_names repr h packages :
  suffix_part "" = "" ∧
  (∀ suffix, suffix ≠ "" → suffix_part suffix = "-" +:+ suffix) ∧
  (∀ suffix,
     let lines := generate_env_lines repr h packages suffix in
     "SERVICE_PREPARE=" +:+ username h +:+ "-devcontainer-prepare"
       +:+ suffix_part suffix ∈ lines ∧
     "SERVICE_MAIN=" +:+ username h +:+ "-devcontainer"
       +:+ suffix_part suffix ∈ lines ∧
     ∀ l, l ∈ lines →
       (String.prefix "SERVICE_PREPARE=" l = true →
        l = "SERVICE_PREPARE=" +:+ username h +:+ "-devcontainer-prepare"
            +:+ suffix_part suffix) ∧
       (String.prefix "SERVICE_MAIN=" l = true →
        l = "SERVICE_MAIN=" +:+ username h +:+ "-devcontainer"
            +:+ suffix_part suffix)) ∧
  (environ h !! "USER" = Some "alice" →
   "SERVICE_PREPARE=alice-devcontainer-prepare"
     ∈ generate_env_lines repr h packages "" ∧
   "SERVICE_MAIN=alice-devcontainer"
     ∈ generate_env_lines repr h packages "" ∧
   "SERVICE_PREPARE=alice-devcontainer-prepare-dev"
     ∈ generate_env_lines repr h packages "dev" ∧
   "SERVICE_MAIN=alice-devcontainer-dev"
     ∈ generate_env_lines repr h packages "dev").
Proof.
  split; [done|]. split.
  { intros suffix Hne. unfold suffix_part.
    destruct (String.eqb_spec suffix ""); done. }
  split.
  - intros suffix lines.
    destruct (service_lines repr h packages suffix) as [H1 H2].
    split; [done | split; [done |]]. intros l. apply service_line_unique.
  - intros Huser%username_USER.
    destruct (service_lines repr h packages "") as [H1 H2].
    destruct (service_lines repr h packages "dev") as [H3 H4].
    rewrite Huser in H1, H2, H3, H4. done.
Qed.

Lemma service_names_witness :
  "SERVICE_PREPARE=alice-devcontainer-prepare"
    ∈ generate_env_lines no_repr alice_no_docker None "" ∧
  "SERVICE_MAIN=alice-devcontainer"
    ∈ generate_env_lines no_repr alice_no_docker None "" ∧
  "SERVICE_PREPARE=alice-devcontainer-prepare-dev"
    ∈ generate_env_lines no_repr alice_no_docker None "dev" ∧
  "SERVICE_MAIN=alice-devcontainer-dev"
    ∈ generate_env_lines no_repr alice_no_docker None "dev".
Proof.
  apply (proj2 (proj2 (proj2 (service_names no_repr alice_no_docker None)))).
  reflexivity.
Defined.

End EnvSpec.

(** ** [post_start.py] *)

Module PostStartSpec.
Import Py PyFacts PostStart.

Lemma source_line_mentions_profile content :
  substring_of ".vscode_profile" (content +:+ source_line) = true.
Proof. apply substring_of_app_r. by vm_compute. Qed.

(** C10: enabling the profile is idempotent. When [.bashrc] already
    mentions [.vscode_profile] it is left as it is; otherwise the source
    line is appended once, to the empty text when there was no file; and a
    second run leaves what the first run wrote. *)
Theorem enable_vscode_profile_idempotent (bashrc : option string) :
  let content := default "" bashrc in
  (enable_vscode_profile bashrc).1
  = (if substring_of ".vscode_profile" content then bashrc
     else Some (content +:+ source_line)) ∧
  (enable_vscode_profile (enable_vscode_profile bashrc).1).1
  = (enable_vscode_profile bashrc).1.
Proof.
  cbn zeta. unfold enable_vscode_profile at 1 3 4.
  destruct (substring_of ".vscode_profile" (default "" bashrc)) eqn:E;
    cbn [fst].
  - split; [done|]. unfold enable_vscode_profile. by rewrite E.
  - split; [done|]. unfold enable_vscode_profile. cbn [from_option id].
    by rewrite source_line_mentions_profile.
Qed.

End PostStartSpec.

(** ** The host verdict *)

Module HostSpec.
Import Py PyFacts Initialize.

Lemma log_line_not_error msg success msg' :
  log_line msg success ≠ error_line msg'.
Proof. intros H. destruct success; cbv in H; discriminate H. Qed.

Lemma warn_line_not_error msg msg' : warn_line msg ≠ error_line msg'.
Proof. intros H. cbv in H; discriminate H. Qed.

Lemma elem_of_lines (l x : string) (out : list string) :
  l ∈ x :: out ↔ l = x ∨ l ∈ out.
Proof. apply elem_of_cons. Qed.

(** What [validate_host] does with the information it has gathered. *)
Lemma report_verdict (info : SystemInfo) :
  let ok := negb (bool_decide (ptrace_scope info = Some 3))
            && docker_available info && docker_running info in
  ∃ out, Probes.report info = (out, Return ok) ∧
         (ok = false ↔ ∃ msg, error_line msg ∈ out).
Proof.
  intros ok. subst ok. unfold Probes.report.
  destruct info as [pt disk mt ma da dr dv gr].
  cbn [ptrace_scope disk_available_gb memory_total_gb memory_available_gb
       docker_available docker_running docker_version git_repo_root].
  assert (∀ out : list string,
            (∀ l, l ∈ out → ∃ msg b, l = log_line msg b ∨ l = warn_line msg) →
            true = false ↔ ∃ msg, error_line msg ∈ out) as Hpass.
  { intros out Hout. split; [done|]. intros [msg Hin].
    destruct (Hout _ Hin) as (m & b & [E | E]).
    - symmetry in E. by apply log_line_not_error in E.
    - symmetry in E. by apply warn_line_not_error in E. }
  assert (∀ (out : list string) msg,
            error_line msg ∈ out →
            false = false ↔ ∃ msg, error_line msg ∈ out) as Hfail.
  { intros out msg Hin. split; [by exists msg | done]. }
  destruct pt as [scope |];
    [destruct (scope =? 0) eqn:E0; [| destruct (scope =? 3) eqn:E3] |];
    try (apply Z.eqb_eq in E0 as ->); try (apply Z.eqb_eq in E3 as ->);
    try apply Z.eqb_neq in E3;
    rewrite ?bool_decide_eq_true_2 by done;
    rewrite ?bool_decide_eq_false_2 by congruence;
    destruct da, dr; destruct disk as [gb |];
    try destruct (gb <? 10); destruct (ma <? 2); destruct gr;
    cbv [mbind io_bind bind mret io_ret ret log warn error print negb andb];
    cbn [app]; (eexists; split; [reflexivity |]);
    first
      [ apply Hpass; intros l Hl;
        repeat (apply elem_of_lines in Hl as [-> | Hl];
                [first [ by eexists _, true; left | by eexists _, false; left
                       | by eexists _, true; right ] |]);
        by apply elem_of_nil in Hl
      | eapply Hfail; solve_elem ].
Qed.

(** The two descriptions of the host agree: on a [host], whose calls all
    return or end with an exception that is handled, [validate_host]
    prints its banner and then reports on what [get_system_info] gives. *)
Lemma get_system_info_of_host (h : host) :
  Probes.get_system_info (Probes.probes_of h) = Probes.Got (get_system_info h).
Proof.
  destruct h as [env win uid gid hm git free mt ma which ver info pt].
  unfold Probes.get_system_info, get_system_info, Probes.get_git_root,
    get_git_root, Probes.probes_of.
  cbn [Probes.disk_usage Probes.virtual_memory Probes.which
       Probes.docker_version_run Probes.docker_info_run
       Probes.read_ptrace_scope Probes.git_rev_parse
       var_free mem_total mem_available which_docker docker_version_stdout
       docker_info_ok yama_ptrace_scope git_toplevel].
  destruct free, which, ver, info, pt, git; reflexivity.
Qed.

Lemma validate_host_of_host (h : host) :
  validate_host h
  = (log "Validating host system..." false;; Probes.report (get_system_info h)).
Proof. reflexivity. Qed.

Lemma guarded_got {A} handled (a : Probes.attempt A) :
  (∃ x, Probes.guarded handled a = Probes.Got x) ↔ Probes.contained handled a.
Proof.
  destruct a as [x | e]; cbn.
  - split; [done | by eexists].
  - case_bool_decide; split; try done; try by eexists. by intros [? ?].
Qed.

Lemma bind_got {A B} (m : Probes.attempt A) (f : A → Probes.attempt B) :
  (∃ y, m ≫= f = Probes.Got y) ↔
  ∃ x, m = Probes.Got x ∧ ∃ y, f x = Probes.Got y.
Proof.
  destruct m as [x | e]; cbn.
  - split; [intros [y H]; by exists x; split; [| exists y] |].
    intros (x' & [= <-] & H). done.
  - split; [by intros [? ?] | by intros (? & ? & _)].
Qed.

Lemma contained_nil {A} (a : Probes.attempt A) :
  Probes.contained [] a ↔ ∃ x, a = Probes.Got x.
Proof.
  destruct a as [x | e]; cbn.
  - split; [by eexists | done].
  - split; [by intros ?%elem_of_nil | by intros [? ?]].
Qed.

(** X1: the host validator. [validate_host] prints its banner and asks
    the host. The information is gathered exactly when each call returns
    or ends with an exception its guard handles: [PermissionError] or
    [FileNotFoundError] for the disk, none for the memory and the search
    for [docker], [CalledProcessError] for [docker --version] and, when
    that returns, for [docker info], both run only when [docker] was
    found, [FileNotFoundError] or [ValueError] for the ptrace scope,
    [CalledProcessError] or [FileNotFoundError] for git. Any other
    exception ends [validate_host], with the banner printed and nothing
    else. When the information is gathered, [validate_host] returns pass
    exactly when the ptrace scope is not 3 and Docker is installed and
    running (it was found, and both commands returned), whatever the disk,
    the memory and git say; and it returns fail exactly when it printed
    an error line. *)
Theorem validate_host_verdict (p : Probes.probes) :
  ((∃ info, Probes.get_system_info p = Probes.Got info) ↔
   Probes.contained [Probes.PermissionError; Probes.FileNotFoundError]
     (Probes.disk_usage p) ∧
   Probes.contained [] (Probes.virtual_memory p) ∧
   Probes.contained [] (Probes.which p) ∧
   (Probes.which p = Probes.Got true →
    Probes.contained [Probes.CalledProcessError]
      (Probes.docker_version_run p) ∧
    ((∃ version, Probes.docker_version_run p = Probes.Got version) →
     Probes.contained [Probes.CalledProcessError]
       (Probes.docker_info_run p))) ∧
   Probes.contained [Probes.FileNotFoundError; Probes.ValueError]
     (Probes.read_ptrace_scope p) ∧
   Probes.contained [Probes.CalledProcessError; Probes.FileNotFoundError]
     (Probes.git_rev_parse p)) ∧
  (∀ e, Probes.get_system_info p = Probes.Threw e →
        Probes.validate_host p = ([Probes.banner], Probes.Threw e)) ∧
  (∀ info, Probes.get_system_info p = Probes.Got info →
     ((ptrace_scope info = Some 3 ↔
       Probes.read_ptrace_scope p = Probes.Got 3) ∧
      (docker_available info = true ↔ Probes.which p = Probes.Got true) ∧
      (docker_running info = true ↔
       Probes.which p = Probes.Got true ∧
       (∃ version, Probes.docker_version_run p = Probes.Got version) ∧
       Probes.docker_info_run p = Probes.Got tt)) ∧
     let ok := negb (bool_decide (ptrace_scope info = Some 3))
               && docker_available info && docker_running info in
     ∃ out, Probes.validate_host p = (out, Probes.Got ok) ∧
            (ok = false ↔ ∃ msg, error_line msg ∈ out)).
Proof.
  split; [| split].
  - unfold Probes.get_system_info, Probes.get_git_root.
    rewrite bind_got. setoid_rewrite bind_got. setoid_rewrite bind_got.
    rewrite !contained_nil, <- !guarded_got.
    split.
    + intros (free & Hfree & mem & Hmem & w & Hw & Hrest).
      apply bind_got in Hrest as (docker & Hd & Hrest).
      apply bind_got in Hrest as (pt & Hpt & Hrest).
      apply bind_got in Hrest as (git & Hgit & _).
      split; [by eexists|]. split; [by eexists|]. split; [by eexists|].
      split; [| split; by eexists].
      intros Hwt. rewrite Hw in Hwt. injection Hwt as ->.
      destruct (Probes.docker_version_run p) as [version | e] eqn:Ev.
      * split; [by exists (Some version)|]. intros _.
        destruct (Probes.guarded _ (Probes.docker_info_run p)) eqn:Ei;
          [by eexists | done].
      * cbn. split; [| by intros [? ?]].
        case_bool_decide; [by eexists | done].
    + intros ([free Hfree] & [mem Hmem] & [w Hw] & Hdocker & [pt Hpt]
              & [git Hgit]).
      exists free. split; [done|]. exists mem. split; [done|].
      exists w. split; [done|].
      assert (∃ docker,
                (if w
                 then match Probes.docker_version_run p with
                      | Probes.Got version =>
                          running ← Probes.guarded [Probes.CalledProcessError]
                                      (Probes.docker_info_run p);
                          mret (bool_decide (is_Some running), Some version)
                      | Probes.Threw e =>
                          if bool_decide (e ∈ [Probes.CalledProcessError])
                          then mret (false, None) else Probes.Threw e
                      end
                 else mret (false, None)) = Probes.Got docker) as [docker Hd].
      { destruct w; [| by eexists]. destruct (Hdocker Hw) as [[v Hv] Hi].
        destruct (Probes.docker_version_run p) as [version | e] eqn:Ev.
        - destruct Hi as [r ->]; [by eexists|]. by eexists.
        - cbn in Hv. case_bool_decide; [by eexists | done]. }
      rewrite Hd. cbn. rewrite Hpt. cbn. rewrite Hgit. cbn. by eexists.
  - intros e He. unfold Probes.validate_host. by rewrite He.
  - intros info Hinfo. split.
    + unfold Probes.get_system_info, Probes.get_git_root in Hinfo.
      destruct (Probes.guarded _ (Probes.disk_usage p)) as [free |];
        [| done].
      destruct (Probes.virtual_memory p) as [mem |]; [| done].
      destruct (Probes.which p) as [w |] eqn:Hw; [| done].
      cbn in Hinfo.
      destruct (Probes.read_ptrace_scope p) as [scope | e] eqn:Hpt.
      * destruct (Probes.git_rev_parse p) as [root | e'] eqn:Hgit.
        all: destruct w.
        all: destruct (Probes.docker_version_run p) as [v | ev] eqn:Hv.
        all: destruct (Probes.docker_info_run p) as [[] | ei] eqn:Hi.
        all: cbn in Hinfo; repeat case_bool_decide; cbn in Hinfo;
          try discriminate Hinfo.
        all: injection Hinfo as <-; cbn.
        all: repeat split; try done; try congruence; try (by eexists);
          try (intros (? & [? ?] & ?); congruence).
      * cbn in Hinfo. case_bool_decide; [| by destruct w;
          destruct (Probes.docker_version_run p);
          destruct (Probes.docker_info_run p);
          cbn in Hinfo; repeat case_bool_decide].
        destruct (Probes.git_rev_parse p) as [root | e'] eqn:Hgit.
        all: destruct w.
        all: destruct (Probes.docker_version_run p) as [v | ev] eqn:Hv.
        all: destruct (Probes.docker_info_run p) as [[] | ei] eqn:Hi.
        all: cbn in Hinfo; repeat case_bool_decide; cbn in Hinfo;
          try discriminate Hinfo.
        all: injection Hinfo as <-; cbn.
        all: repeat split; try done; try congruence; try (by eexists);
          try (intros (? & [? ?] & ?); congruence).
    + intros ok. subst ok. unfold Probes.validate_host. rewrite Hinfo.
      destruct (report_verdict info) as (out & -> & Hout).
      eexists. split; [reflexivity|].
      rewrite Hout. split; intros [msg Hin]; exists msg.
      * by apply elem_of_cons; right.
      * apply elem_of_cons in Hin as [E | Hin]; [| done].
        symmetry in E. by apply log_line_not_error in E.
Qed.

(** Docker is found on the path and cannot be executed: the exception
    leaves [validate_host]. *)
Lemma validate_host_docker_not_executable :
  Probes.validate_host Probes.docker_not_executable
  = ([Probes.banner], Probes.Threw Probes.PermissionError).
Proof. reflexivity. Qed.

End HostSpec.

(** ** The verdicts of the validators *)

Module VerdictSpec.
Import Py PyFacts Initialize Examples.

Lemma field_ok_str data field :
  field_ok data field = true ↔ ∃ s, dict_get field data = Some (VStr s).
Proof.
  unfold field_ok. destruct (dict_get field data) as [[[| b | z | s] | l | d] |];
    cbn; split; try done; try (by intros [? ?]). by eexists.
Qed.

(** X2: the verdict of the packages validator. On a mapping whose [base]
    is absent or a mapping, [validate_packages] does not raise; it passes
    exactly when [image_name] and [image_tag] are strings and
    [base.packages] is a sequence; it prints nothing when it passes and
    one error line when it fails, which names the first field at fault:
    [image_name] if that is not a string, else [image_tag] if that is not
    a string, else [base.packages]. *)
Theorem validate_packages_verdict (data : dict) (filename : string) :
  (dict_get "base" data = None ∨ ∃ b, dict_get "base" data = Some (VDict b)) →
  ∃ out ok,
    validate_packages data filename = (out, Return ok) ∧
    (ok = true ↔
     (∃ s, dict_get "image_name" data = Some (VStr s)) ∧
     (∃ s, dict_get "image_tag" data = Some (VStr s)) ∧
     (∃ b l, dict_get "base" data = Some (VDict b) ∧
             dict_get "packages" b = Some (VList l))) ∧
    (ok = true → out = []) ∧
    (ok = false →
     ∃ field,
       out = [error_line (filename +:+ ": Missing or invalid '" +:+ field
                          +:+ "'")] ∧
       (field = "image_name" ∧
        ¬ (∃ s, dict_get "image_name" data = Some (VStr s))
        ∨
        field = "image_tag" ∧
        (∃ s, dict_get "image_name" data = Some (VStr s)) ∧
        ¬ (∃ s, dict_get "image_tag" data = Some (VStr s))
        ∨
        field = "base.packages" ∧
        (∃ s, dict_get "image_name" data = Some (VStr s)) ∧
        (∃ s, dict_get "image_tag" data = Some (VStr s)) ∧
        ¬ (∃ b l, dict_get "base" data = Some (VDict b) ∧
                  dict_get "packages" b = Some (VList l)))).
Proof.
  intros Hbase. unfold validate_packages.
  pose proof (field_ok_str data "image_name") as Hn.
  pose proof (field_ok_str data "image_tag") as Ht.
  destruct (field_ok data "image_name"); cbn [negb].
  2:{ eexists _, false. split; [done|]. split; [| split; [done|]].
      - split; [done|]. intros (H & _). by apply Hn in H.
      - intros _. exists "image_name". split; [done|]. left.
        split; [done|]. intros H. by apply Hn in H. }
  destruct (field_ok data "image_tag"); cbn [negb].
  2:{ eexists _, false. split; [done|]. split; [| split; [done|]].
      - split; [done|]. intros (_ & H & _). by apply Ht in H.
      - intros _. exists "image_tag". split; [done|]. right. left.
        split; [done|]. split; [by apply Hn|]. intros H. by apply Ht in H. }
  assert (∃ s, dict_get "image_name" data = Some (VStr s)) as Hname
      by by apply Hn.
  assert (∃ s, dict_get "image_tag" data = Some (VStr s)) as Htag
      by by apply Ht.
  unfold dict_has. destruct Hbase as [Hb | [b Hb]]; rewrite Hb.
  - eexists _, false. split; [done|]. split; [| split; [done|]].
    + split; [done|]. by intros (_ & _ & ? & ? & ? & _).
    + intros _. exists "base.packages". split; [done|]. right. right.
      split; [done|]. split; [done|]. split; [done|].
      by intros (? & ? & ? & _).
  - cbn [negb from_option id lift get].
    destruct (dict_get "packages" b) as [[c | l | d] |] eqn:Hp.
    all: cbv [mbind io_bind bind mret io_ret ret lift isinstance_list negb
              error print]; cbn [app].
    all: eexists _, _; (split; [reflexivity|]).
    all: split; [| split; [try done |]].
    all: try (split; [done|]; intros (_ & _ & b' & l' & [= <-] & Hl); congruence).
    all: try (intros _; exists "base.packages"; split; [done|]; right; right;
              split; [done|]; split; [done|]; split; [done|];
              intros (b' & l' & [= <-] & Hl); congruence).
    + split; [| done]. intros _. split; [done|]. split; [done|].
      by exists b, l.
    + done.
Qed.

Lemma validate_packages_verdict_witness :
  ∃ ok,
    validate_packages packages_no_tag "packages.default.yml"
    = ([error_line ("packages.default.yml"
                    +:+ ": Missing or invalid '" +:+ "image_tag" +:+ "'")],
       Return ok) ∧
    ok = false.
Proof.
  destruct (validate_packages_verdict packages_no_tag "packages.default.yml")
    as (out & ok & E & Hok & _ & Hfail).
  { right. eexists. reflexivity. }
  exists ok.
  assert (ok = false) as ->.
  { destruct ok; [| reflexivity].
    destruct Hok as [Hok _]. destruct (Hok eq_refl) as (_ & [s Hs] & _).
    vm_compute in Hs. discriminate Hs. }
  split; [| reflexivity].
  destruct (Hfail eq_refl)
    as (field & -> & [[-> _] | [[-> _] | (-> & _ & [s Hs] & _)]]).
  - vm_compute in E. discriminate E.
  - exact E.
  - vm_compute in Hs. discriminate Hs.
Defined.

End VerdictSpec.

(** ** The keys of the custom compose file *)

Module CustomKeysSpec.
Import Py PyFacts Initialize Samples.

Lemma key_dict_has k (d : dict) : SStr k ∈ map fst d ↔ dict_has k d = true.
Proof.
  split; [| apply ValidatorSpec.dict_has_key].
  rewrite dict_has_get. induction d as [| [c v] d IH]; simpl.
  - by intros ?%elem_of_nil.
  - intros [<- | Hin]%elem_of_cons.
    + by rewrite is_str_key_refl.
    + destruct (is_str_key k c); [done | by apply IH].
Qed.

Lemma allowed_existsb k allowed :
  existsb (λ a, is_str_key a (SStr k)) allowed = false ↔ k ∉ allowed.
Proof.
  split; [| apply ValidatorSpec.not_allowed].
  intros H Hin. apply not_true_iff_false in H. apply H.
  apply existsb_exists. exists k. split; [by apply list_elem_of_In|].
  apply is_str_key_refl.
Qed.

Lemma strs_of_fmap ks :
  Forall (λ c, ∃ s, c = SStr s) ks → SStr <$> strs_of ks = ks.
Proof.
  induction 1 as [| c ks [s ->] _ IH]; [done|]. cbn. by f_equal.
Qed.

Lemma NoDup_list_filter {A} (f : A → bool) (l : list A) :
  NoDup l → NoDup (List.filter f l).
Proof.
  induction 1 as [| x l Hx Hl IH]; simpl; [constructor|].
  destruct (f x); [| done]. constructor; [| done].
  rewrite list_elem_of_In, filter_In, <- list_elem_of_In. tauto.
Qed.

Lemma elem_of_strs_of k ks : k ∈ strs_of ks ↔ SStr k ∈ ks.
Proof.
  unfold strs_of. rewrite list_elem_of_omap. split.
  - intros ([| b | z | s] & Hin & [=]). by subst.
  - intros H. by exists (SStr k).
Qed.

(** X3: the warning of the compose-custom validator. When
    [services.devcontainer] is a mapping with string keys,
    [validate_compose_custom] passes; it prints nothing when every key is
    one of the six allowed ones, and otherwise one warning that lists the
    keys that are not allowed, and only those, each once, in sorted
    order. *)
Theorem validate_compose_custom_verdict (data : dict) (filename : string)
    (services dev : dict) :
  dict_get "services" data = Some (VDict services) →
  dict_get "devcontainer" services = Some (VDict dev) →
  str_keys dev = true →
  ∃ names,
    validate_compose_custom data filename
    = (match names with
       | [] => []
       | _ => [warn_line (filename +:+ ": Unknown keys: " +:+ join ", " names)]
       end, Return true) ∧
    (∀ k, k ∈ names ↔ dict_has k dev = true ∧ k ∉ compose_allowed) ∧
    NoDup names ∧
    Sorted String.le names.
Proof.
  intros Hs Hd Hkeys.
  set (unknown := set_difference (map fst dev) compose_allowed).
  assert (Forall (λ c, ∃ s, c = SStr s) unknown) as Hstr.
  { apply Forall_forall.
    intros c [Hc _]%ValidatorSpec.elem_of_set_difference.
    pose proof (ValidatorSpec.str_keys_Forall _ Hkeys) as HF.
    rewrite Forall_forall in HF. by apply HF. }
  exists (sorted (strs_of unknown)). split; [| split; [| split]].
  - unfold validate_compose_custom, validate_compose, dict_has. rewrite Hs.
    cbn [negb from_option id contains lift]. unfold dict_has. rewrite Hd.
    cbv [mbind io_bind bind mret io_ret ret lift negb getitem]. rewrite Hs, Hd.
    cbn [keys app]. fold unknown.
    destruct unknown as [| c l] eqn:E; [done|].
    rewrite (ValidatorSpec.as_strs_all _ Hstr).
    destruct (sorted (strs_of (c :: l))) as [| n ns] eqn:E'; [| done].
    exfalso. assert (strs_of (c :: l) ≡ₚ []) as HP.
    { rewrite <- E'. unfold sorted. by rewrite merge_sort_Permutation. }
    apply Permutation_nil_r in HP.
    apply Forall_cons_1 in Hstr as [[s ->] _]. discriminate HP.
  - intros k. unfold sorted. rewrite merge_sort_Permutation, elem_of_strs_of.
    unfold unknown.
    by rewrite ValidatorSpec.elem_of_set_difference, key_dict_has,
      allowed_existsb.
  - unfold sorted. rewrite merge_sort_Permutation.
    apply (NoDup_fmap_1 SStr). rewrite strs_of_fmap by done.
    unfold unknown, set_difference. apply NoDup_list_filter, NoDup_remove_dups.
  - apply Sorted_merge_sort. apply _.
Qed.

Lemma validate_compose_custom_verdict_witness :
  ∃ names,
    validate_compose_custom compose_custom_unknown "docker-compose.custom.yml"
    = (match names with
       | [] => []
       | _ => [warn_line ("docker-compose.custom.yml" +:+ ": Unknown keys: "
                          +:+ join ", " names)]
       end, Return true) ∧
    (("alpha" ∈ names) ∧ ("zeta" ∈ names) ∧ ("volumes" ∉ names)) ∧
    Sorted String.le names.
Proof.
  destruct (validate_compose_custom_verdict compose_custom_unknown
              "docker-compose.custom.yml"
              [(SStr "devcontainer",
                VDict [(SStr "volumes", VList []); (SStr "zeta", VInt 1);
                       (SStr "alpha", VInt 2)])]
              [(SStr "volumes", VList []); (SStr "zeta", VInt 1);
               (SStr "alpha", VInt 2)])
    as (names & E & Hin & _ & Hsorted); [reflexivity | reflexivity | reflexivity |].
  exists names. split; [exact E|]. split; [| exact Hsorted].
  split; [| split].
  - apply Hin. split; [reflexivity|]. compute_done.
  - apply Hin. split; [reflexivity|]. compute_done.
  - intros [_ H]%Hin. apply H. compute_done.
Defined.

End CustomKeysSpec.

(** ** Reading a configuration file *)

Module LoadSpec.
Import Py PyFacts Initialize.

Lemma bind_not_yaml {A B} (m : io A) (f : A → io B) :
  m.2 ≠ Raise YAMLError →
  (∀ a, (f a).2 ≠ Raise YAMLError) →
  (m ≫= f).2 ≠ Raise YAMLError.
Proof.
  intros Hm Hf. unfold mbind, io_bind, bind.
  destruct m as [out [a | e]]; cbn in *.
  - specialize (Hf a). by destruct (f a).
  - intros [= ->]. by apply Hm.
Qed.

Lemma contains_not_yaml k v : Py.contains k v ≠ Raise YAMLError.
Proof. by destruct v as [[| | |] | |]. Qed.

Lemma get_not_yaml v k : get v k ≠ Raise YAMLError.
Proof. by destruct v. Qed.

Lemma getitem_not_yaml v k : getitem v k ≠ Raise YAMLError.
Proof. destruct v as [| | d]; try done. cbn. by destruct (dict_get k d). Qed.

Lemma keys_not_yaml v : keys v ≠ Raise YAMLError.
Proof. by destruct v. Qed.

Lemma as_strs_not_yaml ks : as_strs ks ≠ Raise YAMLError.
Proof. unfold as_strs. by destruct (forallb _ ks). Qed.

(** The validators of the script raise no [yaml.YAMLError]: the guard of
    [validate_yaml], which in the source also encloses the call of the
    validator, has nothing of theirs to catch. *)
Lemma validators_raise_no_yaml_error (data : dict) (filename : string) :
  (validate_compose data filename).2 ≠ Raise YAMLError ∧
  (validate_compose_custom data filename).2 ≠ Raise YAMLError ∧
  (validate_packages data filename).2 ≠ Raise YAMLError ∧
  (validate_packages_custom data filename).2 ≠ Raise YAMLError.
Proof.
  assert ((validate_compose data filename).2 ≠ Raise YAMLError) as Hc.
  { unfold validate_compose. apply bind_not_yaml.
    - destruct (negb _); [done|].
      apply bind_not_yaml; [apply contains_not_yaml | done].
    - intros [|]; [by apply bind_not_yaml | done]. }
  split; [done|]. split; [| split].
  - unfold validate_compose_custom. apply bind_not_yaml; [done|].
    intros [|]; [| done]. cbn [negb].
    apply bind_not_yaml; [apply getitem_not_yaml|]. intros services.
    apply bind_not_yaml; [apply getitem_not_yaml|]. intros dev.
    apply bind_not_yaml; [apply keys_not_yaml|]. intros ks.
    apply bind_not_yaml; [| done].
    destruct (set_difference ks compose_allowed) as [| c l]; [done|].
    apply bind_not_yaml; [apply as_strs_not_yaml | done].
  - unfold validate_packages.
    destruct (negb (field_ok data "image_name"));
      [by apply bind_not_yaml|].
    destruct (negb (field_ok data "image_tag"));
      [by apply bind_not_yaml|].
    apply bind_not_yaml.
    + destruct (negb _); [done|].
      apply bind_not_yaml; [apply get_not_yaml | done].
    + intros [|]; [by apply bind_not_yaml | done].
  - unfold validate_packages_custom. apply bind_not_yaml; [| done].
    destruct (set_difference _ packages_allowed) as [| c l]; [done|].
    apply bind_not_yaml; [apply as_strs_not_yaml | done].
Qed.

End LoadSpec.

(** ** The merge, at every path of the table *)

Module MergeTable.
Import Py PyFacts Initialize Examples Samples Properties MergeSpec.

Lemma merge_field_appended merged custom sec field merged' :
  merge_field merged custom sec field = Return merged' →
  appended_at merged custom merged' sec field.
Proof.
  intros H. apply merge_field_sections in H as (_ & _ & _ & H).
  unfold appended_at. destruct (at_path custom sec field) as [src |].
  - destruct H as (xs & ys & Hxs & Hys & E). exists xs, ys.
    split; [done|]. split; [done|]. unfold at_path at 1. rewrite E.
    apply dict_get_set_eq.
  - unfold at_path. by rewrite H.
Qed.

Lemma appended_at_trans_l a b c custom sec field :
  at_path b sec field = at_path a sec field →
  appended_at b custom c sec field → appended_at a custom c sec field.
Proof. unfold appended_at. intros ->. done. Qed.

Lemma appended_at_trans_r a b c custom sec field :
  appended_at a custom b sec field →
  at_path c sec field = at_path b sec field →
  appended_at a custom c sec field.
Proof. unfold appended_at. intros H ->. done. Qed.

Lemma appended_at_refl a custom sec field :
  at_path custom sec field = None → appended_at a custom a sec field.
Proof. unfold appended_at. by intros ->. Qed.

Lemma not_contains_at_path custom sec field :
  contains sec custom = Return false → at_path custom sec field = None.
Proof.
  unfold at_path, section_items. destruct custom as [c | l | cd]; try done.
  cbn [contains items]. unfold dict_has.
  by destruct (dict_get sec cd).
Qed.

Lemma merge_section_appended merged custom s1 merged' sec field :
  merge_section merged custom s1 = Return merged' →
  field ∈ ["packages"; "python_tools"] →
  (sec = s1 → appended_at merged custom merged' sec field) ∧
  (sec ≠ s1 → at_path merged' sec field = at_path merged sec field).
Proof.
  intros H Hf.
  apply merge_section_inv in H as [[Hc ->] | (Hc & m1 & H1 & H2)].
  { split; [| done]. intros ->. apply appended_at_refl.
    by apply not_contains_at_path. }
  split.
  - intros ->. apply elem_of_two in Hf as [-> | ->].
    + eapply appended_at_trans_r; [by apply merge_field_appended|].
      eapply merge_field_elsewhere; [done | by right].
    + eapply appended_at_trans_l; [| by apply merge_field_appended].
      eapply merge_field_elsewhere; [done | by right].
  - intros Hne.
    rewrite (merge_field_elsewhere _ _ _ _ _ sec field H2) by (left; congruence).
    by rewrite (merge_field_elsewhere _ _ _ _ _ sec field H1)
      by (left; congruence).
Qed.

Lemma falsy_at_path custom sec field :
  at_path (if truthy custom then custom else VDict []) sec field
  = at_path custom sec field.
Proof.
  destruct (truthy custom) eqn:E; [done|].
  by destruct custom as [[| b | z | s] | [| x l] | [| kv cd]].
Qed.

(** On trees, the merge at the four paths of its table. When the merge
    returns, the merged document has, at each of [base.packages],
    [base.python_tools], [devenv.packages] and [devenv.python_tools]: the
    default's value where the custom document has nothing at that path,
    and otherwise the default's sequence, or the empty one if the default
    has nothing there, followed by the items of the custom value. *)
Lemma merge_documents_table (default custom merged : value)
    (section field : string) :
  (section, field) ∈ merge_spec →
  merge_documents default (Some custom) = Return merged →
  match at_path custom section field with
  | None => at_path merged section field = at_path default section field
  | Some src =>
      ∃ xs ys,
        (at_path default section field = Some (VList xs)
         ∨ at_path default section field = None ∧ xs = []) ∧
        iterate src = Return ys ∧
        at_path merged section field = Some (VList (xs ++ ys))
  end.
Proof.
  intros Hspec H.
  change (appended_at default custom merged section field).
  apply merge_documents_inv in H as (m1 & H1 & H2). cbn zeta in H1, H2.
  assert (appended_at default (if truthy custom then custom else VDict [])
            merged section field) as HA.
  { assert (field ∈ ["packages"; "python_tools"] ∧
            (section = "base" ∨ section = "devenv")) as [Hf Hs].
    { unfold merge_spec in Hspec.
      repeat (apply elem_of_cons in Hspec as [[= -> ->] | Hspec];
              [split; [solve_elem | by auto] |]).
      by apply elem_of_nil in Hspec. }
    destruct (merge_section_appended _ _ _ _ section field H1 Hf)
      as [Ha1 Hb1].
    destruct (merge_section_appended _ _ _ _ section field H2 Hf)
      as [Ha2 Hb2].
    destruct Hs as [-> | ->].
    - eapply appended_at_trans_r; [by apply Ha1 | by apply Hb2].
    - eapply appended_at_trans_l; [by apply Hb1 | by apply Ha2]. }
  unfold appended_at in *. by rewrite falsy_at_path in HA.
Qed.

(** A custom document without an entry at a path of the table changes
    nothing. *)
Lemma merge_field_absent merged custom sec field merged' :
  at_path custom sec field = None →
  merge_field merged custom sec field = Return merged' → merged' = merged.
Proof. intros Hc H%merge_field_inv. by rewrite Hc in H. Qed.

Lemma merge_section_absent merged custom sec merged' :
  (∀ field, field ∈ ["packages"; "python_tools"] →
            at_path custom sec field = None) →
  merge_section merged custom sec = Return merged' → merged' = merged.
Proof.
  intros Hc [[_ ->] | (_ & m1 & H1 & H2)]%merge_section_inv; [done|].
  apply merge_field_absent in H1 as ->; [| apply Hc; solve_elem].
  apply merge_field_absent in H2 as ->; [done | apply Hc; solve_elem].
Qed.

(** X6: a custom document that has nothing to add. When the custom
    document has no value at any path of the table, a merge that returns
    returns the default document itself, all of it and in its order; and
    the merge does return it when the custom document is empty ([None],
    [{}], or another false value) or is a mapping without [base] and
    [devenv]. *)
Theorem merge_documents_nothing_to_add (default custom : value) :
  ((∀ section field, (section, field) ∈ merge_spec →
                     at_path custom section field = None) →
   ∀ merged, merge_documents default (Some custom) = Return merged →
             merged = default) ∧
  (truthy custom = false ∨
   (∃ cd, custom = VDict cd ∧
          dict_get "base" cd = None ∧ dict_get "devenv" cd = None) →
   merge_documents default (Some custom) = Return default).
Proof.
  split.
  - intros Hc merged (m1 & H1 & H2)%merge_documents_inv. cbn zeta in H1, H2.
    apply merge_section_absent in H1 as ->.
    + apply merge_section_absent in H2 as ->; [done|].
      intros field Hf. rewrite falsy_at_path. apply Hc.
      apply elem_of_two in Hf as [-> | ->]; compute_done.
    + intros field Hf. rewrite falsy_at_path. apply Hc.
      apply elem_of_two in Hf as [-> | ->]; compute_done.
  - intros [Hfalse | (cd & -> & Hb & Hd)].
    + unfold merge_documents. by rewrite Hfalse.
    + unfold merge_documents, merge_section.
      destruct (truthy (VDict cd)); cbn [contains]; unfold dict_has;
        by rewrite ?Hb, ?Hd.
Qed.

Lemma merge_documents_nothing_to_add_witness :
  (∀ merged,
     merge_documents (packages_of [VStr "a"]) (Some custom_elsewhere)
     = Return merged → merged = packages_of [VStr "a"]) ∧
  merge_documents (packages_of [VStr "a"]) (Some VNone)
  = Return (packages_of [VStr "a"]) ∧
  merge_documents (packages_of [VStr "a"]) (Some custom_elsewhere)
  = Return (packages_of [VStr "a"]).
Proof.
  split; [| split].
  - apply (proj1 (merge_documents_nothing_to_add (packages_of [VStr "a"])
                    custom_elsewhere)).
    intros section field Hin. unfold merge_spec in Hin.
    repeat (apply elem_of_cons in Hin as [[= -> ->] | Hin]; [reflexivity |]).
    by apply elem_of_nil in Hin.
  - apply (proj2 (merge_documents_nothing_to_add (packages_of [VStr "a"])
                    VNone)).
    left. reflexivity.
  - apply (proj2 (merge_documents_nothing_to_add (packages_of [VStr "a"])
                    custom_elsewhere)).
    right. eexists. split; [reflexivity|]. split; reflexivity.
Defined.

End MergeTable.

(** ** The merge on the store, and the merge on trees *)

Module SharedSpec.
Import Py PyFacts Initialize Shared Ownership.
Local Open Scope nat_scope.

(** Induction on a document, with the hypothesis for every item. *)
Lemma value_ind' (P : value → Prop) :
  (∀ c, P (VScalar c)) →
  (∀ xs, Forall P xs → P (VList xs)) →
  (∀ kvs, Forall (λ kv, P kv.2) kvs → P (VDict kvs)) →
  ∀ v, P v.
Proof.
  intros Hs Hl Hd. fix IH 1. intros [c | xs | kvs].
  - apply Hs.
  - apply Hl. induction xs as [| x xs IHxs]; constructor; [apply IH | done].
  - apply Hd. induction kvs as [| [k x] kvs IHkvs]; constructor;
      [apply IH | done].
Qed.

(** *** Reading *)

Lemma mapM_impl {A B} (f g : A → option B) l k :
  (∀ x y, f x = Some y → g x = Some y) →
  mapM f l = Some k → mapM g l = Some k.
Proof.
  intros H. rewrite !mapM_Some. intros HF. by eapply Forall2_impl.
Qed.

Lemma mapM_pair_impl {K A B} (f g : A → option B) (l : list (K * A)%type) k :
  (∀ x y, f x = Some y → g x = Some y) →
  mapM (λ kv, pair kv.1 <$> f kv.2) l = Some k →
  mapM (λ kv, pair kv.1 <$> g kv.2) l = Some k.
Proof.
  intros H. apply mapM_impl. intros [c x] y. cbn.
  destruct (f x) as [b |] eqn:E; [| done]. by rewrite (H _ _ E).
Qed.

Lemma fmap_pair_Some {A C} (c : C) (o : option A) (p : (C * A)%type) :
  pair c <$> o = Some p ↔ ∃ a, o = Some a ∧ p = (c, a).
Proof.
  destruct o as [a |]; cbn.
  - split; [intros [= <-]; by exists a | by intros (? & [= <-] & ->)].
  - split; [done | by intros (? & ? & _)].
Qed.

Section Frozen.
Variable zone : nat → bool.

Lemma within_frame n h h' s v :
  (∀ r o, zone r = true → h !! r = Some o → h' !! r = Some o) →
  within zone n h s = Some v → within zone n h' s = Some v.
Proof.
  intros Hh. revert s v.
  induction n as [| n IH]; intros [c | r] v; cbn; try done.
  destruct (zone r) eqn:Hz; [| done].
  destruct (h !! r) as [[items | items] |] eqn:Hr; [| | done];
    rewrite (Hh _ _ Hz Hr).
  - destruct (mapM (within zone n h) items) as [xs |] eqn:E; [| done].
    intros [= <-]. by rewrite (mapM_impl _ _ _ _ IH E).
  - destruct (mapM (λ kv, pair kv.1 <$> within zone n h kv.2) items)
      as [xs |] eqn:E; [| done].
    intros [= <-]. by rewrite (mapM_pair_impl _ _ _ _ IH E).
Qed.

Lemma within_view n h s v : within zone n h s = Some v → view n h s = Some v.
Proof.
  revert s v. induction n as [| n IH]; intros [c | r] v; cbn; try done.
  destruct (zone r); [| done].
  destruct (h !! r) as [[items | items] |]; [| | done].
  - destruct (mapM (within zone n h) items) as [xs |] eqn:E; [| done].
    intros [= <-]. by rewrite (mapM_impl _ _ _ _ IH E).
  - destruct (mapM (λ kv, pair kv.1 <$> within zone n h kv.2) items)
      as [xs |] eqn:E; [| done].
    intros [= <-]. by rewrite (mapM_pair_impl _ _ _ _ IH E).
Qed.

Lemma within_mono n n' h s v :
  n ≤ n' → within zone n h s = Some v → within zone n' h s = Some v.
Proof.
  revert n' s v. induction n as [| n IH]; intros n' [c | r] v Hle;
    try (by destruct n'); try done.
  destruct n' as [| n']; [lia|]. cbn.
  assert (n ≤ n') as Hle' by lia.
  destruct (zone r); [| done].
  destruct (h !! r) as [[items | items] |]; [| | done].
  - destruct (mapM (within zone n h) items) as [xs |] eqn:E; [| done].
    intros [= <-].
    by rewrite (mapM_impl _ _ _ _ (λ x y, IH n' x y Hle') E).
  - destruct (mapM (λ kv, pair kv.1 <$> within zone n h kv.2) items)
      as [xs |] eqn:E; [| done].
    intros [= <-].
    by rewrite (mapM_pair_impl _ _ _ _ (λ x y, IH n' x y Hle') E).
Qed.

Lemma within_zone zone' n h s v :
  (∀ r, zone r = true → zone' r = true) →
  within zone n h s = Some v → within zone' n h s = Some v.
Proof.
  intros Hz. revert s v.
  induction n as [| n IH]; intros [c | r] v; cbn; try done.
  destruct (zone r) eqn:E; [| done]. rewrite (Hz _ E).
  destruct (h !! r) as [[items | items] |]; [| | done].
  - destruct (mapM (within zone n h) items) as [xs |] eqn:E'; [| done].
    intros [= <-]. by rewrite (mapM_impl _ _ _ _ IH E').
  - destruct (mapM (λ kv, pair kv.1 <$> within zone n h kv.2) items)
      as [xs |] eqn:E'; [| done].
    intros [= <-]. by rewrite (mapM_pair_impl _ _ _ _ IH E').
Qed.

End Frozen.

Lemma view_mono n n' h s v :
  n ≤ n' → view n h s = Some v → view n' h s = Some v.
Proof.
  revert n' s v. induction n as [| n IH]; intros n' [c | r] v Hle;
    try (by destruct n'); try done.
  destruct n' as [| n']; [lia|]. cbn.
  assert (n ≤ n') as Hle' by lia.
  destruct (h !! r) as [[items | items] |]; [| | done].
  - destruct (mapM (view n h) items) as [xs |] eqn:E; [| done].
    intros [= <-].
    by rewrite (mapM_impl _ _ _ _ (λ x y, IH n' x y Hle') E).
  - destruct (mapM (λ kv, pair kv.1 <$> view n h kv.2) items)
      as [xs |] eqn:E; [| done].
    intros [= <-].
    by rewrite (mapM_pair_impl _ _ _ _ (λ x y, IH n' x y Hle') E).
Qed.

(** *** The objects of a document *)

Lemma Forall3_impl_m {A B C} (P Q : A → B → C → Prop) (R : B → Prop) l k k' :
  Forall R k → Forall3 P l k k' →
  (∀ x y z, R y → z ∈ k' → P x y z → Q x y z) →
  Forall3 Q l k k'.
Proof.
  intros HR HF. revert HR.
  induction HF as [| x y z l k k' HP HF IH]; intros HR H; constructor.
  - apply H; [by inversion HR | by left | done].
  - apply IH; [by inversion HR |]. intros x' y' z' ? ?. apply H; [done|].
    by right.
Qed.

Lemma elem_of_concat {A} (x : A) (ls : list (list A)) :
  x ∈ concat ls ↔ ∃ l, l ∈ ls ∧ x ∈ l.
Proof.
  induction ls as [| l ls IH]; cbn.
  - split; [by intros ?%elem_of_nil | by intros (? & ?%elem_of_nil & _)].
  - rewrite elem_of_app, IH. split.
    + intros [H | (l' & H1 & H2)]; [exists l; split; [by left | done] |].
      exists l'. split; [by right | done].
    + intros (l' & [-> | H1]%elem_of_cons & H2); [by left |].
      right. by exists l'.
Qed.

Section Own.
Variable zone : nat → bool.

Lemma own_in h k s v F :
  own zone h k s v F → ∀ r, r ∈ F → zone r = false ∧ is_Some (h !! r).
Proof.
  revert k s F. induction v as [c | xs IH | kvs IH] using value_ind';
    intros k s F Hown r Hr; inversion Hown; subst;
    try (by apply elem_of_nil in Hr).
  - apply elem_of_cons in Hr as [-> | Hr]; [by split; [| eexists] |].
    apply elem_of_concat in Hr as (Fi & HFi & Hr).
    apply list_elem_of_lookup in HFi as [i Hi].
    match goal with H : Forall3 _ _ _ _ |- _ =>
      destruct (Forall3_lookup_r _ _ _ _ _ _ H Hi) as (x & y & _ & Hy & Hxy)
    end.
    rewrite Forall_forall in IH.
    eapply IH; [by eapply list_elem_of_lookup_2 | done | done].
  - apply elem_of_cons in Hr as [-> | Hr]; [by split; [| eexists] |].
    apply elem_of_concat in Hr as (Fi & HFi & Hr).
    apply list_elem_of_lookup in HFi as [i Hi].
    match goal with H : Forall3 _ _ _ _ |- _ =>
      destruct (Forall3_lookup_r _ _ _ _ _ _ H Hi)
        as (x & y & _ & Hy & _ & Hxy)
    end.
    rewrite Forall_forall in IH.
    eapply IH; [by eapply list_elem_of_lookup_2 | done | done].
Qed.

Lemma own_frame h h' k s v F :
  own zone h k s v F →
  (∀ r o, zone r = true ∨ r ∈ F → h !! r = Some o → h' !! r = Some o) →
  own zone h' k s v F.
Proof.
  revert k s F. induction v as [c | xs IH | kvs IH] using value_ind';
    intros k s F Hown Hh; inversion Hown; subst.
  - constructor.
  - eapply own_frozen, within_frame; [| done]. intros r' o Hz. apply Hh.
    by left.
  - eapply own_frozen, within_frame; [| done]. intros r' o Hz. apply Hh.
    by left.
  - eapply own_list; [done | apply Hh; [right; by left | done] |].
    eapply Forall3_impl_m; [exact IH | done |].
    intros x y z IHy Hz Hxy. cbv beta in IHy. apply IHy; [done|].
    intros r' o [Hr' | Hr']; apply Hh; [by left |].
    right. right. apply elem_of_concat. by exists z.
  - eapply own_frozen, within_frame; [| done]. intros r' o Hz. apply Hh.
    by left.
  - eapply own_dict; [done | apply Hh; [right; by left | done] |].
    eapply Forall3_impl_m; [exact IH | done |].
    intros x y z IHy Hz [Hk Hxy]. cbv beta in IHy. split; [done|].
    apply IHy; [done|].
    intros r' o [Hr' | Hr']; apply Hh; [by left |].
    right. right. apply elem_of_concat. by exists z.
Qed.

Lemma Forall3_fuel {A B C} (f : nat → A → B → Prop) l k (k' : list C) :
  (∀ n n' x y, n ≤ n' → f n x y → f n' x y) →
  Forall3 (λ x y z, ∃ n, f n x y) l k k' →
  ∃ n, Forall2 (f n) l k.
Proof.
  intros Hmono HF. induction HF as [| x y z l k k' [n Hn] HF [m IH]].
  - exists 0. constructor.
  - exists (n `max` m). constructor.
    + eapply Hmono; [| done]. lia.
    + eapply Forall2_impl; [done|]. intros x' y'. apply Hmono. lia.
Qed.

(** A document can be read through its own objects and those of the
    zone. *)
Lemma own_within zone' h k s v F :
  (∀ r, zone r = true → zone' r = true) →
  own zone h k s v F → (∀ r, r ∈ F → zone' r = true) →
  ∃ n, within zone' n h s = Some v.
Proof.
  intros Hzz. revert k s F.
  induction v as [c | xs IH | kvs IH] using value_ind';
    intros k s F Hown HF';
    inversion Hown as [k' c' | r' doc n Hw
                      | k' r' its xs' Fs Hz Hr HF
                      | k' r' its kvs' Fs Hz Hr HF]; subst;
    try (by eexists; eapply within_zone);
    try (by exists 0).
  - destruct (Forall3_fuel (λ n x y, within zone' n h x = Some y) its xs Fs)
      as [n Hn].
    { intros n n' x y. apply within_mono. }
    { eapply Forall3_impl_m; [exact IH | exact HF |].
      intros x y z IHy Hz' Hxy. eapply IHy; [done|]. intros r Hr'.
      apply HF'. right. apply elem_of_concat. by exists z. }
    exists (S n). cbn. rewrite (HF' r') by by left. rewrite Hr.
    by rewrite (proj2 (mapM_Some _ _ _) Hn).
  - destruct (Forall3_fuel
                (λ n x y, pair x.1 <$> within zone' n h x.2 = Some y)
                its kvs Fs) as [n Hn].
    { intros n n' x y Hle (a & Ha & ->)%fmap_pair_Some.
      apply fmap_pair_Some. exists a. split; [| done].
      by eapply within_mono. }
    { eapply Forall3_impl_m; [exact IH | exact HF |].
      intros [kx x] [ky y] z IHy Hz' [Hk Hxy]. cbn in *. subst ky.
      destruct (IHy _ _ _ Hxy) as [n Hn].
      { intros r Hr'. apply HF'. right. apply elem_of_concat. by exists z. }
      exists n. by rewrite Hn. }
    exists (S n). cbn. rewrite (HF' r') by by left. rewrite Hr.
    by rewrite (proj2 (mapM_Some _ _ _) Hn).
Qed.

Lemma own_reads h k s v F : own zone h k s v F → reads h s v.
Proof.
  intros Hown.
  destruct (own_within (λ _, true) h k s v F) as [n Hn]; try done.
  exists n. by eapply within_view.
Qed.

(** A document that has all its objects for itself is so whatever the
    zone, if the zone has none of them. *)
Lemma own_rezone h k s v F :
  own (λ _, false) h k s v F → (∀ r, r ∈ F → zone r = false) →
  own zone h k s v F.
Proof.
  revert k s F. induction v as [c | xs IH | kvs IH] using value_ind';
    intros k s F Hown HF';
    inversion Hown as [k' c' | r' doc n Hw
                      | k' r' its xs' Fs Hz Hr HF
                      | k' r' its kvs' Fs Hz Hr HF]; subst;
    try (by destruct n as [| n]; cbn in Hw);
    try (by constructor).
  - eapply own_list; [apply HF'; by left | done |].
    eapply Forall3_impl_m; [exact IH | exact HF |].
    intros x y z IHy Hz' Hxy. apply IHy; [done|]. intros r Hr'.
    apply HF'. right. apply elem_of_concat. by exists z.
  - eapply own_dict; [apply HF'; by left | done |].
    eapply Forall3_impl_m; [exact IH | exact HF |].
    intros x y z IHy Hz' [Hk Hxy]. split; [done|].
    apply IHy; [done|]. intros r Hr'.
    apply HF'. right. apply elem_of_concat. by exists z.
Qed.

End Own.


(** *** Loading a document without aliases *)

Lemma lookup_app_Some {A} (l l' : list A) i x :
  l !! i = Some x → (l ++ l') !! i = Some x.
Proof. intros H. by apply lookup_app_l_Some. Qed.

Lemma run_bind_return {A B} (m : run A) (f : A → run B) h h1 a :
  m h = (h1, Return a) → (m ≫= f) h = f a h1.
Proof. intros E. unfold mbind, run_bind. by rewrite E. Qed.

Lemma run_bind_raise {A B} (m : run A) (f : A → run B) h h1 e :
  m h = (h1, Raise e) → (m ≫= f) h = (h1, Raise e).
Proof. intros E. unfold mbind, run_bind. by rewrite E. Qed.

Lemma NoDup_app_bound (F G : list nat) (b : nat) :
  NoDup F → NoDup G → (∀ r, r ∈ F → r < b) → (∀ r, r ∈ G → b ≤ r) →
  NoDup (F ++ G).
Proof.
  intros HF HG HbF HbG. apply NoDup_app. split; [done|]. split; [| done].
  intros r Hr1 Hr2. specialize (HbF _ Hr1). specialize (HbG _ Hr2). lia.
Qed.

Lemma own_below zone h k s v F r :
  own zone h k s v F → r ∈ F → r < length h.
Proof.
  intros Hown Hr. destruct (own_in zone _ _ _ _ _ Hown r Hr) as [_ [o Ho]].
  by eapply lookup_lt_Some.
Qed.

Lemma own_extend zone h objs k s v F :
  own zone h k s v F → own zone (h ++ objs) k s v F.
Proof.
  intros H. eapply own_frame; [done|]. intros r o _. apply lookup_app_Some.
Qed.

Lemma construct_own v :
  ∀ h k, ∃ objs s F,
    construct v h = (h ++ objs, Return s) ∧
    own nowhere (h ++ objs) k s v F ∧ NoDup F ∧
    (∀ r, r ∈ F → length h ≤ r).
Proof.
  induction v as [c | xs IH | kvs IH] using value_ind'; intros h k.
  - exists [], (Imm c), []. rewrite app_nil_r. split; [done|].
    split; [constructor|]. split; [constructor|]. by intros r ?%elem_of_nil.
  - assert (∀ h, ∃ objs items Fs,
              each construct xs h = (h ++ objs, Return items) ∧
              Forall3 (own nowhere (h ++ objs) (pred k)) items xs Fs ∧
              NoDup (concat Fs) ∧
              (∀ r, r ∈ concat Fs → length h ≤ r)) as Heach.
    { clear h. induction IH as [| x xs Hx _ IHxs]; intros h.
      - exists [], [], []. rewrite app_nil_r. split; [done|].
        split; [constructor|]. split; [constructor|].
        by intros r ?%elem_of_nil.
      - destruct (Hx h (pred k)) as (o1 & s & F & E1 & Hown & HND & Hge).
        destruct (IHxs (h ++ o1)) as (o2 & items & Fs & E2 & HF & HND2 & Hge2).
        exists (o1 ++ o2), (s :: items), (F :: Fs).
        split; [| split; [| split]].
        + cbn [each]. rewrite (run_bind_return _ _ _ _ _ E1).
          rewrite (run_bind_return _ _ _ _ _ E2). by rewrite app_assoc.
        + rewrite app_assoc. constructor; [by apply own_extend | done].
        + cbn [concat]. apply (NoDup_app_bound _ _ (length (h ++ o1)));
            [done | done | | done].
          intros r Hr. by eapply own_below.
        + cbn [concat]. intros r [Hr | Hr]%elem_of_app; [by apply Hge|].
          apply Hge2 in Hr. rewrite length_app in Hr. lia. }
    destruct (Heach h) as (objs & items & Fs & E & HF & HND & Hge).
    exists (objs ++ [List items]), (Ref (length (h ++ objs))),
      (length (h ++ objs) :: concat Fs).
    split; [| split; [| split]].
    + cbn [construct]. rewrite (run_bind_return _ _ _ _ _ E).
      unfold new. by rewrite app_assoc.
    + rewrite app_assoc. eapply own_list; [done | |].
      * by apply list_lookup_middle.
      * eapply Forall3_impl; [done|]. intros x y z. apply own_extend.
    + constructor; [| done]. intros Hin.
      assert (∃ Fi, Fi ∈ Fs ∧ length (h ++ objs) ∈ Fi) as (Fi & HFi & Hr)
        by by apply elem_of_concat.
      apply list_elem_of_lookup in HFi as [i Hi].
      destruct (Forall3_lookup_r _ _ _ _ _ _ HF Hi) as (x & y & _ & _ & Hxy).
      pose proof (own_below _ _ _ _ _ _ _ Hxy Hr). lia.
    + intros r [-> | Hr]%elem_of_cons; [rewrite length_app; lia|].
      by apply Hge.
  - assert (∀ h, ∃ objs items Fs,
              each (λ kv, s ← construct kv.2; mret (kv.1, s)) kvs h
              = (h ++ objs, Return items) ∧
              Forall3 (λ i kv F, i.1 = kv.1 ∧
                                 own nowhere (h ++ objs) (pred k) i.2 kv.2 F)
                      items kvs Fs ∧
              NoDup (concat Fs) ∧
              (∀ r, r ∈ concat Fs → length h ≤ r)) as Heach.
    { clear h. induction IH as [| [kx x] kvs Hx _ IHxs]; intros h.
      - exists [], [], []. rewrite app_nil_r. split; [done|].
        split; [constructor|]. split; [constructor|].
        by intros r ?%elem_of_nil.
      - destruct (Hx h (pred k)) as (o1 & s & F & E1 & Hown & HND & Hge).
        destruct (IHxs (h ++ o1)) as (o2 & items & Fs & E2 & HF & HND2 & Hge2).
        exists (o1 ++ o2), ((kx, s) :: items), (F :: Fs).
        split; [| split; [| split]].
        + cbn in E1.
          assert ((s ← construct x; mret (kx, s)) h
                  = (h ++ o1, Return (kx, s))) as E1'
            by by rewrite (run_bind_return _ _ _ _ _ E1).
          cbn [each fst snd]. rewrite (run_bind_return _ _ _ _ _ E1').
          rewrite (run_bind_return _ _ _ _ _ E2). by rewrite app_assoc.
        + rewrite app_assoc. constructor; [| done].
          split; [done|]. by apply own_extend.
        + cbn [concat]. apply (NoDup_app_bound _ _ (length (h ++ o1)));
            [done | done | | done].
          intros r Hr. by eapply own_below.
        + cbn [concat]. intros r [Hr | Hr]%elem_of_app; [by apply Hge|].
          apply Hge2 in Hr. rewrite length_app in Hr. lia. }
    destruct (Heach h) as (objs & items & Fs & E & HF & HND & Hge).
    exists (objs ++ [Dict items]), (Ref (length (h ++ objs))),
      (length (h ++ objs) :: concat Fs).
    split; [| split; [| split]].
    + cbn [construct]. rewrite (run_bind_return _ _ _ _ _ E).
      unfold new. by rewrite app_assoc.
    + rewrite app_assoc. eapply own_dict; [done | |].
      * by apply list_lookup_middle.
      * eapply Forall3_impl; [done|]. intros x y z [? ?]. split; [done|].
        by apply own_extend.
    + constructor; [| done]. intros Hin.
      assert (∃ Fi, Fi ∈ Fs ∧ length (h ++ objs) ∈ Fi) as (Fi & HFi & Hr)
        by by apply elem_of_concat.
      apply list_elem_of_lookup in HFi as [i Hi].
      destruct (Forall3_lookup_r _ _ _ _ _ _ HF Hi)
        as (x & y & _ & _ & _ & Hxy).
      pose proof (own_below _ _ _ _ _ _ _ Hxy Hr). lia.
    + intros r [-> | Hr]%elem_of_cons; [rewrite length_app; lia|].
      by apply Hge.
Qed.


(** *** Reading a document in the store, and reading the tree *)

Lemma assoc_get (f : slot → option value) (k : string) items kvs :
  Forall2 (λ (i : scalar * slot) (kv : scalar * value),
             pair i.1 <$> f i.2 = Some kv) items kvs →
  match assoc k items with
  | Some s => ∃ w, dict_get k kvs = Some w ∧ f s = Some w
  | None => dict_get k kvs = None
  end.
Proof.
  induction 1 as [| [c s] [c' w] items kvs Hh HF IH]; cbn; [done|].
  apply fmap_pair_Some in Hh as (a & Ha & [= -> ->]). cbn in Ha.
  destruct (is_str_key k c); [by exists a | done].
Qed.

Lemma existsb_is_str (f : slot → option value) (k : string) items xs :
  (∀ r v, f (Ref r) = Some v → ∀ c, v ≠ VScalar c) →
  (∀ c v, f (Imm c) = Some v → v = VScalar c) →
  Forall2 (λ s x, f s = Some x) items xs →
  existsb (is_imm_str k) items = existsb (is_str k) xs.
Proof.
  intros Href Himm. induction 1 as [| s x items xs Hsx HF IH]; cbn; [done|].
  rewrite IH. f_equal. destruct s as [c | r]; cbn.
  - by rewrite (Himm _ _ Hsx).
  - destruct x as [c | |]; [| done | done]. by destruct (Href _ _ Hsx c).
Qed.

Lemma view_ref_not_scalar n h r v : view n h (Ref r) = Some v → ∀ c, v ≠ VScalar c.
Proof.
  destruct n as [| n]; cbn; [done|].
  destruct (h !! r) as [[items | items] |]; [| | done].
  - destruct (mapM _ items); [| done]. by intros [= <-].
  - destruct (mapM _ items); [| done]. by intros [= <-].
Qed.

Lemma view_imm n h c v : view n h (Imm c) = Some v → v = VScalar c.
Proof. destruct n; cbn; congruence. Qed.

Lemma object_at_Some h r o : h !! r = Some o → object_at h r = o.
Proof. unfold object_at. by intros ->. Qed.

Lemma contains_view n h s v k :
  view n h s = Some v → Shared.contains k s h = (h, Py.contains k v).
Proof.
  destruct s as [c | r].
  - intros ->%view_imm. by destruct c.
  - destruct n as [| n]; cbn; [done|].
    destruct (h !! r) as [[items | items] |] eqn:Hr; [| | done];
      unfold mbind, run_bind, read; rewrite (object_at_Some _ _ _ Hr).
    + destruct (mapM (view n h) items) as [xs |] eqn:E; [| done].
      intros [= <-]. cbn. unfold mret, run_ret. do 2 f_equal.
      apply mapM_Some in E. eapply existsb_is_str; [| | exact E].
      * apply view_ref_not_scalar.
      * apply view_imm.
    + destruct (mapM _ items) as [kvs |] eqn:E; [| done].
      intros [= <-]. cbn. unfold mret, run_ret, dict_has. do 2 f_equal.
      apply mapM_Some in E.
      pose proof (assoc_get (view n h) k _ _ E) as H.
      destruct (assoc k items) as [s |].
      * destruct H as (w & -> & _). by apply bool_decide_eq_true_2.
      * rewrite H. apply bool_decide_eq_false_2. by intros [? ?].
Qed.

Lemma truthy_view n h s v :
  view n h s = Some v → Shared.truthy s h = (h, Return (Py.truthy v)).
Proof.
  destruct s as [c | r].
  - by intros ->%view_imm.
  - destruct n as [| n]; cbn; [done|].
    destruct (h !! r) as [[items | items] |] eqn:Hr; [| | done];
      unfold mbind, run_bind, read; rewrite (object_at_Some _ _ _ Hr).
    + destruct (mapM (view n h) items) as [xs |] eqn:E; [| done].
      intros [= <-]. apply mapM_Some in E. by destruct E.
    + destruct (mapM _ items) as [kvs |] eqn:E; [| done].
      intros [= <-]. apply mapM_Some in E. by destruct E.
Qed.

Section Reading.
Variable zone : nat → bool.

Lemma getitem_within n h s v k :
  within zone n h s = Some v →
  match Py.getitem v k with
  | Return v' =>
      ∃ s', Shared.getitem s k h = (h, Return s') ∧
            within zone n h s' = Some v'
  | Raise e => Shared.getitem s k h = (h, Raise e)
  end.
Proof.
  destruct s as [c | r].
  - destruct n; cbn; by intros [= <-].
  - destruct n as [| n]; cbn; [done|].
    destruct (zone r); [| done].
    destruct (h !! r) as [[items | items] |] eqn:Hr; [| | done];
      unfold mbind, run_bind, read; rewrite (object_at_Some _ _ _ Hr).
    + destruct (mapM _ items) as [xs |] eqn:E; [| done]. by intros [= <-].
    + destruct (mapM _ items) as [kvs |] eqn:E; [| done].
      intros [= <-]. cbn. apply mapM_Some in E.
      pose proof (assoc_get (within zone n h) k _ _ E) as H.
      destruct (assoc k items) as [s |].
      * destruct H as (w & -> & Hw). exists s. split; [done|].
        apply (within_mono zone n (S n) h s w); [lia | done].
      * by rewrite H.
Qed.

Lemma iterate_within n h s v :
  within zone n h s = Some v →
  match Py.iterate v with
  | Return ys =>
      ∃ ss, Shared.iterate s h = (h, Return ss) ∧
            Forall2 (λ s y, within zone n h s = Some y) ss ys
  | Raise e => Shared.iterate s h = (h, Raise e)
  end.
Proof.
  destruct s as [c | r].
  - destruct n; cbn; intros [= <-]; destruct c as [| b | z | t]; cbn;
      try done.
    all: eexists; (split; [done|]); unfold chars;
      induction (code_points t); constructor; try done; by destruct n.
  - destruct n as [| n]; cbn; [done|].
    destruct (zone r); [| done].
    destruct (h !! r) as [[items | items] |] eqn:Hr; [| | done];
      unfold mbind, run_bind, read; rewrite (object_at_Some _ _ _ Hr).
    + destruct (mapM _ items) as [xs |] eqn:E; [| done]. intros [= <-].
      cbn. exists items. split; [done|]. apply mapM_Some in E.
      eapply Forall2_impl; [done|]. intros x y.
      apply (within_mono zone n (S n) h x y). lia.
    + destruct (mapM _ items) as [kvs |] eqn:E; [| done].
      intros [= <-]. cbn. eexists. split; [done|]. apply mapM_Some in E.
      clear Hr.
      induction E as [| [c s] [c' w] items kvs Hh HF IH]; cbn [map fst];
        [constructor|]. constructor; [| exact IH].
      by apply fmap_pair_Some in Hh as (a & Ha & [= -> ->]).
Qed.

End Reading.


(** *** Changing one object of a document *)

Lemma NoDup_replace (A B C B' : list nat) (b : nat) :
  NoDup (A ++ B ++ C) → NoDup B' →
  (∀ x, x ∈ B' → x ∈ B ∨ b ≤ x) →
  (∀ x, x ∈ A ++ B ++ C → x < b) →
  NoDup (A ++ B' ++ C).
Proof.
  intros (HA & HAB & (HB & HBC & HC)%NoDup_app)%NoDup_app HB' Hin Hlt.
  apply NoDup_app. split; [done|]. split.
  - intros x Hx [Hx' | Hx']%elem_of_app.
    + destruct (Hin _ Hx') as [H | H].
      * apply (HAB x Hx). apply elem_of_app. by left.
      * assert (x < b) by (apply Hlt, elem_of_app; by left). lia.
    + apply (HAB x Hx). apply elem_of_app. by right.
  - apply NoDup_app. split; [done|]. split; [| done].
    intros x Hx Hx'. destruct (Hin _ Hx) as [H | H].
    + by apply (HBC x).
    + assert (x < b) by (apply Hlt; rewrite !elem_of_app; auto). lia.
Qed.

Lemma heap_insert_eq (h : heap) r (o : object) :
  r < length h → <[r := o]> h !! r = Some o.
Proof. apply list_lookup_insert_eq. Qed.

Lemma heap_insert_ne (h : heap) r r' (o : object) :
  r ≠ r' → <[r := o]> h !! r' = h !! r'.
Proof. apply list_lookup_insert_ne. Qed.

Lemma heap_length_insert (h : heap) r (o : object) :
  length (<[r := o]> h) = length h.
Proof. apply length_insert. Qed.

Lemma heap_lookup_new (h : heap) (o : object) :
  (h ++ [o]) !! length h = Some o.
Proof. by apply list_lookup_middle. Qed.

Lemma heap_lookup_old (h : heap) (o o' : object) r :
  h !! r = Some o → (h ++ [o']) !! r = Some o.
Proof. apply lookup_app_l_Some. Qed.

Section Spine.
Variable zone : nat → bool.

Lemma entries_split h j key items kvs Fs s :
  Forall3 (entry zone h j) items kvs Fs → assoc key items = Some s →
  ∃ items1 ki items2 kvs1 w kvs2 Fs1 Fw Fs2,
    items = items1 ++ (ki, s) :: items2 ∧ kvs = kvs1 ++ (ki, w) :: kvs2 ∧
    Fs = Fs1 ++ Fw :: Fs2 ∧
    Forall3 (entry zone h j) items1 kvs1 Fs1 ∧ own zone h j s w Fw ∧
    Forall3 (entry zone h j) items2 kvs2 Fs2 ∧
    dict_get key kvs = Some w ∧
    (∀ w', dict_set key w' kvs = kvs1 ++ (ki, w') :: kvs2).
Proof.
  induction 1 as [| [c s0] [c' w0] F items kvs Fs [Hk Hown] HF IH];
    cbn [assoc]; [done|].
  cbn in Hk, Hown. subst c'. cbn [dict_get dict_set].
  destruct (is_str_key key c) eqn:E.
  - intros [= ->]. exists [], c, items, [], w0, kvs, [], F, Fs.
    repeat split; try done; constructor.
  - intros Hs.
    destruct (IH Hs) as (items1 & ki & items2 & kvs1 & w & kvs2 & Fs1 & Fw
                         & Fs2 & -> & -> & -> & H1 & Hw & H2 & Hget & Hset).
    exists ((c, s0) :: items1), ki, items2, ((c, w0) :: kvs1), w, kvs2,
      (F :: Fs1), Fw, Fs2.
    split; [done|]. split; [done|]. split; [done|].
    split; [by constructor|]. split; [done|]. split; [done|].
    split; [done|]. intros w'. by rewrite Hset.
Qed.

Lemma entries_absent h j key items kvs Fs :
  Forall3 (entry zone h j) items kvs Fs → assoc key items = None →
  dict_get key kvs = None.
Proof.
  induction 1 as [| [c s0] [c' w0] F items kvs Fs [Hk Hown] HF IH];
    cbn [assoc dict_get]; [done|].
  cbn in Hk. subst c'. by destruct (is_str_key key c).
Qed.

Lemma own_dict_inv j h r kvs F items :
  own zone h (S j) (Ref r) (VDict kvs) F → h !! r = Some (Dict items) →
  ∃ Fs, zone r = false ∧ Forall3 (entry zone h j) items kvs Fs ∧
        F = r :: concat Fs.
Proof.
  intros Hown Hr.
  inversion Hown as [| | | k' r' its kvs' Fs Hz Hr' HF]; subst.
  rewrite Hr in Hr'. injection Hr' as <-. by exists Fs.
Qed.

Lemma own_list_inv j h r xs F items :
  own zone h (S j) (Ref r) (VList xs) F → h !! r = Some (List items) →
  ∃ Fs, zone r = false ∧ Forall3 (own zone h j) items xs Fs ∧
        F = r :: concat Fs.
Proof.
  intros Hown Hr.
  inversion Hown as [| | k' r' its xs' Fs Hz Hr' HF |]; subst.
  rewrite Hr in Hr'. injection Hr' as <-. by exists Fs.
Qed.

(** The shape of a document that has its top object for itself. *)
Lemma own_shape j h s v F :
  own zone h (S j) s v F →
  (∃ c, s = Imm c ∧ v = VScalar c) ∨
  (∃ r items xs, s = Ref r ∧ v = VList xs ∧ h !! r = Some (List items)) ∨
  (∃ r items kvs, s = Ref r ∧ v = VDict kvs ∧ h !! r = Some (Dict items)).
Proof.
  intros Hown.
  inversion Hown as [k' c | | k' r its xs Fs Hz Hr HF
                    | k' r its kvs Fs Hz Hr HF]; subst.
  - left. by exists c.
  - right. left. by exists r, its, xs.
  - right. right. by exists r, its, kvs.
Qed.

(** One value of a dict, and the dict again once that value has
    changed. *)
Lemma own_dict_focus j h r kvs F items key s :
  own zone h (S j) (Ref r) (VDict kvs) F → NoDup F →
  h !! r = Some (Dict items) → assoc key items = Some s →
  ∃ w Fw,
    dict_get key kvs = Some w ∧ own zone h j s w Fw ∧ NoDup Fw ∧
    (∀ x, x ∈ Fw → x ∈ F ∧ x ≠ r) ∧
    ∀ h' w' Fw',
      (∀ r' o, r' ∉ Fw → h !! r' = Some o → h' !! r' = Some o) →
      own zone h' j s w' Fw' → NoDup Fw' →
      (∀ x, x ∈ Fw' → x ∈ Fw ∨ length h ≤ x) →
      ∃ F', own zone h' (S j) (Ref r) (VDict (dict_set key w' kvs)) F' ∧
            NoDup F' ∧ (∀ x, x ∈ F' → x ∈ F ∨ length h ≤ x).
Proof.
  intros Hown HND Hr Hs.
  destruct (own_dict_inv _ _ _ _ _ _ Hown Hr) as (Fs & Hz & HF & ->).
  destruct (entries_split _ _ _ _ _ _ _ HF Hs)
    as (items1 & ki & items2 & kvs1 & w & kvs2 & Fs1 & Fw & Fs2
        & -> & -> & -> & H1 & Hw & H2 & Hget & Hset).
  rewrite concat_app in HND. cbn [concat] in HND.
  change (r :: concat Fs1 ++ Fw ++ concat Fs2)
    with ((r :: concat Fs1) ++ Fw ++ concat Fs2) in HND.
  pose proof HND as (HA & HAB & (HB & HBC & HC)%NoDup_app)%NoDup_app.
  exists w, Fw. split; [done|]. split; [done|]. split; [done|]. split.
  { intros x Hx. split.
    - right. rewrite concat_app. cbn [concat]. rewrite !elem_of_app. auto.
    - intros ->. apply (HAB r); [by left |]. apply elem_of_app. by left. }
  intros h' w' Fw' Hframe Hown' HND' Hin.
  assert (∀ x, x ∈ (r :: concat Fs1) ++ Fw ++ concat Fs2 → x < length h)
    as Hlt.
  { intros x Hx. eapply own_below; [exact Hown|].
    rewrite concat_app. by cbn [concat]. }
  exists (r :: concat (Fs1 ++ Fw' :: Fs2)).
  split; [| split].
  - rewrite Hset. eapply own_dict; [done | |].
    + apply (Hframe _ _) in Hr; [done|]. intros Hx.
      apply (HAB r); [by left |]. apply elem_of_app. by left.
    + apply Forall3_app; [| constructor; [by split |]].
      * eapply Forall3_impl_m with (R := λ _, True);
          [by apply Forall_true | exact H1 |].
        intros x y z _ Hz' [Hk Hxy]. split; [done|].
        eapply own_frame; [exact Hxy|].
        intros r' o Hr' Ho. apply Hframe; [| done]. intros HrFw.
        destruct Hr' as [Hr' | Hr'].
        -- destruct (own_in _ _ _ _ _ _ Hw r' HrFw) as [Hf _]. congruence.
        -- apply (HAB r'); [| apply elem_of_app; by left].
           right. apply elem_of_concat. by exists z.
      * eapply Forall3_impl_m with (R := λ _, True);
          [by apply Forall_true | exact H2 |].
        intros x y z _ Hz' [Hk Hxy]. split; [done|].
        eapply own_frame; [exact Hxy|].
        intros r' o Hr' Ho. apply Hframe; [| done]. intros HrFw.
        destruct Hr' as [Hr' | Hr'].
        -- destruct (own_in _ _ _ _ _ _ Hw r' HrFw) as [Hf _]. congruence.
        -- apply (HBC r'); [done |]. apply elem_of_concat. by exists z.
  - rewrite concat_app. cbn [concat].
    change (r :: concat Fs1 ++ Fw' ++ concat Fs2)
      with ((r :: concat Fs1) ++ Fw' ++ concat Fs2).
    by eapply NoDup_replace.
  - rewrite !concat_app. cbn [concat].
    intros x [-> | Hx]%elem_of_cons; [left; by left |].
    apply elem_of_app in Hx as [Hx | Hx];
      [left; right; apply elem_of_app; by left |].
    apply elem_of_app in Hx as [Hx | Hx].
    + destruct (Hin _ Hx) as [H | H]; [| by right].
      left. right. rewrite !elem_of_app. auto.
    + left. right. rewrite !elem_of_app. auto.
Qed.


(** An empty container, new in the store. *)
Lemma own_empty j h n eo ev :
  eo = Dict [] ∧ ev = VDict [] ∨ eo = List [] ∧ ev = VList [] →
  zone n = false → h !! n = Some eo → own zone h j (Ref n) ev [n].
Proof.
  intros [[-> ->] | [-> ->]] Hz Hn.
  - by apply (own_dict zone h j n [] [] []); [| | constructor].
  - by apply (own_list zone h j n [] [] []); [| | constructor].
Qed.

(** A dict with one more key, bound to a new empty container. *)
Lemma own_dict_add j h r kvs F items key eo ev :
  own zone h (S j) (Ref r) (VDict kvs) F → NoDup F →
  h !! r = Some (Dict items) →
  zone (length h) = false →
  eo = Dict [] ∧ ev = VDict [] ∨ eo = List [] ∧ ev = VList [] →
  let n := length h in
  let h' := <[r := Dict (items ++ [(SStr key, Ref n)])]> (h ++ [eo]) in
  own zone h' (S j) (Ref r) (VDict (kvs ++ [(SStr key, ev)])) (F ++ [n]) ∧
  NoDup (F ++ [n]).
Proof.
  intros Hown HND Hr Hzn Hempty n h'.
  destruct (own_dict_inv _ _ _ _ _ _ Hown Hr) as (Fs & Hz & HF & ->).
  assert (r < n) as Hrn by by eapply lookup_lt_Some.
  assert (∀ x, x ∈ r :: concat Fs → x < n) as Hlt.
  { intros x Hx. by eapply own_below. }
  assert (∀ r' o, r' ≠ r → h !! r' = Some o → h' !! r' = Some o) as Hframe.
  { intros r' o Hne Ho. unfold h'. rewrite heap_insert_ne by done.
    by apply heap_lookup_old. }
  split.
  - replace ((r :: concat Fs) ++ [n]) with (r :: concat (Fs ++ [[n]]))
      by by rewrite concat_app.
    eapply own_dict; [done | |].
    + unfold h'. apply heap_insert_eq. rewrite length_app. cbn. lia.
    + apply Forall3_app.
      * eapply Forall3_impl_m with (R := λ _, True);
          [by apply Forall_true | exact HF |].
        intros x y z _ Hz' [Hk Hxy]. split; [done|].
        eapply own_frame; [exact Hxy|].
        intros r' o Hr' Ho. apply Hframe; [| done]. intros ->.
        destruct Hr' as [Hr' | Hr']; [congruence|].
        apply NoDup_cons in HND as [HND _]. apply HND.
        apply elem_of_concat. by exists z.
      * constructor; [| constructor]. split; [done|]. cbn [fst snd].
        apply (own_empty j h' n eo ev); [done | done |].
        unfold h'. rewrite heap_insert_ne by lia. apply heap_lookup_new.
  - apply NoDup_app. split; [done|]. split; [| apply NoDup_singleton].
    intros x Hx ->%list_elem_of_singleton. specialize (Hlt _ Hx). lia.
Qed.

(** A list with more items, which are read through the zone. *)
Lemma own_list_extend h l xs F items ss ys n :
  own zone h 1 (Ref l) (VList xs) F → NoDup F →
  h !! l = Some (List items) →
  Forall2 (λ s y, within zone n h s = Some y) ss ys →
  let h' := <[l := List (items ++ ss)]> h in
  own zone h' 1 (Ref l) (VList (xs ++ ys)) F.
Proof.
  intros Hown HND Hl Hss h'.
  destruct (own_list_inv _ _ _ _ _ _ Hown Hl) as (Fs & Hz & HF & ->).
  assert (l < length h) as Hlt by by eapply lookup_lt_Some.
  assert (∀ r' o, r' ≠ l → h !! r' = Some o → h' !! r' = Some o) as Hframe.
  { intros r' o Hne Ho. unfold h'. by rewrite heap_insert_ne. }
  replace (l :: concat Fs)
    with (l :: concat (Fs ++ map (λ _, []) ys)).
  2:{ rewrite concat_app. f_equal.
      assert (concat (map (λ _ : value, @nil nat) ys) = []) as ->
        by by clear; induction ys.
      by rewrite app_nil_r. }
  eapply own_list; [done | by apply heap_insert_eq |].
  apply Forall3_app.
  - eapply Forall3_impl_m with (R := λ _, True);
      [by apply Forall_true | exact HF |].
    intros x y z _ Hz' Hxy. eapply own_frame; [exact Hxy|].
    intros r' o Hr' Ho. apply Hframe; [| done]. intros ->.
    destruct Hr' as [Hr' | Hr']; [congruence|].
    apply NoDup_cons in HND as [HND _]. apply HND.
    apply elem_of_concat. by exists z.
  - assert (∀ s y, within zone n h s = Some y → own zone h' 0 s y [])
      as Hnew.
    { intros s y Hsy.
      assert (within zone n h' s = Some y) as Hsy'.
      { eapply within_frame; [| done]. intros r' o Hr' Ho.
        apply Hframe; [congruence | done]. }
      destruct s as [c | r].
      - assert (y = VScalar c) as ->
          by (destruct n; cbn in Hsy; congruence).
        constructor.
      - by eapply own_frozen. }
    clearbody h'. clear -Hss Hnew.
    induction Hss as [| s y ss ys Hsy Hss IH]; cbn [map]; [constructor|].
    constructor; [by apply Hnew | done].
Qed.


(** *** The steps of the merge *)

Lemma sim_bind {X Y X' Y'} h (a : outcome X) (f : X → outcome X')
    (ma : run Y) (g : Y → run Y') R Q :
  sim h a ma R → (∀ h1 x y, R h1 x y → sim h1 (f x) (g y) Q) →
  sim h (a ≫= f) (ma ≫= g) Q.
Proof.
  destruct a as [x | e]; cbn.
  - intros (h1 & y & E & HR) Hf. unfold sim.
    rewrite (run_bind_return _ _ _ _ _ E). by apply Hf.
  - intros [h1 E] _. exists h1. by rewrite (run_bind_raise _ _ _ _ _ E).
Qed.

Lemma sim_impl {X Y} h (a : outcome X) (m : run Y) (R Q : heap → X → Y → Prop) :
  sim h a m R → (∀ h1 x y, R h1 x y → Q h1 x y) → sim h a m Q.
Proof.
  destruct a as [x | e]; cbn; [| done].
  intros (h1 & y & E & HR) H. exists h1, y. split; [done | by apply H].
Qed.

Lemma assoc_app_absent key items s :
  assoc key items = None → assoc key (items ++ [(SStr key, s)]) = Some s.
Proof.
  induction items as [| [c s0] items IH]; cbn.
  - by rewrite is_str_key_refl.
  - destruct (is_str_key key c); [done | apply IH].
Qed.

Lemma setdefault_sim j h s v F key eo ev :
  own zone h (S j) s v F → NoDup F →
  (∀ r, length h ≤ r → zone r = false) →
  eo = Dict [] ∧ ev = VDict [] ∨ eo = List [] ∧ ev = VList [] →
  sim h (Py.setdefault v key ev) (Shared.setdefault s key eo)
    (λ h' wv s', ∃ r items kvs' F',
       s = Ref r ∧ wv.2 = VDict kvs' ∧ dict_get key kvs' = Some wv.1 ∧
       h' !! r = Some (Dict items) ∧ assoc key items = Some s' ∧
       own zone h' (S j) s (VDict kvs') F' ∧ NoDup F' ∧
       (∀ r' o, r' ≠ r → h !! r' = Some o → h' !! r' = Some o) ∧
       length h ≤ length h' ∧
       (∀ x, x ∈ F' → x ∈ F ∨ length h ≤ x)).
Proof.
  intros Hown HND Hzone Hempty.
  destruct (own_shape _ _ _ _ _ Hown)
    as [(c & -> & ->) | [(r & items & xs & -> & -> & Hr)
                        | (r & items & kvs & -> & -> & Hr)]].
  - by exists h.
  - exists h. cbv [Shared.setdefault mbind run_bind read].
    by rewrite (object_at_Some _ _ _ Hr).
  - destruct (own_dict_inv _ _ _ _ _ _ Hown Hr) as (Fs & Hz & HF & ->).
    assert (r < length h) as Hlt by by eapply lookup_lt_Some.
    assert (Shared.setdefault (Ref r) key eo h
            = match assoc key items with
              | Some w => (h ++ [eo], Return w)
              | None =>
                  (<[r := Dict (items ++ [(SStr key, Ref (length h))])]>
                     (h ++ [eo]), Return (Ref (length h)))
              end) as Eh.
    { cbv [Shared.setdefault mbind run_bind read new].
      rewrite (object_at_Some _ _ _ Hr). by destruct (assoc key items). }
    unfold sim. rewrite Eh. cbn [Py.setdefault].
    destruct (assoc key items) as [s' |] eqn:Hs.
    + destruct (entries_split _ _ _ _ _ _ _ HF Hs)
        as (_ & _ & _ & _ & w & _ & _ & _ & _ & _ & _ & _ & _ & _ & _
            & Hget & _).
      rewrite Hget. exists (h ++ [eo]), s'. split; [done|].
      exists r, items, kvs, (r :: concat Fs).
      split; [done|]. split; [done|]. split; [done|].
      split; [by apply heap_lookup_old|]. split; [done|].
      split; [by apply own_extend|]. split; [done|].
      split; [intros r' o _; apply heap_lookup_old|].
      split; [rewrite length_app; lia|]. auto.
    + rewrite (entries_absent _ _ _ _ _ _ HF Hs).
      destruct (own_dict_add _ _ _ _ _ _ key eo ev Hown HND Hr)
        as [Hown' HND']; [apply Hzone; lia | done |].
      eexists _, _. split; [reflexivity|].
      eexists r, _, _, _. split; [done|]. split; [done|].
      split; [by apply MergeSpec.dict_get_app_absent,
                (entries_absent _ _ _ _ _ _ HF Hs)|].
      split; [apply heap_insert_eq; rewrite length_app; cbn; lia|].
      split; [by apply assoc_app_absent|].
      split; [exact Hown'|]. split; [exact HND'|].
      split; [| split].
      * intros r' o Hne Ho. rewrite heap_insert_ne by done.
        by apply heap_lookup_old.
      * rewrite heap_length_insert, length_app. lia.
      * intros x [Hx | ->%list_elem_of_singleton]%elem_of_app; auto.
Qed.


Lemma own_top j h r v F : own zone h (S j) (Ref r) v F → r ∈ F.
Proof. intros Hown. inversion Hown; subst; by left. Qed.

Lemma getitem_dict (h : heap) r items key s :
  h !! r = Some (Dict items) → assoc key items = Some s →
  Shared.getitem (Ref r) key h = (h, Return s).
Proof.
  intros Hr Hs. cbv [Shared.getitem mbind run_bind read].
  by rewrite (object_at_Some _ _ _ Hr), Hs.
Qed.

Lemma getitem_sim n h s v key :
  within zone n h s = Some v →
  sim h (Py.getitem v key) (Shared.getitem s key)
    (λ h1 v' s', h1 = h ∧ within zone n h s' = Some v').
Proof.
  intros H. pose proof (getitem_within zone n h s v key H) as Hg.
  unfold sim. destruct (Py.getitem v key) as [v' | e].
  - destruct Hg as (s' & E & Hs'). by exists h, s'.
  - by exists h.
Qed.

Lemma contains_sim n h s v key :
  within zone n h s = Some v →
  sim h (Py.contains key v) (Shared.contains key s)
    (λ h1 b b', h1 = h ∧ b = b').
Proof.
  intros H%within_view. pose proof (contains_view _ _ _ _ key H) as E.
  unfold sim. destruct (Py.contains key v) as [b | e].
  - by exists h, b.
  - by exists h.
Qed.

Lemma iterate_sim n h s v :
  within zone n h s = Some v →
  sim h (Py.iterate v) (Shared.iterate s)
    (λ h1 ys ss, h1 = h ∧ Forall2 (λ s y, within zone n h s = Some y) ss ys).
Proof.
  intros H. pose proof (iterate_within zone n h s v H) as Hg.
  unfold sim. destruct (Py.iterate v) as [ys | e].
  - destruct Hg as (ss & E & Hss). by exists h, ss.
  - by exists h.
Qed.

Lemma bound_extend_sim h s v F :
  own zone h 1 s v F →
  sim h (match v with
         | VList xs => Return xs
         | _ => Raise AttributeError
         end) (bound_extend s)
    (λ h1 xs l, h1 = h ∧ v = VList xs ∧ s = Ref l ∧
                ∃ items, h !! l = Some (List items)).
Proof.
  intros Hown.
  destruct (own_shape _ _ _ _ _ Hown)
    as [(c & -> & ->) | [(r & items & xs & -> & -> & Hr)
                        | (r & items & kvs & -> & -> & Hr)]].
  - by exists h.
  - exists h, r. split; [| by eauto].
    cbv [bound_extend mbind run_bind read].
    by rewrite (object_at_Some _ _ _ Hr).
  - exists h. cbv [bound_extend mbind run_bind read].
    by rewrite (object_at_Some _ _ _ Hr).
Qed.

Lemma sim_step {X Y X' Y'} h (a : outcome X) (f : X → outcome X')
    (ma : run Y) (g : Y → run Y') x y Q :
  a = Return x → ma h = (h, Return y) → sim h (f x) (g y) Q →
  sim h (a ≫= f) (ma ≫= g) Q.
Proof.
  intros -> E H. eapply sim_bind with (R := λ h1 x' y', h1 = h ∧ x' = x ∧ y' = y).
  - by exists h, y.
  - by intros h1 x' y' (-> & -> & ->).
Qed.

End Spine.

(** *** The merge on a document that has its objects for itself *)

Section Merge.
Variable zone : nat → bool.

Lemma merge_field_sim h m v cs c n section field :
  (∃ F, own zone h 3 m v F ∧ NoDup F) →
  (∀ r, length h ≤ r → zone r = false) →
  within zone n h cs = Some c →
  sim h (Initialize.merge_field v c section field)
    (Shared.merge_field m cs section field)
    (λ h' v' _,
       (∃ F', own zone h' 3 m v' F' ∧ NoDup F') ∧
       (∀ r, length h' ≤ r → zone r = false) ∧
       within zone n h' cs = Some c).
Proof.
  intros (F & Hown & HND) Hfresh Hc.
  unfold Initialize.merge_field, Shared.merge_field.
  eapply sim_bind; [by apply getitem_sim|].
  intros ? csecv csecs [-> Hcsec].
  eapply sim_bind; [by eapply contains_sim|].
  intros ? b ? [-> <-].
  destruct b.
  2:{ exists h, tt. split; [done|]. eauto. }
  eapply sim_bind.
  { apply (setdefault_sim zone 2 h m v F section (Dict []) (VDict []));
      auto. }
  intros h1 [secv v1] secs
    (r & items & kvs1 & F1 & -> & Hv1 & Hget1 & Hr1 & Has1 & Hown1 & HND1
     & Hfr1 & Hlen1 & HF1).
  cbn [fst snd] in Hv1, Hget1. subst v1.
  assert (∀ r, length h1 ≤ r → zone r = false) as Hfresh1
    by (intros; apply Hfresh; lia).
  assert (zone r = false) as Hzr.
  { eapply own_in; [exact Hown1|]. exact (own_top zone 2 _ _ _ _ Hown1). }
  destruct (own_dict_focus zone 2 h1 r kvs1 F1 items section secs
              Hown1 HND1 Hr1 Has1)
    as (w & Fw & Hgetw & Hownw & HNDw & HFw & Hrebuild).
  rewrite Hget1 in Hgetw. injection Hgetw as <-.
  eapply sim_bind.
  { apply (setdefault_sim zone 1 h1 secs secv Fw field (List []) (VList []));
      auto. }
  intros h2 [fv secv2] fs
    (r2 & items2 & kvs2 & F2 & -> & Hv2 & Hget2 & Hr2 & Has2 & Hown2 & HND2
     & Hfr2 & Hlen2 & HF2).
  cbn [fst snd] in Hv2, Hget2. subst secv2.
  assert (∀ r, length h2 ≤ r → zone r = false) as Hfresh2
    by (intros; apply Hfresh1; lia).
  assert (r2 ∈ Fw) as Hr2Fw by exact (own_top zone 1 h1 r2 secv Fw Hownw).
  assert (zone r2 = false) as Hzr2
    by exact (proj1 (own_in zone _ _ _ _ _ Hownw r2 Hr2Fw)).
  destruct (Hrebuild h2 (VDict kvs2) F2) as (F3 & Hown3 & HND3 & HF3);
    [| done | done | done |].
  { intros r' o Hr' Ho. apply Hfr2; [| done]. by intros ->. }
  assert (h2 !! r = Some (Dict items)) as Hr3.
  { apply Hfr2; [| done]. intros ->. by destruct (HFw _ Hr2Fw). }
  assert (within zone n h2 cs = Some c) as Hc2.
  { eapply within_frame; [| done]. intros r' o Hz Ho.
    apply Hfr2; [congruence|]. apply Hfr1; [congruence | done]. }
  clear Hrebuild Hown2 HND2 HF2 Hownw HNDw HFw.
  cbn zeta.
  change (store (VDict kvs1) section (VDict kvs2))
    with (VDict (dict_set section (VDict kvs2) kvs1)).
  eapply sim_step;
    [cbn [Py.getitem]; by rewrite dict_get_set_eq | by eapply getitem_dict |].
  eapply sim_step;
    [cbn [Py.getitem]; by rewrite Hget2 | by eapply getitem_dict |].
  destruct (own_dict_focus zone 2 h2 r _ F3 items section (Ref r2)
              Hown3 HND3 Hr3 Has1)
    as (w3 & Fw3 & Hgetw3 & Hownw3 & HNDw3 & HFw3 & Hrebuild3).
  rewrite dict_get_set_eq in Hgetw3. injection Hgetw3 as <-.
  destruct (own_dict_focus zone 1 h2 r2 kvs2 Fw3 items2 field fs
              Hownw3 HNDw3 Hr2 Has2)
    as (w2 & Ff & Hgetf & Hownf & HNDf & HFf & Hrebuild2).
  rewrite Hget2 in Hgetf. injection Hgetf as <-.
  eapply sim_bind; [by eapply bound_extend_sim|].
  intros ? xs l (-> & -> & -> & litems & Hl).
  assert (l ∈ Ff) as HlFf by exact (own_top zone 0 _ _ _ _ Hownf).
  assert (zone l = false) as Hzl
    by exact (proj1 (own_in zone _ _ _ _ _ Hownf l HlFf)).
  eapply sim_bind; [by apply getitem_sim|].
  intros ? csecv' csecs' [-> Hcsec'].
  eapply sim_bind; [by apply getitem_sim|].
  intros ? srcv srcs [-> Hsrc].
  unfold extend.
  eapply sim_bind; [by apply iterate_sim|].
  intros ? ys ss [-> Hss].
  set (h3 := <[l := List (litems ++ ss)]> h2).
  exists h3, tt. split.
  { cbv [mbind run_bind read write]. by rewrite (object_at_Some _ _ _ Hl). }
  assert (∀ r' o, r' ≠ l → h2 !! r' = Some o → h3 !! r' = Some o) as Hfr3.
  { intros r' o Hne Ho. unfold h3. by rewrite heap_insert_ne. }
  pose proof (own_list_extend zone h2 l xs Ff litems ss ys n
                Hownf HNDf Hl Hss) as Hownl.
  destruct (Hrebuild2 h3 (VList (xs ++ ys)) Ff) as (F4 & Hown4 & HND4 & HF4);
    [| exact Hownl | done | by auto |].
  { intros r' o Hr' Ho. apply Hfr3; [| done]. by intros ->. }
  destruct (Hrebuild3 h3 (VDict (dict_set field (VList (xs ++ ys)) kvs2)) F4)
    as (F5 & Hown5 & HND5 & HF5); [| exact Hown4 | done | done |].
  { intros r' o Hr' Ho. apply Hfr3; [| done]. intros ->.
    by destruct (HFf _ HlFf). }
  split; [by exists F5 | split].
  - intros r' Hr'. apply Hfresh2. unfold h3 in Hr'.
    by rewrite heap_length_insert in Hr'.
  - eapply within_frame; [| done]. intros r' o Hz Ho.
    apply Hfr3; [congruence | done].
Qed.


Lemma merge_section_sim h m v cs c n section :
  (∃ F, own zone h 3 m v F ∧ NoDup F) →
  (∀ r, length h ≤ r → zone r = false) →
  within zone n h cs = Some c →
  sim h (Initialize.merge_section v c section)
    (Shared.merge_section m cs section)
    (λ h' v' _,
       (∃ F', own zone h' 3 m v' F' ∧ NoDup F') ∧
       (∀ r, length h' ≤ r → zone r = false) ∧
       within zone n h' cs = Some c).
Proof.
  intros Hown Hfresh Hc.
  unfold Initialize.merge_section, Shared.merge_section.
  eapply sim_bind; [by eapply contains_sim|].
  intros ? b ? [-> <-].
  destruct b.
  2:{ exists h, tt. split; [done|]. eauto. }
  eapply sim_bind; [by apply merge_field_sim|].
  intros h1 v1 [] (Hown1 & Hfresh1 & Hc1).
  by apply merge_field_sim.
Qed.

End Merge.

Lemma merge_section_empty (h : heap) m r section :
  h !! r = Some (Dict []) →
  Shared.merge_section m (Ref r) section h = (h, Return tt).
Proof.
  intros Hr. cbv [Shared.merge_section Shared.contains mbind run_bind read].
  by rewrite (object_at_Some _ _ _ Hr).
Qed.

(** The merge of two documents loaded without aliases is the merge of
    the trees. *)
Lemma merge_loaded_construct (default custom : value) (h0 : heap) :
  ∃ h1 m,
    construct default h0 = (h1, Return m) ∧
    reads h1 m default ∧
    sim h1 (merge_documents default (Some custom)) (merged_with m custom)
      (λ h3 merged _, reads h3 m merged).
Proof.
  destruct (construct_own default h0 3) as (objs & m & F & E & Hown & HND & Hge).
  exists (h0 ++ objs), m. split; [done|].
  split; [by eapply own_reads|].
  set (h1 := h0 ++ objs) in *.
  destruct (construct_own custom h1 0)
    as (objs2 & cs & Fc & E2 & Hownc & HNDc & Hgec).
  set (h2 := h1 ++ objs2) in *.
  set (zone := λ r, (length h1 <=? r) && (r <? length h2)).
  assert (∀ r, r ∈ F → zone r = false) as HzF.
  { intros r Hr. pose proof (own_below _ _ _ _ _ _ _ Hown Hr).
    unfold zone. apply andb_false_iff. left. apply Nat.leb_gt. done. }
  assert (∀ r, r ∈ Fc → zone r = true) as HzFc.
  { intros r Hr. pose proof (own_below _ _ _ _ _ _ _ Hownc Hr).
    specialize (Hgec _ Hr). unfold zone. apply andb_true_iff.
    split; [by apply Nat.leb_le | by apply Nat.ltb_lt]. }
  assert (∀ r, length h2 ≤ r → zone r = false) as Hfresh.
  { intros r Hr. unfold zone. apply andb_false_iff. right.
    by apply Nat.ltb_ge. }
  destruct (own_within nowhere zone h2 0 cs custom Fc) as [n Hc];
    [done | done | done |].
  assert (own zone h2 3 m default F) as Hown2.
  { apply own_rezone; [| done]. by apply own_extend. }
  assert (∀ t : outcome value,
            sim h2 t (merge_loaded m (Some cs)) (λ h3 merged _, reads h3 m merged)
            → sim h1 t (merged_with m custom)
                (λ h3 merged _, reads h3 m merged)) as Hwith.
  { intros t. unfold sim, merged_with.
    by rewrite (run_bind_return _ _ _ _ _ E2). }
  apply Hwith. unfold merge_documents, merge_loaded.
  pose proof (truthy_view _ _ _ _ (within_view _ _ _ _ _ Hc)) as Ht.
  unfold sim at 1.
  rewrite (run_bind_return _ _ _ _ _ Ht).
  destruct (Py.truthy custom) eqn:Etruthy.
  - change ((mret cs ≫= λ custom0, Shared.merge_section m custom0 "base"
                                   ≫= λ _, Shared.merge_section m custom0 "devenv") h2)
      with ((Shared.merge_section m cs "base"
             ≫= λ _, Shared.merge_section m cs "devenv") h2).
    change (sim h2 (Initialize.merge_section default custom "base"
                    ≫= λ merged, Initialize.merge_section merged custom "devenv")
              (Shared.merge_section m cs "base"
               ≫= λ _, Shared.merge_section m cs "devenv")
              (λ h3 merged _, reads h3 m merged)).
    eapply sim_bind; [apply (merge_section_sim zone); eauto|].
    intros h3 v3 [] (Hown3 & Hfresh3 & Hc3).
    eapply sim_impl; [by apply (merge_section_sim zone)|].
    intros h4 v4 [] ((F4 & Hown4 & _) & _). by eapply own_reads.
  - change (∃ h3 y,
              (new (Dict [])
               ≫= λ custom0, Shared.merge_section m custom0 "base"
                             ≫= λ _, Shared.merge_section m custom0 "devenv") h2
              = (h3, Return y) ∧ reads h3 m default).
    exists (h2 ++ [Dict []]), tt. split.
    + cbv [new mbind run_bind].
      rewrite !merge_section_empty by apply heap_lookup_new. done.
    + eapply own_reads. by apply own_extend.
Qed.


(** *** What the merge does with an alias, and what it does without *)

(** C4 fails on the code: one list at two paths of the table. In
<<
    base:
      packages: &p [a]
    devenv:
      packages: *p
>>
    [base.packages] and [devenv.packages] are one list object. The
    document passes [validate_packages]. Merged with [base: {packages: [c]}]
    and [devenv: {packages: [d]}], it has [a, c, d] at both paths: each
    [extend] changes the one list. The default sequence followed by the
    custom sequence is [a, c] at [base.packages] and [a, d] at
    [devenv.packages], which is what the merge of the trees gives. *)
Theorem shared_list_extended_twice :
  ∃ default h merged,
    view 3 one_list_twice (Ref 3) = Some default ∧
    at_path default "base" "packages" = Some (VList [VStr "a"]) ∧
    at_path default "devenv" "packages" = Some (VList [VStr "a"]) ∧
    (∀ filename,
       validate_packages (items default) filename = ([], Return true)) ∧
    at_path custom_c_d "base" "packages" = Some (VList [VStr "c"]) ∧
    at_path custom_c_d "devenv" "packages" = Some (VList [VStr "d"]) ∧
    merged_with (Ref 3) custom_c_d one_list_twice = (h, Return tt) ∧
    view 3 h (Ref 3) = Some merged ∧
    at_path merged "base" "packages"
    = Some (VList [VStr "a"; VStr "c"; VStr "d"]) ∧
    at_path merged "devenv" "packages"
    = Some (VList [VStr "a"; VStr "c"; VStr "d"]) ∧
    ∃ merged',
      merge_documents default (Some custom_c_d) = Return merged' ∧
      at_path merged' "base" "packages" = Some (VList [VStr "a"; VStr "c"]) ∧
      at_path merged' "devenv" "packages" = Some (VList [VStr "a"; VStr "d"]).
Proof.
  eexists _, _, _. split; [reflexivity|].
  split; [reflexivity|]. split; [reflexivity|]. split; [reflexivity|].
  split; [reflexivity|]. split; [reflexivity|]. split; [reflexivity|].
  split; [reflexivity|]. split; [reflexivity|]. split; [reflexivity|].
  eexists. split; [reflexivity|]. split; reflexivity.
Qed.

(** C5 fails on the code: a list of the table that also stands under
    another key. In
<<
    common: &c [git]
    base:
      packages: *c
>>
    [common] and [base.packages] are one list object. The document passes
    [validate_packages]. Merged with [base: {packages: [vim]}], which has
    no [common], it has [git, vim] at [common]: the [extend] at
    [base.packages] changes the one list. [common] is no path of the
    table, and the merge of the trees leaves it as it is. *)
Theorem shared_list_changes_another_key :
  ∃ default h merged,
    view 3 common_list (Ref 2) = Some default ∧
    dict_get "common" (items default) = Some (VList [VStr "git"]) ∧
    (∀ filename,
       validate_packages (items default) filename = ([], Return true)) ∧
    dict_get "common" (items custom_vim) = None ∧
    merged_with (Ref 2) custom_vim common_list = (h, Return tt) ∧
    view 3 h (Ref 2) = Some merged ∧
    dict_get "common" (items merged)
    = Some (VList [VStr "git"; VStr "vim"]) ∧
    at_path merged "base" "packages"
    = Some (VList [VStr "git"; VStr "vim"]) ∧
    ∃ merged',
      merge_documents default (Some custom_vim) = Return merged' ∧
      dict_get "common" (items merged') = Some (VList [VStr "git"]).
Proof.
  eexists _, _, _. split; [reflexivity|].
  split; [reflexivity|]. split; [reflexivity|]. split; [reflexivity|].
  split; [reflexivity|]. split; [reflexivity|]. split; [reflexivity|].
  split; [reflexivity|].
  eexists. split; reflexivity.
Qed.

(** X19: without aliases the merge on the store is the merge on trees.
    Every document can be loaded as objects of its own, one for each list
    and each dict, and then reads as itself. Merged there with a custom
    document loaded in the same way, the store raises exactly what the
    merge of the two trees raises, and when that returns a document, the
    store returns and the default document's object reads as that
    document. Without a custom file nothing changes. *)
Theorem merge_loaded_refines (default custom : value) (h0 : heap) :
  ∃ h1 m,
    construct default h0 = (h1, Return m) ∧
    reads h1 m default ∧
    merge_loaded m None h1 = (h1, Return tt) ∧
    merge_documents default None = Return default ∧
    match merge_documents default (Some custom) with
    | Return merged =>
        ∃ h3, merged_with m custom h1 = (h3, Return tt) ∧ reads h3 m merged
    | Raise e => ∃ h3, merged_with m custom h1 = (h3, Raise e)
    end.
Proof.
  destruct (merge_loaded_construct default custom h0)
    as (h1 & m & E & Hr & Hsim).
  exists h1, m. split; [done|]. split; [done|]. split; [done|].
  split; [done|]. unfold sim in Hsim.
  destruct (merge_documents default (Some custom)) as [merged | e];
    [| done].
  destruct Hsim as (h3 & [] & Hm & Hr3). by exists h3.
Qed.

(** X5: the merge at the four paths of its table, for documents written
    without aliases. With the default and the custom document loaded as
    objects of their own, when the merge returns, the default document's
    object reads as a document that has, at each of [base.packages],
    [base.python_tools], [devenv.packages] and [devenv.python_tools]: the
    default's value where the custom document has nothing at that path,
    and otherwise the default's sequence, or the empty one if the default
    has nothing there, followed by the items of the custom value (the
    items of a sequence, the keys of a mapping, the characters of a
    string). So a path that only the custom document has is created. *)
Theorem merge_loaded_table (default custom : value) (h0 : heap)
    (section field : string) :
  (section, field) ∈ merge_spec →
  ∃ h1 m,
    construct default h0 = (h1, Return m) ∧
    ∀ h3, merged_with m custom h1 = (h3, Return tt) →
      ∃ merged,
        reads h3 m merged ∧
        match at_path custom section field with
        | None =>
            at_path merged section field = at_path default section field
        | Some src =>
            ∃ xs ys,
              (at_path default section field = Some (VList xs)
               ∨ at_path default section field = None ∧ xs = []) ∧
              Py.iterate src = Return ys ∧
              at_path merged section field = Some (VList (xs ++ ys))
        end.
Proof.
  intros Hspec.
  destruct (merge_loaded_construct default custom h0)
    as (h1 & m & E & Hr & Hsim).
  exists h1, m. split; [done|]. intros h3 Hm. unfold sim in Hsim.
  destruct (merge_documents default (Some custom)) as [merged | e] eqn:Et.
  - destruct Hsim as (h3' & [] & Hm' & Hr3).
    rewrite Hm in Hm'. injection Hm' as <-.
    exists merged. split; [done|].
    by apply MergeTable.merge_documents_table.
  - destruct Hsim as [h3' Hm']. rewrite Hm in Hm'. discriminate Hm'.
Qed.

Lemma merge_loaded_table_witness :
  ∃ h1 m,
    construct (Examples.packages_of [VStr "a"]) [] = (h1, Return m) ∧
    ∀ h3, merged_with m Samples.custom_tools h1 = (h3, Return tt) →
      ∃ merged,
        reads h3 m merged ∧
        at_path merged "base" "python_tools" = Some (VList [VStr "ruff"]).
Proof.
  destruct (merge_loaded_table (Examples.packages_of [VStr "a"])
              Samples.custom_tools [] "base" "python_tools")
    as (h1 & m & E & H); [compute_done|].
  exists h1, m. split; [exact E|]. intros h3 Hm.
  destruct (H h3 Hm) as (merged & Hr & Ht).
  exists merged. split; [exact Hr|].
  change (at_path Samples.custom_tools "base" "python_tools")
    with (Some (VList [VStr "ruff"])) in Ht.
  destruct Ht as (xs & ys & [Hxs | [_ ->]] & [= <-] & Hat);
    [discriminate Hxs | exact Hat].
Defined.

End SharedSpec.

(** ** The merge only appends *)

Module AppendSpec.
Import Py Initialize Shared.
Local Open Scope nat_scope.

Lemma grown_refl o : grown o o.
Proof. destruct o; cbn; by exists []; rewrite app_nil_r. Qed.

Lemma grown_trans o1 o2 o3 : grown o1 o2 → grown o2 o3 → grown o1 o3.
Proof.
  destruct o1, o2, o3; cbn; try done; intros H1 H2; by etrans.
Qed.

Lemma extended_refl h : extended h h.
Proof. intros r o Hr. exists o. split; [done | apply grown_refl]. Qed.

Lemma extended_trans h1 h2 h3 :
  extended h1 h2 → extended h2 h3 → extended h1 h3.
Proof.
  intros H1 H2 r o Hr. destruct (H1 _ _ Hr) as (o2 & Hr2 & Hg).
  destruct (H2 _ _ Hr2) as (o3 & Hr3 & Hg'). exists o3.
  split; [done | by eapply grown_trans].
Qed.

Lemma extended_new (h : heap) o : extended h (h ++ [o]).
Proof.
  intros r o' Hr. exists o'. split; [| apply grown_refl].
  by apply lookup_app_l_Some.
Qed.

Lemma extended_grow (h : heap) r o o' :
  h !! r = Some o → grown o o' → extended h (<[r := o']> h).
Proof.
  intros Hr Hg r' o1 Hr'. destruct (decide (r = r')) as [<- | Hne].
  - exists o'. split; [| congruence].
    apply list_lookup_insert_eq. by eapply lookup_lt_Some.
  - exists o1. split; [| apply grown_refl].
    etrans; [by apply list_lookup_insert_ne | done].
Qed.

Lemma appends_bind {A B} (m : run A) (f : A → run B) :
  appends m → (∀ a, appends (f a)) → appends (m ≫= f).
Proof.
  intros Hm Hf h. unfold mbind, run_bind. specialize (Hm h).
  destruct (m h) as [h1 [a | e]]; [| done].
  eapply extended_trans; [exact Hm | apply Hf].
Qed.

Lemma appends_ret {A} (a : A) : appends (mret a).
Proof. intros h. apply extended_refl. Qed.

Lemma appends_same {A} (m : run A) : (∀ h, (m h).1 = h) → appends m.
Proof. intros H h. rewrite H. apply extended_refl. Qed.

Lemma appends_contains k v : appends (Shared.contains k v).
Proof.
  apply appends_same. intros h. destruct v as [[| | |] | r]; try done.
  cbv [Shared.contains mbind run_bind read]. by destruct (object_at h r).
Qed.

Lemma appends_getitem v k : appends (Shared.getitem v k).
Proof.
  apply appends_same. intros h. destruct v as [c | r]; [done|].
  cbv [Shared.getitem mbind run_bind read].
  destruct (object_at h r) as [| items]; [done|]. by destruct (assoc k items).
Qed.

Lemma appends_truthy v : appends (Shared.truthy v).
Proof. apply appends_same. intros h. by destruct v. Qed.

Lemma appends_bound_extend v : appends (bound_extend v).
Proof.
  apply appends_same. intros h. destruct v as [c | r]; [done|].
  cbv [bound_extend mbind run_bind read]. by destruct (object_at h r).
Qed.

Lemma appends_iterate v : appends (Shared.iterate v).
Proof.
  apply appends_same. intros h. destruct v as [[| | |] | r]; try done.
  cbv [Shared.iterate mbind run_bind read]. by destruct (object_at h r).
Qed.

Lemma object_at_lookup (h : heap) r items :
  object_at h r = Dict items → h !! r = Some (Dict items).
Proof.
  unfold object_at. destruct (h !! r) as [o |]; cbn; [by intros -> | done].
Qed.

Lemma object_at_lookup_list (h : heap) r items :
  object_at h r = List items →
  h !! r = Some (List items) ∨ h !! r = None ∧ items = [].
Proof.
  unfold object_at. destruct (h !! r) as [o |]; cbn.
  - intros ->. by left.
  - intros [= <-]. by right.
Qed.

Lemma appends_setdefault v k empty : appends (Shared.setdefault v k empty).
Proof.
  intros h. destruct v as [c | r]; [apply extended_refl|].
  cbv [Shared.setdefault mbind run_bind read new].
  destruct (object_at h r) as [| items] eqn:Hr; [apply extended_refl|].
  apply object_at_lookup in Hr.
  destruct (assoc k items); [apply extended_new|].
  cbv [write mret run_ret]. cbn [fst].
  eapply extended_trans; [apply (extended_new h empty)|].
  eapply extended_grow; [by apply lookup_app_l_Some|]. cbn.
  by eexists.
Qed.

Lemma appends_extend r v : appends (extend r v).
Proof.
  unfold extend. apply appends_bind; [apply appends_iterate|]. intros ys h.
  cbv [mbind run_bind read write].
  destruct (object_at h r) as [items |] eqn:Hr; [| apply extended_refl].
  cbn [fst]. apply object_at_lookup_list in Hr as [Hr | [Hr ->]].
  - eapply extended_grow; [done|]. cbn. by eexists.
  - assert (<[r := List ([] ++ ys)]> h = h) as ->
      by (apply list_insert_ge; by apply lookup_ge_None).
    apply extended_refl.
Qed.

Lemma appends_merge_field merged custom section field :
  appends (Shared.merge_field merged custom section field).
Proof.
  unfold Shared.merge_field.
  apply appends_bind; [apply appends_getitem|]. intros csec.
  apply appends_bind; [apply appends_contains|]. intros [|];
    [| apply appends_ret].
  apply appends_bind; [apply appends_setdefault|]. intros sec.
  apply appends_bind; [apply appends_setdefault|]. intros _.
  apply appends_bind; [apply appends_getitem|]. intros msec.
  apply appends_bind; [apply appends_getitem|]. intros target.
  apply appends_bind; [apply appends_bound_extend|]. intros l.
  apply appends_bind; [apply appends_getitem|]. intros csec'.
  apply appends_bind; [apply appends_getitem|]. intros src.
  apply appends_extend.
Qed.

Lemma appends_merge_section merged custom section :
  appends (Shared.merge_section merged custom section).
Proof.
  unfold Shared.merge_section.
  apply appends_bind; [apply appends_contains|]. intros [|];
    [| apply appends_ret].
  apply appends_bind; [apply appends_merge_field|]. intros _.
  apply appends_merge_field.
Qed.

Lemma appends_new o : appends (new o).
Proof. intros h. apply extended_new. Qed.

Lemma appends_merge_loaded merged custom :
  appends (merge_loaded merged custom).
Proof.
  destruct custom as [custom |]; [| apply appends_ret].
  unfold merge_loaded.
  apply appends_bind; [apply appends_truthy|]. intros t.
  apply appends_bind.
  { destruct t; [apply appends_ret | apply appends_new]. }
  intros custom'.
  apply appends_bind; [apply appends_merge_section|]. intros _.
  apply appends_merge_section.
Qed.

(** X20: whatever the store holds, aliases or not, the merge only
    appends. When [merge_packages] has merged, or has ended with an
    exception on the way, every object that was there is still there; a
    list has the items it had, in their places, and more items may
    follow; a dict has the keys it had, each bound to what it was bound
    to, and more keys may follow. So an item is never removed, replaced or
    moved, and a key is never bound to another value; what a key is bound
    to may itself have grown. *)
Theorem merge_loaded_appends (merged : slot) (custom : option slot)
    (h : heap) :
  let h' := (merge_loaded merged custom h).1 in
  (∀ r items, h !! r = Some (List items) →
     ∃ more, h' !! r = Some (List (items ++ more))) ∧
  (∀ r items, h !! r = Some (Dict items) →
     ∃ more, h' !! r = Some (Dict (items ++ more)) ∧
             ∀ k v, assoc k items = Some v →
                    assoc k (items ++ more) = Some v).
Proof.
  intros h'. pose proof (appends_merge_loaded merged custom h) as H.
  fold h' in H. split.
  - intros r items Hr. destruct (H _ _ Hr) as ([items' |] & Hr' & Hg);
      [| done]. destruct Hg as [more ->]. by exists more.
  - intros r items Hr. destruct (H _ _ Hr) as ([| items'] & Hr' & Hg);
      [done|]. destruct Hg as [more ->]. exists more. split; [done|].
    intros k v. clear. induction items as [| [c s] items IH]; cbn; [done|].
    by destruct (is_str_key k c).
Qed.

End AppendSpec.

(** ** Runs of [main] *)

Module RunSpec.
Import Py PyFacts Initialize Examples Samples Properties MainSpec.

Lemma div_ne (p q : path) (c c' : string) :
  c ≠ c' → (p / c)%path ≠ (q / c')%path.
Proof.
  intros Hne H. unfold div in H. apply app_inj_tail in H as [_ H]. done.
Qed.

(** How [merge_packages] runs. *)
Lemma merge_packages_run parse pd pc po s :
  merge_packages parse pd pc po s
  = let banner := log_line "Merging package configurations..." false in
    match load parse s pd with
    | None => (s, ([banner], Raise FileNotFoundError))
    | Some (ParseError _) => (s, ([banner], Raise YAMLError))
    | Some (Loaded default) =>
        match load parse s pc with
        | Some (ParseError _) => (s, ([banner], Raise YAMLError))
        | doc =>
            let custom := match doc with
                          | Some (Loaded v) => Some v
                          | _ => None
                          end in
            match merge_documents default custom with
            | Return merged =>
                ({| dirs := dirs s;
                    files := <[po := Yaml (Loaded merged)]> (files s) |},
                 ([banner; log_line ("Created " +:+ name po) true], Return tt))
            | Raise e => (s, ([banner], Raise e))
            end
        end
    end.
Proof.
  unfold merge_packages, safe_load, read_yaml, path_exists, load.
  cbv [mbind cmd_bind mret cmd_ret say ret raise log print lift write].
  destruct (files s !! pd) as [[c | [msg | default]] |];
    cbn -[merge_documents]; try done;
    try destruct (parse c) as [msg | default]; cbn -[merge_documents];
    try done;
    destruct (files s !! pc) as [[c' | [msg | v]] |] eqn:Ec;
    cbn -[merge_documents]; rewrite ?Ec; cbn -[merge_documents]; try done;
    try destruct (parse c') as [msg | v]; cbn -[merge_documents]; try done;
    by destruct (merge_documents default _).
Qed.


Lemma validate_yaml_run parse p validator s :
  ∃ out r, validate_yaml parse p validator s = (s, (out, r)) ∧
    (r = Return true →
     ∃ data, load parse s p = Some (Loaded (VDict data)) ∧
             (validator data (name p)).2 = Return true).
Proof.
  cbv [validate_yaml mbind cmd_bind mret cmd_ret say read_yaml ret].
  destruct (load parse s p) as [[msg | [c | l | data]] |]; cbn;
    try (eexists _, _; split; [reflexivity | intros [=]]).
  destruct (validator data (name p)) as [out [[|] | e]] eqn:Ev; cbn;
    eexists _, _; (split; [reflexivity|]); intros H; try discriminate H.
  exists data. by rewrite Ev.
Qed.

Lemma create_compose_custom_run p s :
  ∃ out, create_compose_custom p s
         = ({| dirs := dirs s;
               files := <[p := Text compose_custom_content]> (files s) |},
            (out, Return tt)).
Proof. by eexists. Qed.

Lemma create_packages_custom_run p s :
  ∃ out, create_packages_custom p s
         = ({| dirs := dirs s;
               files := <[p := Text packages_custom_content]> (files s) |},
            (out, Return tt)).
Proof. by eexists. Qed.

Lemma touch_exist_ok_run p s :
  touch_exist_ok p s
  = ({| dirs := dirs s; files := touched p (files s) |}, ([], Return tt)).
Proof.
  unfold touch_exist_ok, touched. destruct s as [ds fs]. cbn.
  by destruct (fs !! p).
Qed.

Lemma generate_env_run parse repr h env_path packages_path suffix s :
  ∃ out,
    generate_env parse repr h env_path packages_path suffix s
    = ({| dirs := dirs s;
          files := <[env_path :=
                      Text (join NL (generate_env_lines repr h
                                       (load parse s packages_path) suffix)
                            +:+ NL)]> (files s) |},
       (out, Return tt)).
Proof.
  unfold generate_env.
  cbv [mbind cmd_bind mret cmd_ret say ret log print read_yaml write].
  destruct (get_uid_gid h). by eexists.
Qed.

Lemma touched_lookup_ne p q m : p ≠ q → touched p m !! q = m !! q.
Proof.
  intros Hne. unfold touched. destruct (m !! p); [done|].
  by rewrite lookup_insert_ne.
Qed.


(** The rule of sequencing, for a property of the final file system and
    outcome. *)
Lemma bind_spec {A B} (m : cmd A) (f : A → cmd B) (s : fs)
    (Q : fs → outcome B → Prop) :
  (∀ s1 out e, m s = (s1, (out, Raise e)) → Q s1 (Raise e)) →
  (∀ s1 out a, m s = (s1, (out, Return a)) → Q (f a s1).1 (f a s1).2.2) →
  Q ((m ≫= f) s).1 ((m ≫= f) s).2.2.
Proof.
  intros He Hr. unfold mbind, cmd_bind.
  destruct (m s) as [s1 [out [a | e]]].
  - specialize (Hr s1 out a eq_refl). by destruct (f a s1) as [s2 [out' r]].
  - by apply (He s1 out e).
Qed.

Lemma say_spec {A B} (m : io A) (f : A → cmd B) (s : fs)
    (Q : fs → outcome B → Prop) :
  (∀ out e, m = (out, Raise e) → Q s (Raise e)) →
  (∀ out a, m = (out, Return a) → Q (f a s).1 (f a s).2.2) →
  Q ((say m ≫= f) s).1 ((say m ≫= f) s).2.2.
Proof.
  intros He Hr. apply bind_spec; unfold say.
  - intros s1 out e [= <- ->]. by eapply He.
  - intros s1 out a [= <- ->]. by eapply Hr.
Qed.

Lemma scaffolded_present p content s :
  is_Some (files s !! p) → scaffolded p content s = s.
Proof. intros H. unfold scaffolded. by rewrite bool_decide_eq_true_2. Qed.

Lemma scaffolded_absent p content s :
  ¬ is_Some (files s !! p) →
  scaffolded p content s
  = {| dirs := dirs s; files := <[p := Text content]> (files s) |}.
Proof. intros H. unfold scaffolded. by rewrite bool_decide_eq_false_2. Qed.

Lemma scaffolded_dirs p content s : dirs (scaffolded p content s) = dirs s.
Proof. unfold scaffolded. by destruct (bool_decide _). Qed.

Lemma scaffolded_lookup_ne p content s q :
  p ≠ q → files (scaffolded p content s) !! q = files s !! q.
Proof.
  intros Hne. unfold scaffolded. destruct (bool_decide _); [done|].
  cbn. by rewrite lookup_insert_ne.
Qed.

Lemma load_scaffolded_ne parse p content s q :
  p ≠ q → load parse (scaffolded p content s) q = load parse s q.
Proof. intros Hne. unfold load. by rewrite scaffolded_lookup_ne. Qed.

Lemma main_run parse repr h dir suffix s :
  let docker := (dir / "docker")%path in
  let cc := (docker / "docker-compose.custom.yml")%path in
  let pd := (docker / "packages.default.yml")%path in
  let pc := (docker / "packages.custom.yml")%path in
  let pk := (docker / "packages.yml")%path in
  let env := (docker / ".env")%path in
  let s1 := scaffolded cc compose_custom_content s in
  let s2 := scaffolded pc packages_custom_content s1 in
  let run := main parse repr h dir suffix s in
  (run.2.2 ≠ Return 0 ∧ (run.2.2 = Return 1 ∨ ∃ e, run.2.2 = Raise e) ∧
   (run.1 = s ∨ run.1 = s1 ∨ run.1 = s2)) ∨
  (run.2.2 = Return 0 ∧ docker ∈ dirs s ∧
   ∃ data custom merged,
     load parse s pd = Some (Loaded (VDict data)) ∧
     (validate_packages data "packages.default.yml").2 = Return true ∧
     load parse s2 pc = Some (Loaded custom) ∧
     merge_documents (VDict data) (Some custom) = Return merged ∧
     dirs run.1 = dirs s ∧
     files run.1
     = <[env := Text (join NL (generate_env_lines repr h
                                 (Some (Loaded merged)) suffix) +:+ NL)]>
         (touched (home h / ".gitconfig")
            (touched (home h / ".netrc")
               (<[pk := Yaml (Loaded merged)]> (files s2))))).
Proof.
  intros docker cc pd pc pk env s1 s2 run. subst run.
  set (Q := λ (s' : fs) (r : outcome Z),
    (r ≠ Return 0 ∧ (r = Return 1 ∨ ∃ e, r = Raise e) ∧
     (s' = s ∨ s' = s1 ∨ s' = s2)) ∨
    (r = Return 0 ∧ docker ∈ dirs s ∧
     ∃ data custom merged,
       load parse s pd = Some (Loaded (VDict data)) ∧
       (validate_packages data "packages.default.yml").2 = Return true ∧
       load parse s2 pc = Some (Loaded custom) ∧
       merge_documents (VDict data) (Some custom) = Return merged ∧
       dirs s' = dirs s ∧
       files s'
       = <[env := Text (join NL (generate_env_lines repr h
                                   (Some (Loaded merged)) suffix) +:+ NL)]>
           (touched (home h / ".gitconfig")
              (touched (home h / ".netrc")
                 (<[pk := Yaml (Loaded merged)]> (files s2)))))).
  change (Q (main parse repr h dir suffix s).1
            (main parse repr h dir suffix s).2.2).
  assert (∀ s', (s' = s ∨ s' = s1 ∨ s' = s2) → Q s' (Return 1)) as Hone.
  { intros s' Hs. left. split; [done|]. split; [by left | done]. }
  assert (∀ s' e, (s' = s ∨ s' = s1 ∨ s' = s2) → Q s' (Raise e)) as Hraise.
  { intros s' e Hs. left. split; [done|]. split; [by eauto | done]. }
  unfold main. cbv zeta. fold docker. fold cc pd pc pk env.
  apply bind_spec; intros s0 out0 found E;
    cbv [is_dir ret] in E; injection E as <- <- E; [done|]. subst found.
  destruct (bool_decide (docker ∈ dirs s)) eqn:Hdir; cbn [negb].
  2:{ apply say_spec; [done|]. intros _ _ _. apply Hone. by left. }
  apply bool_decide_eq_true in Hdir.
  apply say_spec; intros out e E.
  { destruct (validate_host_returns h) as (? & ? & E'). congruence. }
  clear E out e. apply say_spec; [done|]. intros _ _ _.
  (* the default compose file *)
  apply bind_spec; intros t out r E;
    destruct (validate_yaml_run parse (docker / "docker-compose.default.yml")
                validate_compose s) as (o & r' & E' & _);
    rewrite E' in E; injection E as <- <- ->.
  { apply Hraise. by left. }
  destruct r; cbn [negb]; [| apply Hone; by left]. clear E' o.
  (* the custom compose file *)
  apply bind_spec; intros t out present E;
    cbv [path_exists ret] in E; injection E as <- <- E; [done|].
  apply bind_spec.
  { intros t out' e E'. apply Hraise.
    destruct present.
    - destruct (validate_yaml_run parse cc validate_compose_custom s)
        as (o & r' & E'' & _).
      rewrite E'' in E'. injection E' as <- _ _. by left.
    - exfalso. revert E'. unfold mbind, cmd_bind.
      by destruct (create_compose_custom_run cc s) as [o ->]. }
  intros t out' ok E'.
  assert (t = s1) as ->.
  { destruct present.
    - destruct (validate_yaml_run parse cc validate_compose_custom s)
        as (o & r' & E'' & _).
      rewrite E'' in E'. injection E' as <- _ _.
      symmetry. apply scaffolded_present. by apply bool_decide_eq_true in E.
    - revert E'. unfold mbind, cmd_bind.
      destruct (create_compose_custom_run cc s) as [o ->]. intros [= <- _ _].
      symmetry. apply scaffolded_absent. by apply bool_decide_eq_false in E. }
  clear E E' present out'.
  destruct ok; cbn [negb]; [| apply Hone; right; by left].
  apply say_spec; [done|]. intros _ _ _.
  (* the default packages file *)
  apply bind_spec; intros t out r E;
    destruct (validate_yaml_run parse pd validate_packages s1)
      as (o & r' & E' & Hpd);
    rewrite E' in E; injection E as <- <- ->.
  { apply Hraise. right. by left. }
  destruct r; cbn [negb]; [| apply Hone; right; by left].
  destruct (Hpd eq_refl) as (data & Hload & Hvalid). clear E' o Hpd.
  unfold pd in Hvalid. rewrite name_div in Hvalid.
  assert (load parse s pd = Some (Loaded (VDict data))) as Hload0.
  { rewrite <- Hload. symmetry. apply load_scaffolded_ne.
    apply div_ne. discriminate. }
  (* the custom packages file *)
  apply bind_spec; intros t out present E;
    cbv [path_exists ret] in E; injection E as <- <- E; [done|].
  apply bind_spec.
  { intros t out' e E'. apply Hraise.
    destruct present.
    - destruct (validate_yaml_run parse pc validate_packages_custom s1)
        as (o & r' & E'' & _).
      rewrite E'' in E'. injection E' as <- _ _. right. by left.
    - exfalso. revert E'. unfold mbind, cmd_bind.
      by destruct (create_packages_custom_run pc s1) as [o ->]. }
  intros t out' ok E'.
  assert (t = s2) as ->.
  { destruct present.
    - destruct (validate_yaml_run parse pc validate_packages_custom s1)
        as (o & r' & E'' & _).
      rewrite E'' in E'. injection E' as <- _ _.
      symmetry. apply scaffolded_present. by apply bool_decide_eq_true in E.
    - revert E'. unfold mbind, cmd_bind.
      destruct (create_packages_custom_run pc s1) as [o ->]. intros [= <- _ _].
      symmetry. apply scaffolded_absent. by apply bool_decide_eq_false in E. }
  clear E E' present out'.
  destruct ok; cbn [negb]; [| apply Hone; by right; right].
  (* the merge *)
  assert (load parse s2 pd = Some (Loaded (VDict data))) as Hload2.
  { rewrite <- Hload. apply load_scaffolded_ne. apply div_ne. discriminate. }
  assert (is_Some (load parse s2 pc)) as [doc Hdoc].
  { unfold load, s2, scaffolded.
    destruct (bool_decide (is_Some (files s1 !! pc))) eqn:Hpc.
    - apply bool_decide_eq_true in Hpc as [f ->]. by destruct f.
    - cbn. by rewrite lookup_insert_eq. }
  apply bind_spec; intros t out r E; rewrite merge_packages_run in E;
    cbv zeta in E; rewrite Hload2, Hdoc in E.
  { apply Hraise. right; right.
    destruct doc as [msg | custom]; [by injection E as <- _ _|].
    destruct (merge_documents (VDict data) (Some custom));
      [discriminate E | by injection E as <- _ _]. }
  destruct doc as [msg | custom]; [done|].
  destruct (merge_documents (VDict data) (Some custom)) as [merged | e]
    eqn:Hmerge; [| done].
  injection E as <- _ _. clear r.
  (* the files of the home directory, and the environment file *)
  apply bind_spec; intros t out' r E; rewrite touch_exist_ok_run in E;
    injection E as <- _ E; [done|]. clear r E.
  apply bind_spec; intros t out'' r E; rewrite touch_exist_ok_run in E;
    injection E as <- _ E; [done|]. clear r E. cbn [dirs files].
  apply say_spec; [done|]. intros _ _ _.
  apply bind_spec; intros t o3 r E; cbv [unlink_missing_ok ret] in E;
    injection E as <- _ E; [done|]. clear r E. cbn [dirs files].
  apply bind_spec; intros t o4 r E;
    match type of E with
    | generate_env ?parse ?repr ?h ?e ?p ?suffix ?s0 = _ =>
        destruct (generate_env_run parse repr h e p suffix s0) as [o' E'];
        rewrite E' in E
    end; injection E as <- _ E; [done|]. clear r E.
  apply say_spec; [done|]. intros _ _ _.
  right. split; [done|]. split; [done|].
  exists data, custom, merged. repeat (split; [done|]).
  cbn [mret cmd_ret fst dirs files]. split; [unfold s2, s1; by rewrite !scaffolded_dirs|].
  rewrite insert_delete_eq. do 3 f_equal.
  unfold load. cbn [files].
  rewrite lookup_delete_ne by (apply div_ne; discriminate).
  rewrite !touched_lookup_ne by (apply div_ne; discriminate).
  by rewrite lookup_insert_eq.
Qed.



Lemma scaffolded_lookup_eq p content s :
  files (scaffolded p content s) !! p
  = Some (default (Text content) (files s !! p)).
Proof.
  unfold scaffolded. destruct (bool_decide _) eqn:E.
  - by apply bool_decide_eq_true in E as [f ->].
  - apply bool_decide_eq_false in E. cbn. rewrite lookup_insert_eq.
    destruct (files s !! p) eqn:E'; [| done]. destruct E. by eexists.
Qed.

Lemma touched_lookup_eq p m :
  touched p m !! p = Some (default (Text "") (m !! p)).
Proof.
  unfold touched. destruct (m !! p) eqn:E; [by rewrite E|].
  by rewrite lookup_insert_eq.
Qed.

(** X8: what [main] does to the files it does not generate. It creates
    and removes no directory; and a path other than [packages.yml] and
    [.env] holds afterwards what it held before, unless nothing was there
    and it is the path of one of the two custom files, which then holds
    its scaffold, or of [~/.netrc] or [~/.gitconfig], which is then empty.
    So no file of the user is overwritten or deleted. *)
Theorem main_keeps_files parse repr (h : host) (dir : path) (suffix : string)
    (s : fs) :
  let docker := (dir / "docker")%path in
  let s' := (main parse repr h dir suffix s).1 in
  dirs s' = dirs s ∧
  ∀ p, p ≠ (docker / "packages.yml")%path → p ≠ (docker / ".env")%path →
    files s' !! p = files s !! p ∨
    files s !! p = None ∧
    (p = (docker / "docker-compose.custom.yml")%path ∧
     files s' !! p = Some (Text compose_custom_content) ∨
     p = (docker / "packages.custom.yml")%path ∧
     files s' !! p = Some (Text packages_custom_content) ∨
     (p = (home h / ".netrc")%path ∨ p = (home h / ".gitconfig")%path) ∧
     files s' !! p = Some (Text "")).
Proof.
  intros docker s'. subst s'.
  set (cc := (docker / "docker-compose.custom.yml")%path).
  set (pc := (docker / "packages.custom.yml")%path).
  set (s1 := scaffolded cc compose_custom_content s).
  set (s2 := scaffolded pc packages_custom_content s1).
  assert (∀ p, files s1 !! p = files s !! p ∨
               files s !! p = None ∧ p = cc ∧
               files s1 !! p = Some (Text compose_custom_content)) as H1.
  { intros p. destruct (decide (cc = p)) as [<- | Hne].
    - unfold s1. rewrite scaffolded_lookup_eq.
      destruct (files s !! cc); [by left | by right].
    - left. by apply scaffolded_lookup_ne. }
  assert (∀ p, files s2 !! p = files s !! p ∨
               files s !! p = None ∧
               (p = cc ∧ files s2 !! p = Some (Text compose_custom_content) ∨
                p = pc ∧ files s2 !! p = Some (Text packages_custom_content)))
    as H2.
  { intros p. destruct (decide (pc = p)) as [<- | Hne].
    - unfold s2. rewrite scaffolded_lookup_eq.
      assert (files s1 !! pc = files s !! pc) as ->.
      { apply scaffolded_lookup_ne, div_ne. discriminate. }
      destruct (files s !! pc); [by left | right; split; [done|]; by right].
    - unfold s2. rewrite scaffolded_lookup_ne by done.
      destruct (H1 p) as [? | (? & ? & ?)]; [by left|].
      right. split; [done|]. by left. }
  assert (dirs s2 = dirs s) as Hd2.
  { unfold s2, s1. by rewrite !scaffolded_dirs. }
  destruct (main_run parse repr h dir suffix s)
    as [(_ & _ & [-> | [-> | ->]]) |
        (_ & _ & data & custom & merged & _ & _ & _ & _ & Hdirs & Hfiles)];
    fold docker; fold cc pc; fold s1; fold s2.
  - split; [done|]. intros p _ _. by left.
  - split; [apply scaffolded_dirs|]. intros p _ _.
    destruct (H1 p) as [? | (? & ? & ?)]; [by left|].
    right. split; [done|]. by left.
  - split; [done|]. intros p _ _.
    destruct (H2 p) as [? | (? & [[? ?] | [? ?]])]; [by left | |];
      (right; split; [done|]); [by left | right; by left].
  - split; [done|]. intros p Hpk Henv.
    fold docker in Hfiles. fold cc pc in Hfiles. fold s1 in Hfiles.
    fold s2 in Hfiles. rewrite Hfiles.
    rewrite lookup_insert_ne by done.
    destruct (decide ((home h / ".gitconfig")%path = p)) as [<- | Hg].
    { rewrite touched_lookup_eq.
      rewrite touched_lookup_ne by (apply div_ne; discriminate).
      rewrite lookup_insert_ne by (apply div_ne; discriminate).
      unfold s2, s1.
      rewrite !scaffolded_lookup_ne by (apply div_ne; discriminate).
      destruct (files s !! (home h / ".gitconfig")%path); [by left|].
      right. split; [done|]. right; right. split; [by right | done]. }
    rewrite touched_lookup_ne by done.
    destruct (decide ((home h / ".netrc")%path = p)) as [<- | Hn].
    { rewrite touched_lookup_eq.
      rewrite lookup_insert_ne by (apply div_ne; discriminate).
      unfold s2, s1.
      rewrite !scaffolded_lookup_ne by (apply div_ne; discriminate).
      destruct (files s !! (home h / ".netrc")%path); [by left|].
      right. split; [done|]. right; right. split; [by left | done]. }
    rewrite touched_lookup_ne by done.
    rewrite lookup_insert_ne by done.
    destruct (H2 p) as [? | (? & [[? ?] | [? ?]])]; [by left | |];
      (right; split; [done|]); [by left | right; by left].
Qed.












End RunSpec.

(** ** What [main] reads *)

Module InputsSpec.
Import Py PyFacts Initialize Examples Samples Properties MainSpec RunSpec.

Section Reads.
Context (ds : list path).

Lemma alike_weaken ps ps' s t :
  (∀ p, p ∈ ps' → p ∈ ps) → alike ds ps s t → alike ds ps' s t.
Proof. intros Hsub [Hd Hp]. split; [done|]. intros p Hin. by apply Hp, Hsub. Qed.

Lemma reads_only_bind {A B} pre (mid : A → list path) (post : B → list path)
    (m : cmd A) (f : A → cmd B) :
  reads_only ds pre mid m →
  (∀ a, reads_only ds (mid a) post (f a)) →
  reads_only ds pre post (m ≫= f).
Proof.
  intros Hm Hf s t Hst. destruct (Hm s t Hst) as [E Hpost].
  unfold mbind, cmd_bind.
  destruct (m s) as [s1 [out [a | e]]], (m t) as [t1 [out' r']];
    cbn [fst snd] in *; injection E as <- <-; [| done].
  specialize (Hpost out a eq_refl).
  destruct (Hf a s1 t1 Hpost) as [E' Hpost'].
  destruct (f a s1) as [s2 [out2 r2]], (f a t1) as [t2 [out2' r2']].
  cbn [fst snd] in *. injection E' as <- <-. split; [done|].
  intros o b [= _ ->]. by eapply Hpost'.
Qed.

Lemma reads_only_weaken {A} pre pre' (post post' : A → list path) (m : cmd A) :
  (∀ p, p ∈ pre → p ∈ pre') →
  (∀ a p, p ∈ post' a → p ∈ post a) →
  reads_only ds pre post m → reads_only ds pre' post' m.
Proof.
  intros Hpre Hpost Hm s t Hst.
  destruct (Hm s t (alike_weaken _ _ _ _ Hpre Hst)) as [E H].
  split; [done|]. intros out a Ha. eapply alike_weaken; [apply Hpost|].
  by eapply H.
Qed.

Lemma reads_only_ret {A} pre (post : A → list path) (a : A) :
  (∀ p, p ∈ post a → p ∈ pre) → reads_only ds pre post (mret a).
Proof.
  intros Hsub s t Hst. split; [done|]. intros out b [= _ <-].
  by eapply alike_weaken.
Qed.

Lemma reads_only_say {A} pre (m : io A) : reads_only ds pre (λ _, pre) (say m).
Proof. intros s t Hst. split; [done|]. by intros. Qed.

Lemma reads_only_is_dir pre d :
  d ∈ ds → reads_only ds pre (λ _, pre) (is_dir d).
Proof.
  intros Hd s t Hst. split; [| by intros].
  unfold is_dir, ret. cbn. do 2 f_equal. apply bool_decide_ext.
  by apply Hst.
Qed.

Lemma reads_only_path_exists pre p :
  p ∈ pre → reads_only ds pre (λ _, pre) (path_exists p).
Proof.
  intros Hp s t Hst. split; [| by intros].
  unfold path_exists, ret. cbn. destruct Hst as [_ Hst]. by rewrite (Hst p Hp).
Qed.

Lemma reads_only_validate_yaml parse pre p validator :
  p ∈ pre → reads_only ds pre (λ _, pre) (validate_yaml parse p validator).
Proof.
  intros Hp s t Hst.
  assert (load parse s p = load parse t p) as Hload.
  { unfold load. destruct Hst as [_ Hst]. by rewrite (Hst p Hp). }
  split.
  - cbv [validate_yaml mbind cmd_bind mret cmd_ret say read_yaml ret].
    rewrite Hload.
    destruct (load parse t p) as [[msg | [c | l | data]] |]; cbn; try done.
    by destruct (validator data (name p)) as [out [[|] | e]].
  - intros _ _ _. by rewrite !validate_yaml_fs.
Qed.

Lemma alike_write pre p f s t :
  alike ds pre s t → alike ds (p :: pre) (write p f s).1 (write p f t).1.
Proof.
  intros [Hd Hp]. split; [done|]. intros q Hq. cbn.
  destruct (decide (p = q)) as [<- | Hne]; [by rewrite !lookup_insert_eq|].
  rewrite !lookup_insert_ne by done. apply Hp.
  apply elem_of_cons in Hq as [-> | Hq]; done.
Qed.

Lemma reads_only_create_compose_custom pre p :
  reads_only ds pre (λ _, p :: pre) (create_compose_custom p).
Proof. intros s t Hst. split; [done|]. intros _ _ _. by apply alike_write. Qed.

Lemma reads_only_create_packages_custom pre p :
  reads_only ds pre (λ _, p :: pre) (create_packages_custom p).
Proof. intros s t Hst. split; [done|]. intros _ _ _. by apply alike_write. Qed.

Lemma reads_only_merge_packages parse pre pd pc po :
  pd ∈ pre → pc ∈ pre →
  reads_only ds pre (λ _, po :: pre) (merge_packages parse pd pc po).
Proof.
  intros Hpd Hpc s t Hst.
  assert (load parse s pd = load parse t pd) as Hd.
  { unfold load. destruct Hst as [_ Hst]. by rewrite (Hst pd Hpd). }
  assert (load parse s pc = load parse t pc) as Hc.
  { unfold load. destruct Hst as [_ Hst]. by rewrite (Hst pc Hpc). }
  rewrite !merge_packages_run. cbv zeta. rewrite Hd, Hc.
  destruct (load parse t pd) as [[msg | default] |]; [done | | done].
  destruct (load parse t pc) as [[msg | v] |]; [done | |].
  - destruct (merge_documents default (Some v)) as [merged | e]; [| done].
    split; [done|]. intros _ _ _.
    by apply (alike_write pre po (Yaml (Loaded merged))).
  - destruct (merge_documents default None) as [merged | e]; [| done].
    split; [done|]. intros _ _ _.
    by apply (alike_write pre po (Yaml (Loaded merged))).
Qed.

Lemma reads_only_touch pre p :
  reads_only ds pre (λ _, pre) (touch_exist_ok p).
Proof.
  intros s t Hst. rewrite !touch_exist_ok_run. split; [done|].
  intros _ _ _. destruct Hst as [Hd Hp]. split; [done|]. intros q Hq. cbn.
  destruct (decide (p = q)) as [<- | Hne].
  - by rewrite !touched_lookup_eq, (Hp p Hq).
  - rewrite !touched_lookup_ne by done. by apply Hp.
Qed.

Lemma reads_only_unlink pre p :
  reads_only ds pre (λ _, pre) (unlink_missing_ok p).
Proof.
  intros s t [Hd Hp]. split; [done|]. intros _ _ _. split; [done|].
  intros q Hq. cbn. destruct (decide (p = q)) as [<- | Hne].
  - by rewrite !lookup_delete_eq.
  - rewrite !lookup_delete_ne by done. by apply Hp.
Qed.

Lemma reads_only_generate_env parse repr h pre env_path packages_path suffix :
  packages_path ∈ pre →
  reads_only ds pre (λ _, env_path :: pre)
    (generate_env parse repr h env_path packages_path suffix).
Proof.
  intros Hpk s t Hst.
  assert (load parse s packages_path = load parse t packages_path) as Hload.
  { unfold load. destruct Hst as [_ Hst]. by rewrite (Hst _ Hpk). }
  unfold generate_env.
  cbv [mbind cmd_bind mret cmd_ret say ret log print read_yaml].
  rewrite Hload. destruct (get_uid_gid h) as [uid gid]. split; [done|].
  intros _ _ _. by apply alike_write.
Qed.

End Reads.

Ltac subset :=
  let p := fresh "p" in
  let Hp := fresh "Hp" in
  intros; cbn;
  match goal with
  | Hp : ?p ∈ _ |- ?p ∈ _ =>
      repeat (apply elem_of_cons in Hp as [-> | Hp]; [solve_elem |]);
      by apply elem_of_nil in Hp
  end.

(** [main] reads the [docker] directory and the four configuration files
    in it, and nothing else of the file system. *)
Lemma main_reads_only parse repr h dir suffix :
  let docker := (dir / "docker")%path in
  let inputs := [(docker / "docker-compose.default.yml")%path;
                 (docker / "docker-compose.custom.yml")%path;
                 (docker / "packages.default.yml")%path;
                 (docker / "packages.custom.yml")%path] in
  reads_only [docker] inputs
    (λ code, if code =? 0
             then (docker / ".env")%path :: (docker / "packages.yml")%path
                  :: inputs
             else inputs)
    (main parse repr h dir suffix).
Proof.
  intros docker inputs. unfold main. cbv zeta. fold docker.
  eapply reads_only_bind; [apply reads_only_is_dir; solve_elem |].
  intros [|]; cbv beta; cbn [negb].
  2:{ eapply reads_only_bind; [apply reads_only_say|]. intros ?; cbv beta.
      apply reads_only_ret. subset. }
  eapply reads_only_bind; [apply reads_only_say|]. intros ?; cbv beta.
  eapply reads_only_bind; [apply reads_only_say|]. intros ?; cbv beta.
  eapply reads_only_bind;
    [apply reads_only_validate_yaml; unfold inputs; solve_elem |].
  intros [|]; cbv beta; cbn [negb]; [| apply reads_only_ret; subset].
  eapply reads_only_bind;
    [apply reads_only_path_exists; unfold inputs; solve_elem |].
  intros present; cbv beta.
  eapply (reads_only_bind _ _ (λ _, inputs)).
  { destruct present.
    - apply reads_only_validate_yaml; unfold inputs; solve_elem.
    - eapply reads_only_bind; [apply reads_only_create_compose_custom|].
      intros ?; cbv beta. apply reads_only_ret. unfold inputs. subset. }
  intros [|]; cbv beta; cbn [negb]; [| apply reads_only_ret; subset].
  eapply reads_only_bind; [apply reads_only_say|]. intros ?; cbv beta.
  eapply reads_only_bind;
    [apply reads_only_validate_yaml; unfold inputs; solve_elem |].
  intros [|]; cbv beta; cbn [negb]; [| apply reads_only_ret; subset].
  eapply reads_only_bind;
    [apply reads_only_path_exists; unfold inputs; solve_elem |].
  intros present'; cbv beta.
  eapply (reads_only_bind _ _ (λ _, inputs)).
  { destruct present'.
    - apply reads_only_validate_yaml; unfold inputs; solve_elem.
    - eapply reads_only_bind; [apply reads_only_create_packages_custom|].
      intros ?; cbv beta. apply reads_only_ret. unfold inputs. subset. }
  intros [|]; cbv beta; cbn [negb]; [| apply reads_only_ret; subset].
  eapply reads_only_bind;
    [apply reads_only_merge_packages; unfold inputs; solve_elem |].
  intros ?; cbv beta.
  eapply reads_only_bind; [apply reads_only_touch|]. intros ?; cbv beta.
  eapply reads_only_bind; [apply reads_only_touch|]. intros ?; cbv beta.
  eapply reads_only_bind; [apply reads_only_say|]. intros ?; cbv beta.
  eapply reads_only_bind; [apply reads_only_unlink|]. intros ?; cbv beta.
  eapply reads_only_bind; [apply reads_only_generate_env; solve_elem |].
  intros ?; cbv beta.
  eapply reads_only_bind; [apply reads_only_say|]. intros ?; cbv beta.
  apply reads_only_ret. unfold inputs. subset.
Qed.

(** X12: what a run of [main] depends on. On two file systems that
    agree on whether the [docker] directory exists and on the four
    configuration files in it, [main] prints the same lines and ends the
    same way, whatever else the two hold, a [packages.yml] or a [.env]
    of an earlier run included; and when it returns 0 it leaves the same
    [packages.yml] and the same [.env] in both. *)
Theorem main_depends_on_inputs parse repr (h : host) (dir : path)
    (suffix : string) (s t : fs) :
  let docker := (dir / "docker")%path in
  (docker ∈ dirs s ↔ docker ∈ dirs t) →
  (∀ name,
     name ∈ ["docker-compose.default.yml"; "docker-compose.custom.yml";
             "packages.default.yml"; "packages.custom.yml"] →
     files s !! (docker / name)%path = files t !! (docker / name)%path) →
  let run_s := main parse repr h dir suffix s in
  let run_t := main parse repr h dir suffix t in
  run_s.2 = run_t.2 ∧
  (run_s.2.2 = Return 0 →
   files run_s.1 !! (docker / "packages.yml")%path
   = files run_t.1 !! (docker / "packages.yml")%path ∧
   files run_s.1 !! (docker / ".env")%path
   = files run_t.1 !! (docker / ".env")%path).
Proof.
  intros docker Hdir Hfiles run_s run_t.
  destruct (main_reads_only parse repr h dir suffix s t) as [E Hpost].
  { split.
    - intros d ->%list_elem_of_singleton. exact Hdir.
    - intros p Hp.
      repeat (apply elem_of_cons in Hp as [-> | Hp];
              [apply Hfiles; solve_elem |]).
      by apply elem_of_nil in Hp. }
  fold docker in Hpost. fold run_s run_t in E, Hpost. split; [done|].
  intros Hr. destruct run_s.2 as [out r] eqn:E2. cbn [snd] in Hr. subst r.
  destruct (Hpost out 0 eq_refl) as [_ Hp]. cbn in Hp.
  split; apply Hp; solve_elem.
Qed.

Lemma main_depends_on_inputs_witness :
  (main no_parse no_repr alice_no_docker devcontainer_dir ""
        (docker_files (packages_of [VStr "a"]))).2
  = (main no_parse no_repr alice_no_docker devcontainer_dir ""
          (docker_files_stale (packages_of [VStr "a"]))).2.
Proof.
  apply (main_depends_on_inputs no_parse no_repr alice_no_docker
           devcontainer_dir "" (docker_files (packages_of [VStr "a"]))
           (docker_files_stale (packages_of [VStr "a"]))).
  - reflexivity.
  - intros name Hn.
    repeat (apply elem_of_cons in Hn as [-> | Hn];
            [vm_compute; reflexivity |]).
    by apply elem_of_nil in Hn.
Defined.

Lemma fs_eq (s t : fs) : dirs s = dirs t → files s = files t → s = t.
Proof. destruct s, t. cbn. by intros -> ->. Qed.

(** X13: a second run of [main] changes nothing. When [main] returns 0
    on a [docker] directory that has both custom files, running it again
    on the files it left prints the same lines, returns 0 and leaves every
    file and directory as the first run left them. *)
Theorem main_again parse repr (h : host) (dir : path) (suffix : string)
    (s s' : fs) (out : list string) :
  let docker := (dir / "docker")%path in
  main parse repr h dir suffix s = (s', (out, Return 0)) →
  is_Some (files s !! (docker / "docker-compose.custom.yml")%path) →
  is_Some (files s !! (docker / "packages.custom.yml")%path) →
  main parse repr h dir suffix s' = (s', (out, Return 0)).
Proof.
  intros docker Hrun Hcc Hpc.
  set (F := λ (merged : value) (m : gmap path file),
         <[(docker / ".env")%path :=
             Text (join NL (generate_env_lines repr h (Some (Loaded merged))
                              suffix) +:+ NL)]>
           (touched (home h / ".gitconfig")
              (touched (home h / ".netrc")
                 (<[(docker / "packages.yml")%path := Yaml (Loaded merged)]>
                    m)))).
  assert (∀ merged m p,
            F merged m !! p
            = if decide (p = (docker / ".env")%path) then
                Some (Text (join NL (generate_env_lines repr h
                                       (Some (Loaded merged)) suffix) +:+ NL))
              else if decide (p = (home h / ".gitconfig")%path) then
                Some (default (Text "") (m !! p))
              else if decide (p = (home h / ".netrc")%path) then
                Some (default (Text "") (m !! p))
              else if decide (p = (docker / "packages.yml")%path) then
                Some (Yaml (Loaded merged))
              else m !! p) as HF.
  { intros merged m p. unfold F.
    destruct (decide (p = (docker / ".env")%path)) as [-> | H1];
      [by rewrite lookup_insert_eq|].
    rewrite lookup_insert_ne by done.
    destruct (decide (p = (home h / ".gitconfig")%path)) as [-> | H2].
    { rewrite touched_lookup_eq.
      rewrite touched_lookup_ne by (apply div_ne; discriminate).
      by rewrite lookup_insert_ne by (apply div_ne; discriminate). }
    rewrite touched_lookup_ne by done.
    destruct (decide (p = (home h / ".netrc")%path)) as [-> | H3].
    { rewrite touched_lookup_eq.
      by rewrite lookup_insert_ne by (apply div_ne; discriminate). }
    rewrite touched_lookup_ne by done.
    destruct (decide (p = (docker / "packages.yml")%path)) as [-> | H4];
      [by rewrite lookup_insert_eq|].
    by rewrite lookup_insert_ne. }
  (* the first run *)
  destruct (main_run parse repr h dir suffix s)
    as [(Hne & _) |
        (_ & Hdir & data & custom & merged & Hpd & _ & Hcustom & Hmerge
         & Hdirs & Hfiles)];
    rewrite Hrun in *; cbn [fst snd] in *; [done|].
  fold docker in Hdir, Hpd, Hcustom, Hfiles.
  rewrite (scaffolded_present (docker / "docker-compose.custom.yml")) in *
    by done.
  rewrite (scaffolded_present (docker / "packages.custom.yml")) in * by done.
  fold (F merged (files s)) in Hfiles.
  assert (∀ name,
            name ∈ ["docker-compose.default.yml"; "docker-compose.custom.yml";
                    "packages.default.yml"; "packages.custom.yml"] →
            files s !! (docker / name)%path = files s' !! (docker / name)%path)
    as Hsame.
  { intros name Hn. rewrite Hfiles, HF.
    repeat (apply elem_of_cons in Hn as [-> | Hn];
            [repeat (destruct (decide _) as [Heq | _];
                     [by apply div_ne in Heq |]); done |]).
    by apply elem_of_nil in Hn. }
  (* the second run ends as the first *)
  destruct (main_reads_only parse repr h dir suffix s s') as [E _].
  { split.
    - intros d ->%list_elem_of_singleton. by rewrite Hdirs.
    - intros p Hp.
      repeat (apply elem_of_cons in Hp as [-> | Hp];
              [apply Hsame; solve_elem |]).
      by apply elem_of_nil in Hp. }
  rewrite Hrun in E. cbn [snd] in E.
  destruct (main_run parse repr h dir suffix s')
    as [(Hne & _) |
        (_ & _ & data' & custom' & merged' & Hpd' & _ & Hcustom' & Hmerge'
         & Hdirs' & Hfiles')];
    [by rewrite <- E in Hne |].
  fold docker in Hpd', Hcustom', Hfiles'.
  rewrite (scaffolded_present (docker / "docker-compose.custom.yml")) in *
    by (rewrite <- Hsame; [done | solve_elem]).
  rewrite (scaffolded_present (docker / "packages.custom.yml")) in *
    by (rewrite <- Hsame; [done | solve_elem]).
  assert (merged' = merged) as ->.
  { unfold load in *.
    rewrite <- (Hsame "packages.default.yml"), Hpd in Hpd' by solve_elem.
    rewrite <- (Hsame "packages.custom.yml"), Hcustom in Hcustom'
      by solve_elem.
    injection Hpd' as <-. injection Hcustom' as <-. congruence. }
  fold (F merged (files s')) in Hfiles'.
  destruct (main parse repr h dir suffix s') as [s'' [out' r']].
  cbn [fst snd] in *. injection E as <- <-. f_equal.
  apply fs_eq; [done|]. rewrite Hfiles'. apply map_eq. intros p.
  rewrite Hfiles, !HF.
  repeat (destruct (decide _) as [-> | _]; [done |]). done.
Qed.

Lemma main_again_witness :
  ∃ s' out,
    main no_parse no_repr alice_no_docker devcontainer_dir ""
         (docker_files (packages_of [VStr "a"])) = (s', (out, Return 0)) ∧
    main no_parse no_repr alice_no_docker devcontainer_dir "" s'
    = (s', (out, Return 0)).
Proof.
  assert ((main no_parse no_repr alice_no_docker devcontainer_dir ""
                (docker_files (packages_of [VStr "a"]))).2.2 = Return 0) as Hr.
  { vm_compute. reflexivity. }
  destruct (main no_parse no_repr alice_no_docker devcontainer_dir ""
              (docker_files (packages_of [VStr "a"])))
    as [s' [out r]] eqn:E.
  cbn [snd] in Hr. subst r. exists s', out. split; [reflexivity|].
  apply (main_again _ _ _ _ _ _ _ _ E).
  - vm_compute. eexists. reflexivity.
  - vm_compute. eexists. reflexivity.
Defined.

End InputsSpec.

(** ** The lines of the environment file *)

Module EnvLinesSpec.
Import Py PyFacts Initialize Examples Samples EnvSpec.














End EnvLinesSpec.

(** ** The shell configuration of [post_start.py] *)

Module ShellSetupSpec.
Import Py PyFacts ShellSetup.
Import (notations) Initialize.

Lemma enable_returns bashrc :
  ∃ out, (PostStart.enable_vscode_profile bashrc).2 = (out, Return tt).
Proof.
  unfold PostStart.enable_vscode_profile.
  destruct (substring_of ".vscode_profile" (default "" bashrc));
    by eexists.
Qed.

(** How [main] runs: the disk it leaves, and that it returns 0. *)
Lemma shell_main_run (c : container) (s : disk) :
  let m := <[(home c / ".vscode_profile")%path := vscode_profile_content]>
             (<[(home c / ".inputrc")%path := inputrc_content]> (texts s)) in
  let ts := match (PostStart.enable_vscode_profile
                     (m !! (home c / ".bashrc")%path)).1 with
            | Some t => <[(home c / ".bashrc")%path := t]> m
            | None => m
            end in
  let ds := dirs s ∪ list_to_set
                       (ancestors (home c / ".local" / "share" / "bash")%path) in
  ∃ out,
    main c s
    = ({| dirs := ds;
          texts := ts;
          installs :=
            installs s ++
            match get_git_root c with
            | Some root =>
                if bool_decide
                     (is_Some (ts !! (root / ".pre-commit-config.yaml")%path))
                   || bool_decide ((root / ".pre-commit-config.yaml")%path ∈ ds)
                then [root] else []
            | None => []
            end |},
       (out, Return 0)).
Proof.
  cbv zeta. unfold main, configure_inputrc, create_vscode_profile,
    enable_vscode_profile, setup_precommit.
  cbv [mbind sh_bind mret sh_ret say write_text mkdir_parents path_exists
       run_pre_commit_install ret log PostStart.log print].
  cbn [dirs texts installs].
  destruct (enable_returns
              (<[(home c / ".vscode_profile")%path := vscode_profile_content]>
                 (<[(home c / ".inputrc")%path := inputrc_content]> (texts s))
               !! (home c / ".bashrc")%path)) as [out0 E].
  destruct (PostStart.enable_vscode_profile _) as [content [out0' r0]].
  cbn [fst snd] in *. injection E as -> ->.
  destruct (get_git_root c) as [root |]; cbn [dirs texts installs].
  - destruct (bool_decide _ || bool_decide _); cbn [negb];
      [destruct (pre_commit_install c) |]; unfold warn, print;
      cbn [dirs texts installs]; rewrite ?app_nil_r; by eexists.
  - unfold warn, print. cbv beta iota. rewrite (app_nil_r (installs s)).
    by eexists.
Qed.


Lemma prefix_refl s : String.prefix s s = true.
Proof.
  pose proof (prefix_app s "") as H. by rewrite app_empty_r in H.
Qed.

(** What [enable_vscode_profile] leaves in [.bashrc]. *)
Lemma enable_content bashrc :
  ∃ t, (PostStart.enable_vscode_profile bashrc).1 = Some t ∧
       substring_of ".vscode_profile" t = true ∧
       String.prefix (default "" bashrc) t = true.
Proof.
  unfold PostStart.enable_vscode_profile.
  destruct (substring_of ".vscode_profile" (default "" bashrc)) eqn:E;
    cbn [fst].
  - destruct bashrc as [b |]; [| discriminate E]. exists b.
    split; [done|]. split; [done|]. apply prefix_refl.
  - eexists. split; [done|].
    split; [apply PostStartSpec.source_line_mentions_profile|].
    apply prefix_app.
Qed.

Lemma enable_again t :
  substring_of ".vscode_profile" t = true →
  (PostStart.enable_vscode_profile (Some t)).1 = Some t.
Proof. intros H. unfold PostStart.enable_vscode_profile. cbn. by rewrite H. Qed.

Lemma ancestors_self (p : path) : p ≠ [] → p ∈ ancestors p.
Proof.
  intros Hp. unfold ancestors. apply list_elem_of_fmap. exists (length p).
  split; [by rewrite firstn_all|].
  apply elem_of_seq. destruct p; [done|]. cbn. lia.
Qed.

Lemma ancestors_div (p q : path) (c : string) :
  q ∈ ancestors p → q ∈ ancestors (p / c)%path.
Proof.
  unfold ancestors, Initialize.div.
  intros (n & -> & [Hn1 Hn2]%elem_of_seq)%list_elem_of_fmap.
  apply list_elem_of_fmap. exists n. split.
  - rewrite take_app_le; [done | lia].
  - apply elem_of_seq. rewrite length_app. cbn. lia.
Qed.

Lemma div_not_nil (p : path) (c : string) : (p / c)%path ≠ [].
Proof. unfold Initialize.div. by destruct p. Qed.

(** X16: what [main] of [post_start.py] leaves on the disk. It returns 0;
    afterwards [~/.inputrc] and [~/.vscode_profile] hold the two fixed
    texts, [~/.bashrc] mentions [.vscode_profile] and starts with what it
    held before, and [~/.local], [~/.local/share] and
    [~/.local/share/bash], the directory of the history file that the
    profile names, are directories; the script writes no other text file
    and removes no directory. *)
Theorem main_configures_shell (c : container) (s : disk) :
  let s' := (main c s).1 in
  (main c s).2.2 = Return 0 ∧
  texts s' !! (home c / ".inputrc")%path = Some inputrc_content ∧
  texts s' !! (home c / ".vscode_profile")%path = Some vscode_profile_content ∧
  (∃ t, texts s' !! (home c / ".bashrc")%path = Some t ∧
        substring_of ".vscode_profile" t = true ∧
        String.prefix (default "" (texts s !! (home c / ".bashrc")%path)) t
        = true) ∧
  substring_of "export HISTFILE=" vscode_profile_content = true ∧
  substring_of "$HOME/.local/share/bash/history" vscode_profile_content = true ∧
  ((home c / ".local")%path ∈ dirs s' ∧
   (home c / ".local" / "share")%path ∈ dirs s' ∧
   (home c / ".local" / "share" / "bash")%path ∈ dirs s') ∧
  dirs s ⊆ dirs s' ∧
  (∀ p, p ∉ [(home c / ".inputrc")%path; (home c / ".vscode_profile")%path;
             (home c / ".bashrc")%path] →
        texts s' !! p = texts s !! p).
Proof.
  cbv zeta. destruct (shell_main_run c s) as [out ->]. cbn [fst snd dirs texts].
  set (m := <[(home c / ".vscode_profile")%path := vscode_profile_content]>
              (<[(home c / ".inputrc")%path := inputrc_content]> (texts s))).
  assert (m !! (home c / ".bashrc")%path = texts s !! (home c / ".bashrc")%path)
    as Hb.
  { unfold m. by rewrite !lookup_insert_ne by (apply RunSpec.div_ne; discriminate). }
  destruct (enable_content (m !! (home c / ".bashrc")%path))
    as (t & -> & Hsub & Hpre).
  split; [done|]. split; [| split; [| split; [| split; [| split; [| split; [| split]]]]]].
  - rewrite lookup_insert_ne by (apply RunSpec.div_ne; discriminate).
    unfold m. rewrite lookup_insert_ne by (apply RunSpec.div_ne; discriminate).
    by rewrite lookup_insert_eq.
  - rewrite lookup_insert_ne by (apply RunSpec.div_ne; discriminate).
    unfold m. by rewrite lookup_insert_eq.
  - exists t. rewrite lookup_insert_eq. by rewrite <- Hb.
  - by vm_compute.
  - by vm_compute.
  - repeat split; apply elem_of_union_r, elem_of_list_to_set.
    + do 2 apply ancestors_div. apply ancestors_self, div_not_nil.
    + apply ancestors_div. apply ancestors_self, div_not_nil.
    + apply ancestors_self, div_not_nil.
  - apply union_subseteq_l.
  - intros p Hp.
    rewrite lookup_insert_ne by (intros <-; apply Hp; solve_elem).
    unfold m.
    rewrite lookup_insert_ne by (intros <-; apply Hp; solve_elem).
    by rewrite lookup_insert_ne by (intros <-; apply Hp; solve_elem).
Qed.

(** X17: running [main] again writes nothing new. After one run, a
    second run leaves every text file and every directory as the first
    run left them: the two fixed texts are written again and [.bashrc],
    which mentions the profile by now, is not touched. *)
Theorem main_twice (c : container) (s : disk) :
  let s1 := (main c s).1 in
  let s2 := (main c s1).1 in
  texts s2 = texts s1 ∧ dirs s2 = dirs s1.
Proof.
  cbv zeta. destruct (shell_main_run c s) as [out ->]. cbn [fst].
  match goal with
  | |- context [main c ?s1] => destruct (shell_main_run c s1) as [out' ->]
  end.
  cbn [fst dirs texts].
  set (m := <[(home c / ".vscode_profile")%path := vscode_profile_content]>
              (<[(home c / ".inputrc")%path := inputrc_content]> (texts s))).
  destruct (enable_content (m !! (home c / ".bashrc")%path))
    as (t & -> & Hsub & _).
  split.
  - assert (<[(home c / ".vscode_profile")%path := vscode_profile_content]>
              (<[(home c / ".inputrc")%path := inputrc_content]>
                 (<[(home c / ".bashrc")%path := t]> m))
            = <[(home c / ".bashrc")%path := t]> m) as ->.
    { rewrite (insert_id (<[_ := t]> m) (home c / ".inputrc")%path).
      - apply insert_id.
        rewrite lookup_insert_ne by (apply RunSpec.div_ne; discriminate).
        unfold m. by rewrite lookup_insert_eq.
      - rewrite lookup_insert_ne by (apply RunSpec.div_ne; discriminate).
        unfold m.
        rewrite lookup_insert_ne by (apply RunSpec.div_ne; discriminate).
        by rewrite lookup_insert_eq. }
    rewrite lookup_insert_eq, enable_again by done.
    apply insert_id. by rewrite lookup_insert_eq.
  - by rewrite <- (assoc_L (∪)), (idemp_L (∪)).
Qed.

(** X18: the pre-commit hooks. [main] returns 0 whether or not
    [pre-commit install] succeeds; it runs that command at most once, at
    the root of the git checkout, and exactly when there is a checkout
    whose root has a [.pre-commit-config.yaml]. *)
Theorem main_installs_hooks (c : container) (s : disk) :
  let s' := (main c s).1 in
  (main c s).2.2 = Return 0 ∧
  installs s'
  = installs s ++
    match get_git_root c with
    | Some root =>
        if bool_decide
             (is_Some (texts s' !! (root / ".pre-commit-config.yaml")%path) ∨
              (root / ".pre-commit-config.yaml")%path ∈ dirs s')
        then [root] else []
    | None => []
    end ∧
  (∀ root, get_git_root c = Some root →
     texts s' !! (root / ".pre-commit-config.yaml")%path
     = texts s !! (root / ".pre-commit-config.yaml")%path).
Proof.
  cbv zeta. destruct (shell_main_run c s) as [out ->].
  cbn [fst snd dirs texts installs]. split; [done|]. split.
  - f_equal. destruct (get_git_root c) as [root |]; [| done].
    match goal with
    | |- (if bool_decide ?P || bool_decide ?Q then _ else _) = _ =>
        destruct (decide P); destruct (decide Q);
        rewrite ?(bool_decide_eq_true_2 P), ?(bool_decide_eq_false_2 P),
          ?(bool_decide_eq_true_2 Q), ?(bool_decide_eq_false_2 Q),
          ?(bool_decide_eq_true_2 (P ∨ Q)), ?(bool_decide_eq_false_2 (P ∨ Q))
          by tauto
    end; done.
  - intros root _.
    destruct (PostStart.enable_vscode_profile _).1;
      by rewrite !lookup_insert_ne by (apply RunSpec.div_ne; discriminate).
Qed.

End ShellSetupSpec.
